(** * String utilities of jood-common: a shallow embedding and its properties

    The development embeds [projects/packages/string/utils.ts].

    - JavaScript strings are sequences of UTF-16 code units: a string is a
      list of code units and [length] is the source's [.length].
    - A call returns a value or throws: [result].
    - The parameters that count code units, lines or digits
      ([expectCount], [max], [allow], [fixed]) are integers, [Z].
    - The host primitives the source calls (substring, split, join, Array,
      the scans of the regular expressions, the Number conversions) are
      modelled in the module [JS]; the functions of the source file follow
      in [StringUtils], one definition per function, statement by
      statement; [Spec] holds the vocabulary the properties are stated
      in. *)

From Stdlib Require Import String Ascii Decimal DecimalPos DecimalN.
From Stdlib Require DecimalFacts.
From Stdlib Require Import List ZArith NArith Lia Bool.
Import ListNotations.

(* ================================================================== *)
(** * Host primitives *)
(* ================================================================== *)

Module JS.

(** A UTF-16 code unit. *)
Abbreviation char := N (only parsing).
Abbreviation jsstring := (list N) (only parsing).

(** A string literal of the development, as code units. *)
Definition str (s : string) : jsstring :=
  map N_of_ascii (list_ascii_of_string s).

Definition char_eqb (a b : char) : bool := N.eqb a b.

Fixpoint string_eqb (a b : jsstring) : bool :=
  match a, b with
  | [], [] => true
  | x :: a', y :: b' => char_eqb x y && string_eqb a' b'
  | _, _ => false
  end.

(** ** Completion records: a call returns a value or throws. *)

Inductive exn := RangeError | TypeError.

Inductive result (A : Type) : Type :=
| Returns (a : A)
| Throws (e : exn).
Arguments Returns {A} a.
Arguments Throws {A} e.

Definition bind {A B} (r : result A) (k : A -> result B) : result B :=
  match r with
  | Returns a => k a
  | Throws e => Throws e
  end.

Notation "x <- r ;; k" := (bind r (fun x => k))
  (at level 61, r at next level, right associativity).

(** ** Numbers

    A finite non-zero number is kept as the decimal triple that
    [Number::toString] is specified on: the sign, a significand [m] and the
    exponent [n], the number being [0.d1d2...dk * 10^n] for the decimal
    digits [d1...dk] of [m].  Every double has such a triple. *)

Inductive number :=
| NaN
| Infinity (neg : bool)
| Zero (neg : bool)
| Finite (neg : bool) (m : positive) (n : Z).

Fixpoint uint_chars (d : Decimal.uint) : jsstring :=
  match d with
  | Nil => []
  | D0 d => 48%N :: uint_chars d
  | D1 d => 49%N :: uint_chars d
  | D2 d => 50%N :: uint_chars d
  | D3 d => 51%N :: uint_chars d
  | D4 d => 52%N :: uint_chars d
  | D5 d => 53%N :: uint_chars d
  | D6 d => 54%N :: uint_chars d
  | D7 d => 55%N :: uint_chars d
  | D8 d => 56%N :: uint_chars d
  | D9 d => 57%N :: uint_chars d
  end.

Definition N_to_string (n : N) : jsstring := uint_chars (N.to_uint n).

Definition zeros (n : Z) : jsstring := repeat 48%N (Z.to_nat n).

Fixpoint drop_while (p : char -> bool) (s : jsstring) : jsstring :=
  match s with
  | [] => []
  | c :: s' => if p c then drop_while p s' else s
  end.

Fixpoint take_while (p : char -> bool) (s : jsstring) : jsstring :=
  match s with
  | [] => []
  | c :: s' => if p c then c :: take_while p s' else []
  end.

(** The digits of the shortest significand: trailing zeros carry no
    information and [Number::toString] takes [k] as small as possible. *)
Definition significand (m : positive) : jsstring :=
  rev (drop_while (N.eqb 48) (rev (N_to_string (Npos m)))).

(** [Number::toString] (radix 10), ECMAScript 6.1.6.1.20. *)
Definition Number_toString (x : number) : jsstring :=
  match x with
  | NaN => str "NaN"
  | Infinity neg => (if neg then str "-" else []) ++ str "Infinity"
  | Zero _ => str "0"
  | Finite neg m n =>
      let ds := significand m in
      let k := Z.of_nat (length ds) in
      (if neg then str "-" else []) ++
      (if (k <=? n)%Z && (n <=? 21)%Z then
         ds ++ zeros (n - k)
       else if (0 <? n)%Z && (n <=? 21)%Z then
         firstn (Z.to_nat n) ds ++ str "." ++ skipn (Z.to_nat n) ds
       else if (-6 <? n)%Z && (n <=? 0)%Z then
         str "0." ++ zeros (- n) ++ ds
       else
         let e := (n - 1)%Z in
         let exponent :=
           str "e" ++ (if (e <? 0)%Z then str "-" else str "+")
                   ++ N_to_string (Z.abs_N e) in
         if (k =? 1)%Z then ds ++ exponent
         else firstn 1 ds ++ str "." ++ skipn 1 ds ++ exponent)
  end.

(** ** Values *)

Inductive value :=
| VUndefined
| VNull
| VBool (b : bool)
| VNum (x : number)
| VStr (s : jsstring).

Inductive type_tag := TUndefined | TObject | TBoolean | TNumber | TString.

Definition typeof (v : value) : type_tag :=
  match v with
  | VUndefined => TUndefined
  | VNull => TObject
  | VBool _ => TBoolean
  | VNum _ => TNumber
  | VStr _ => TString
  end.

(** [ToString], used by [String(v)], template literals and [toString()]. *)
Definition ToString (v : value) : jsstring :=
  match v with
  | VUndefined => str "undefined"
  | VNull => str "null"
  | VBool true => str "true"
  | VBool false => str "false"
  | VNum x => Number_toString x
  | VStr s => s
  end.

(** [ToBoolean]; [!v] is its negation. *)
Definition ToBoolean (v : value) : bool :=
  match v with
  | VUndefined | VNull => false
  | VBool b => b
  | VNum NaN | VNum (Zero _) => false
  | VNum _ => true
  | VStr [] => false
  | VStr _ => true
  end.

(** ** Strings *)

Definition clamp (len : nat) (i : Z) : nat :=
  Z.to_nat (Z.min (Z.max i 0) (Z.of_nat len)).

(** [s.substring(start, end)]: both ends are clamped to [0, length] and
    swapped when out of order. *)
Definition substring (s : jsstring) (start end_ : Z) : jsstring :=
  let a := clamp (length s) start in
  let b := clamp (length s) end_ in
  let from := Nat.min a b in
  let to := Nat.max a b in
  firstn (to - from) (skipn from s).

(** [l.join(sep)]. *)
Fixpoint join (sep : jsstring) (l : list jsstring) : jsstring :=
  match l with
  | [] => []
  | [x] => x
  | x :: l' => x ++ sep ++ join sep l'
  end.

(** [Array(len)]: a [RangeError] unless [len] is an array length. *)
Definition Array_ (len : Z) : result nat :=
  if (0 <=? len)%Z && (len <? 2 ^ 32)%Z then Returns (Z.to_nat len)
  else Throws RangeError.

(** [Array.from(a).map(() => x)] for an array of [n] holes. *)
Definition Array_from_map {A : Type} (n : nat) (x : A) : list A := repeat x n.

(** ** Character classes *)

(** [\d]. *)
Definition is_digit (c : char) : bool := (48 <=? c)%N && (c <=? 57)%N.

(** [[a-z]] under the [i] flag: canonicalisation folds the ASCII letters
    only, no code unit above 127 folds onto one of them. *)
Definition is_ascii_lower (c : char) : bool := (97 <=? c)%N && (c <=? 122)%N.
Definition is_ascii_upper (c : char) : bool := (65 <=? c)%N && (c <=? 90)%N.
Definition is_ascii_letter (c : char) : bool :=
  is_ascii_lower c || is_ascii_upper c.

(** [\s], which is also what [trim] removes: WhiteSpace and LineTerminator. *)
Definition isWhiteSpace (c : char) : bool :=
  ((9 <=? c)%N && (c <=? 13)%N)
  || (c =? 32)%N || (c =? 160)%N || (c =? 5760)%N
  || ((8192 <=? c)%N && (c <=? 8202)%N)
  || (c =? 8232)%N || (c =? 8233)%N || (c =? 8239)%N
  || (c =? 8287)%N || (c =? 12288)%N || (c =? 65279)%N.

(** [s.toUpperCase()], exact on the ASCII code units; the source applies
    it to a matched separator and ASCII letter only. *)
Definition toUpperCase_char (c : char) : char :=
  if is_ascii_lower c then (c - 32)%N else c.
Definition toUpperCase (s : jsstring) : jsstring := map toUpperCase_char s.

(** ** Searching and splitting *)

Fixpoint starts_with (p s : jsstring) : bool :=
  match p, s with
  | [], _ => true
  | x :: p', y :: s' => char_eqb x y && starts_with p' s'
  | _ :: _, [] => false
  end.

(** Whether [p] occurs in [s]: [s.indexOf(p) >= 0]. *)
Fixpoint includes (p s : jsstring) : bool :=
  starts_with p s ||
  match s with
  | [] => false
  | _ :: s' => includes p s'
  end.

(** The scan of [split] for a non-empty separator: [skip] counts the code
    units of a separator just found that are still to be passed over. *)
Fixpoint split_scan (sep : jsstring) (skip : nat) (s : jsstring)
  : list jsstring :=
  match s with
  | [] => [[]]
  | c :: s' =>
      match skip with
      | S k => split_scan sep k s'
      | O =>
          if starts_with sep s then [] :: split_scan sep (length sep - 1) s'
          else match split_scan sep 0 s' with
               | piece :: pieces => (c :: piece) :: pieces
               | [] => [[c]]
               end
      end
  end.

(** [s.split(sep)] for a string separator. *)
Definition split (sep s : jsstring) : list jsstring :=
  match sep with
  | [] => map (fun c => [c]) s
  | _ :: _ => split_scan sep 0 s
  end.

(** [s.replace(pat, empty)] for a string pattern [pat] and the empty
    replacement: the first occurrence of [pat] goes. *)
Fixpoint String_replace_empty (s pat : jsstring) : jsstring :=
  if starts_with pat s then skipn (length pat) s
  else match s with
       | [] => []
       | c :: s' => c :: String_replace_empty s' pat
       end.

(** [s.trim()]. *)
Definition trim (s : jsstring) : jsstring :=
  rev (drop_while isWhiteSpace (rev (drop_while isWhiteSpace s))).

(** ** Regular expressions

    A pattern is given by its matcher: on the text from the current
    position on, the length of the match that starts there and the texts
    of its capture groups, or [None].  None of the source's patterns looks
    behind the current position. *)

Definition matcher := jsstring -> option (nat * list jsstring).

(** [GetSubstitution]: the expansion of a replacement template. *)
Fixpoint GetSubstitution (matched whole : jsstring) (position : nat)
  (captures : list jsstring) (template : jsstring) : jsstring :=
  match template with
  | [] => []
  | c :: t1 =>
      if negb (c =? 36)%N then
        c :: GetSubstitution matched whole position captures t1
      else
        match t1 with
        | [] => [c]
        | d :: t2 =>
            let one_digit :=
              let index := N.to_nat (d - 48) in
              if (1 <=? index)%nat && (index <=? length captures)%nat then
                nth (index - 1) captures []
                  ++ GetSubstitution matched whole position captures t2
              else
                c :: d :: GetSubstitution matched whole position captures t2 in
            if (d =? 36)%N then
              36%N :: GetSubstitution matched whole position captures t2
            else if (d =? 38)%N then
              matched ++ GetSubstitution matched whole position captures t2
            else if (d =? 96)%N then
              firstn position whole
                ++ GetSubstitution matched whole position captures t2
            else if (d =? 39)%N then
              skipn (position + length matched) whole
                ++ GetSubstitution matched whole position captures t2
            else if is_digit d then
              match t2 with
              | d2 :: t3 =>
                  if is_digit d2 then
                    let index := (10 * N.to_nat (d - 48) + N.to_nat (d2 - 48))%nat in
                    if (length captures <? index)%nat then one_digit
                    else if (1 <=? index)%nat then
                      nth (index - 1) captures []
                        ++ GetSubstitution matched whole position captures t3
                    else
                      c :: d :: d2
                        :: GetSubstitution matched whole position captures t3
                  else one_digit
              | [] => one_digit
              end
            else if (d =? 60)%N then
              c :: d :: GetSubstitution matched whole position captures t2
            else
              c :: GetSubstitution matched whole position captures t1
        end
  end.

(** [whole.replace(re, f)] for a global pattern [re]: the scan from left to
    right.  [f position matched captures] is the replacement text; after an
    empty match the scan moves on by one code unit. *)
Fixpoint replace_scan (m : matcher)
  (f : nat -> jsstring -> list jsstring -> jsstring)
  (skip position : nat) (s : jsstring) : jsstring :=
  match s with
  | [] =>
      match skip, m [] with
      | O, Some (_, captures) => f position [] captures
      | _, _ => []
      end
  | c :: s' =>
      match skip with
      | S k => replace_scan m f k (S position) s'
      | O =>
          match m s with
          | Some (O, captures) =>
              f position [] captures
                ++ c :: replace_scan m f 0 (S position) s'
          | Some (S k, captures) =>
              f position (firstn (S k) s) captures
                ++ replace_scan m f k (S position) s'
          | None => c :: replace_scan m f 0 (S position) s'
          end
      end
  end.

(** [whole.replace(re, callback)]. *)
Definition RegExp_replace_fn (m : matcher) (callback : jsstring -> jsstring)
  (whole : jsstring) : jsstring :=
  replace_scan m (fun _ matched _ => callback matched) 0 0 whole.

(** [whole.replace(re, template)]. *)
Definition RegExp_replace (m : matcher) (template whole : jsstring)
  : jsstring :=
  replace_scan m
    (fun position matched captures =>
       GetSubstitution matched whole position captures template)
    0 0 whole.

(** [re.test(s)] for a pattern without the [g] flag. *)
Fixpoint RegExp_test (m : matcher) (s : jsstring) : bool :=
  match m s with
  | Some _ => true
  | None => match s with
            | [] => false
            | _ :: s' => RegExp_test m s'
            end
  end.

(** [re.exec(text)] for a global pattern whose [lastIndex] is [lastIndex]:
    the match found from there on and the new [lastIndex], or [null] and a
    [lastIndex] reset to 0. *)
Fixpoint exec_from (m : matcher) (index : nat) (s : jsstring)
  : option (jsstring * nat) :=
  match m s with
  | Some (n, _) => Some (firstn n s, (index + n)%nat)
  | None => match s with
            | [] => None
            | _ :: s' => exec_from m (S index) s'
            end
  end.

Definition RegExp_exec (m : matcher) (text : jsstring) (lastIndex : nat)
  : option jsstring * nat :=
  if (length text <? lastIndex)%nat then (None, 0%nat)
  else match exec_from m lastIndex (skipn lastIndex text) with
       | Some (matched, e) => (Some matched, e)
       | None => (None, 0%nat)
       end.

(** ** Number conversions

    [Number(s)] and [x.toFixed(1)] on the fragment where they are exact
    decimal arithmetic: an optionally signed run of decimal digits, and
    the integers up to 2^53.  [None] marks an argument outside the
    fragment (white space, a fraction or an exponent in the literal, a
    magnitude that a double rounds). *)

Definition digit_cons (c : char) : option (uint -> uint) :=
  if (c =? 48)%N then Some D0 else if (c =? 49)%N then Some D1
  else if (c =? 50)%N then Some D2 else if (c =? 51)%N then Some D3
  else if (c =? 52)%N then Some D4 else if (c =? 53)%N then Some D5
  else if (c =? 54)%N then Some D6 else if (c =? 55)%N then Some D7
  else if (c =? 56)%N then Some D8 else if (c =? 57)%N then Some D9
  else None.

Fixpoint parse_uint (s : jsstring) : option uint :=
  match s with
  | [] => Some Nil
  | c :: s' =>
      match digit_cons c, parse_uint s' with
      | Some k, Some d => Some (k d)
      | _, _ => None
      end
  end.

Definition MAX_EXACT : N := (2 ^ 53)%N.

Definition Number_of_digits (neg : bool) (body : jsstring) : option number :=
  match body with
  | [] => Some NaN
  | _ :: _ =>
      match parse_uint body with
      | Some d =>
          match N.of_uint d with
          | N0 => Some (Zero neg)
          | Npos m =>
              if (Npos m <=? MAX_EXACT)%N then
                Some (Finite neg m (Z.of_nat (length (N_to_string (Npos m)))))
              else None
          end
      | None => None
      end
  end.

Definition Number_of_string (s : jsstring) : option number :=
  match s with
  | [] => Some (Zero false)
  | c :: s' =>
      if (c =? 45)%N then Number_of_digits true s'
      else if (c =? 43)%N then Number_of_digits false s'
      else Number_of_digits false s
  end.

Definition Number_toFixed1 (x : number) : option jsstring :=
  match x with
  | NaN => Some (str "NaN")
  | Infinity neg => Some ((if neg then str "-" else []) ++ str "Infinity")
  | Zero _ => Some (str "0.0")
  | Finite neg m n =>
      let ds := N_to_string (Npos m) in
      let k := Z.of_nat (length ds) in
      if (k <=? n)%Z && (Npos m * 10 ^ Z.to_N (n - k) <=? MAX_EXACT)%N then
        Some ((if neg then str "-" else []) ++ ds ++ zeros (n - k) ++ str ".0")
      else None
  end.

(** ** Conversions and comparisons of numbers *)

(** The number an integer is. *)
Definition Number_of_Z (z : Z) : number :=
  match z with
  | Z0 => Zero false
  | Zpos m => Finite false m (Z.of_nat (length (N_to_string (Npos m))))
  | Zneg m => Finite true m (Z.of_nat (length (N_to_string (Npos m))))
  end.

(** [Number(v)]; on a string it is defined where [Number_of_string] is. *)
Definition ToNumber (v : value) : option number :=
  match v with
  | VUndefined => Some NaN
  | VNull => Some (Zero false)
  | VBool true => Some (Finite false 1 1)
  | VBool false => Some (Zero false)
  | VNum x => Some x
  | VStr s => Number_of_string s
  end.

(** [0 <= x] and [x < 10].  The first digit of a significand is not zero:
    a finite number [0.d1...dk * 10^n] lies between [10^(n-1)] and
    [10^n]. *)
Definition zero_le (x : number) : bool :=
  match x with
  | NaN => false
  | Infinity neg => negb neg
  | Zero _ => true
  | Finite neg _ _ => negb neg
  end.

Definition lt_ten (x : number) : bool :=
  match x with
  | NaN => false
  | Infinity neg => neg
  | Zero _ => true
  | Finite neg _ n => neg || (n <=? 1)%Z
  end.

(** [s.toUpperCase()] on strings of ASCII code units; [None] on a string
    that holds any other code unit. *)
Definition toUpperCase_ascii (s : jsstring) : option jsstring :=
  if forallb (fun c => (c <? 128)%N) s then Some (toUpperCase s) else None.

(** [whole.replace(re, template)] for a pattern [re] anchored at the start
    of the text by [^] (and without the [m] flag): it can match at
    position 0 only. *)
Definition RegExp_replace_start (m : matcher) (template whole : jsstring)
  : jsstring :=
  match m whole with
  | Some (n, captures) =>
      GetSubstitution (firstn n whole) whole 0 captures template
        ++ skipn n whole
  | None => whole
  end.

End JS.

(* ================================================================== *)
(** * The functions of string/utils.ts *)
(* ================================================================== *)

Module StringUtils.
Import JS.

Definition tab : jsstring := [9%N].
Definition newline : jsstring := [10%N].

(** [replaceAll(text, find, replace)]. *)
Definition replaceAll (text find replace : jsstring) : jsstring :=
  if negb (ToBoolean (VStr text)) then text
  else if negb (ToBoolean (VStr find)) then text
  else join replace (split find text).

(** The pattern [/(<([^>]+)>)/gi]: an opening bracket, the longest run of
    code units other than the closing bracket, which must not be empty,
    and the closing bracket. *)
Definition tag_pattern : matcher := fun s =>
  match s with
  | c :: rest =>
      if (c =? 60)%N then
        let body := take_while (fun x => negb (x =? 62)%N) rest in
        match body, skipn (length body) rest with
        | _ :: _, g :: _ =>
            if (g =? 62)%N then
              Some (S (S (length body)), [firstn (S (S (length body))) s; body])
            else None
        | _, _ => None
        end
      else None
  | [] => None
  end.

(** [removeTag(tagText, removeTabSpace)]. *)
Definition removeTag (tagText : jsstring) (removeTabSpace : bool) : jsstring :=
  let refine := RegExp_replace tag_pattern [] tagText in
  if removeTabSpace then replaceAll refine tab [] else refine.

(** The patterns [/([_][a-z])/gi] and [/([-][a-z])/gi]. *)
Definition camel_pattern (sep : char) : matcher := fun s =>
  match s with
  | c :: l :: _ =>
      if (c =? sep)%N && is_ascii_letter l then Some (2%nat, [[c; l]])
      else None
  | _ => None
  end.

(** [toCamelFromSnake(text)]. *)
Definition toCamelFromSnake (text : jsstring) : jsstring :=
  RegExp_replace_fn (camel_pattern 95%N)
    (fun _1 => String_replace_empty (toUpperCase _1) (str "_")) text.

(** [toCamelFromKebab(text)]. *)
Definition toCamelFromKebab (text : jsstring) : jsstring :=
  RegExp_replace_fn (camel_pattern 45%N)
    (fun _1 => String_replace_empty (toUpperCase _1) (str "-")) text.

(** The pattern [/\s*\S*/g]: both stars are greedy and the pattern
    matches, possibly the empty text, wherever it is tried. *)
Definition word_pattern : matcher := fun s =>
  let spaces := take_while isWhiteSpace s in
  let rest := skipn (length spaces) s in
  let word := take_while (fun c => negb (isWhiteSpace c)) rest in
  Some ((length spaces + length word)%nat, []).

(** [strReg.exec(text)[0]]: indexing [null] throws. *)
Definition exec0 (text : jsstring) (lastIndex : nat) : result (jsstring * nat) :=
  match RegExp_exec word_pattern text lastIndex with
  | (Some matched, lastIndex') => Returns (matched, lastIndex')
  | (None, _) => Throws TypeError
  end.

(** The [while] loop of [toWordArray]; [fuel] bounds its iterations and
    [None] is a loop that has not finished within them. *)
Fixpoint toWordArray_loop (fuel : nat) (text : jsstring) (lastIndex : nat)
  (word : jsstring) (refine : list jsstring)
  : option (result (list jsstring)) :=
  match fuel with
  | O => None
  | S fuel' =>
      if ToBoolean (VStr word) then
        if string_eqb word [] then Some (Returns refine)
        else
          let refine := refine ++ [word] in
          match exec0 text lastIndex with
          | Returns (matched, lastIndex') =>
              toWordArray_loop fuel' text lastIndex' (trim matched) refine
          | Throws e => Some (Throws e)
          end
      else Some (Returns refine)
  end.

(** [toWordArray(text)], its loop run for at most [fuel] iterations. *)
Definition toWordArray (fuel : nat) (text : jsstring)
  : option (result (list jsstring)) :=
  match exec0 text 0 with
  | Returns (matched, lastIndex) =>
      toWordArray_loop fuel text lastIndex (trim matched) []
  | Throws e => Some (Throws e)
  end.

(** [padStart(text, addText, expectCount)]. *)
Definition padStart (text : value) (addText : jsstring) (expectCount : Z)
  : result value :=
  match typeof text with
  | TString | TNumber =>
      let refine := ToString text in
      let len := Z.of_nat (length refine) in
      let count := (expectCount - len)%Z in
      n <- Array_ count ;;
      let adds := Array_from_map n addText in
      let refine := join [] adds ++ ToString text in
      Returns (VStr
        (if (expectCount <? Z.of_nat (length refine))%Z then
           substring refine (Z.of_nat (length refine) - expectCount)
                     (Z.of_nat (length refine))
         else refine))
  | _ => Returns text
  end.

(** [padEnd(text, addText, expectCount)]. *)
Definition padEnd (text : value) (addText : jsstring) (expectCount : Z)
  : result value :=
  match typeof text with
  | TString | TNumber =>
      let refine := ToString text in
      let len := Z.of_nat (length refine) in
      let count := (expectCount - len)%Z in
      n <- Array_ count ;;
      let adds := Array_from_map n addText in
      let refine := ToString text ++ join [] adds in
      Returns (VStr
        (if (expectCount <? Z.of_nat (length refine))%Z then
           substring refine 0 expectCount
         else refine))
  | _ => Returns text
  end.

(** The pattern [/\d(?=(\d{3})+\.)/g].  The lookahead asks for one or
    more groups of three digits and then a point; its capture is the last
    group. *)
Fixpoint digit_groups (s : jsstring) : option jsstring :=
  match s with
  | a :: b :: c :: rest =>
      if is_digit a && is_digit b && is_digit c then
        match digit_groups rest with
        | Some g => Some g
        | None => if starts_with (str ".") rest then Some [a; b; c] else None
        end
      else None
  | _ => None
  end.

Definition thousands_pattern : matcher := fun s =>
  match s with
  | d :: rest =>
      if is_digit d then
        match digit_groups rest with
        | Some g => Some (1%nat, [g])
        | None => None
        end
      else None
  | [] => None
  end.

(** The pattern [/\./]. *)
Definition point_pattern : matcher := fun s =>
  if starts_with (str ".") s then Some (1%nat, []) else None.

Record CurrencyPriceOption := {
  fixed : option Z;
  replaceChar : option jsstring
}.

Definition no_options : CurrencyPriceOption :=
  {| fixed := None; replaceChar := None |}.

Section WithNumberUtils.

(** [isNumber] of [../number/utils], which the file imports. *)
Variable isNumber : value -> bool.

(** [toCurrencyFormat(price, options)].  [None] is a price whose integer
    part lies outside the fragment of the number conversions. *)
Definition toCurrencyFormat (price : value) (options : CurrencyPriceOption)
  : option (result jsstring) :=
  if negb (isNumber price) then Some (Returns (ToString price))
  else
    let fixed := match fixed options with Some f => f | None => 0%Z end in
    let replaceChar :=
      match replaceChar options with Some r => r | None => str "," end in
    let safeStr := ToString price in
    let splits := split (str ".") safeStr in
    let normal := nth 0 splits [] in
    match Number_of_string normal with
    | None => None
    | Some x =>
        match Number_toFixed1 x with
        | None => None
        | Some fixed1 =>
            let normal :=
              RegExp_replace thousands_pattern (str "$&" ++ replaceChar) fixed1 in
            let normal :=
              substring normal 0 (Z.of_nat (length normal) - 2) in
            let hasPoint := RegExp_test point_pattern safeStr in
            let decimal := if hasPoint then nth 1 splits [] else [] in
            if (0 <? fixed)%Z then
              let decimalLen := Z.of_nat (length decimal) in
              if (decimalLen <? fixed)%Z then
                match Array_ (fixed - decimalLen) with
                | Returns n =>
                    let pad := join [] (Array_from_map n (str "0")) in
                    Some (Returns (normal ++ str "." ++ decimal ++ pad))
                | Throws e => Some (Throws e)
                end
              else
                Some (Returns (normal ++ str "." ++ substring decimal 0 fixed))
            else
              Some (Returns
                      (if hasPoint then normal ++ str "." ++ decimal
                       else normal))
        end
    end.

End WithNumberUtils.

(** [toEllipsisMiddle(text, max, alternative)]. *)
Definition toEllipsisMiddle (text : value) (max : Z) (alternative : jsstring)
  : value :=
  if negb (ToBoolean text) then text
  else
    let refine := ToString text in
    let strLen := Z.of_nat (length refine) in
    VStr (if (max <? strLen)%Z then
            let half := (max / 2)%Z in
            let strStart := substring refine 0 half in
            let strEnd := substring refine (strLen - half) strLen in
            strStart ++ alternative ++ strEnd
          else refine).

(** [toEllipsisEnd(text, max, alternative)]. *)
Definition toEllipsisEnd (text : value) (max : Z) (alternative : jsstring)
  : value :=
  if negb (ToBoolean text) then VNull
  else
    let refine := ToString text in
    let strLen := Z.of_nat (length refine) in
    VStr (if (max <? strLen)%Z then substring refine 0 max ++ alternative
          else refine).

(** The defaults of [max] and [alternative]. *)
Definition default_max : Z := 50.
Definition default_alternative : jsstring := str "...".

(** The pattern [/[<>&]/g]. *)
Definition entity_pattern : matcher := fun s =>
  match s with
  | c :: _ =>
      if (c =? 60)%N || (c =? 62)%N || (c =? 38)%N then Some (1%nat, [])
      else None
  | [] => None
  end.

(** [escape(text)]. *)
Definition escape (text : jsstring) : jsstring :=
  RegExp_replace_fn entity_pattern
    (fun match_ =>
       if string_eqb match_ (str "<") then str "&lt;"
       else if string_eqb match_ (str ">") then str "&gt;"
       else if string_eqb match_ (str "&") then str "&amp;"
       else match_)
    text.

(** The pattern [/[^\s]/]. *)
Definition non_space_pattern : matcher := fun s =>
  match s with
  | c :: _ => if negb (isWhiteSpace c) then Some (1%nat, []) else None
  | [] => None
  end.

(** One call of the [forEach] callback of [collapseMultiline] on the state
    [(cnt, refine)]. *)
Definition collapse_step (allow : Z) (state : Z * list jsstring)
  (str_ : jsstring) : Z * list jsstring :=
  let '(cnt, refine) := state in
  let isBreak := negb (RegExp_test non_space_pattern str_) in
  if isBreak then
    let cnt := (cnt + 1)%Z in
    if (cnt <? allow)%Z then (cnt, refine ++ [str_]) else (cnt, refine)
  else (0%Z, refine ++ [str_]).

(** [collapseMultiline(text, allow)]; splitting on [/\n/] is splitting on
    the line feed. *)
Definition collapseMultiline (text : jsstring) (allow : Z) : jsstring :=
  let separate := split newline text in
  let refine := snd (fold_left (collapse_step allow) separate (0%Z, [])) in
  join newline refine.

(** [toUpperCaseHead(text)], for a text whose first code unit is ASCII. *)
Definition toUpperCaseHead (text : jsstring) : option jsstring :=
  match toUpperCase_ascii (substring text 0 1) with
  | Some head =>
      let tail := substring text 1 (Z.of_nat (length text)) in
      Some (head ++ tail)
  | None => None
  end.

(** The blank tokens at the head of a text, as the group
    [(\u2800|&#10240;|\s)+] takes them one after the other: the code unit
    U+2800, its numeric character reference, or a white space.  The three
    alternatives start with different code units. *)
Definition blank_entity : jsstring := str "&#10240;".

Fixpoint blank_tokens (skip : nat) (s : jsstring) : list jsstring :=
  match s with
  | [] => []
  | c :: s' =>
      match skip with
      | S k => blank_tokens k s'
      | O =>
          if (c =? 10240)%N then [c] :: blank_tokens 0 s'
          else if starts_with blank_entity s then
            blank_entity :: blank_tokens 7 s'
          else if isWhiteSpace c then [c] :: blank_tokens 0 s'
          else []
      end
  end.

(** The pattern [/^(\u2800|&#10240;|\s)+/g], at the start of the text. *)
Definition blank_start_pattern : matcher := fun s =>
  match blank_tokens 0 s with
  | [] => None
  | tokens => Some (length (concat tokens), [last tokens []])
  end.

(** The pattern [/(\u2800|&#10240;|\s)+$/g]: the tokens have to reach the
    end of the text. *)
Definition blank_end_pattern : matcher := fun s =>
  match blank_tokens 0 s with
  | [] => None
  | tokens =>
      if (length (concat tokens) =? length s)%nat then
        Some (length s, [last tokens []])
      else None
  end.

(** The pattern [/(\u2800|&#10240;)/g]. *)
Definition blank_mark_pattern : matcher := fun s =>
  match s with
  | c :: _ =>
      if (c =? 10240)%N then Some (1%nat, [[c]])
      else if starts_with blank_entity s then
        Some (length blank_entity, [blank_entity])
      else None
  | [] => None
  end.

(** [trimStart(text)]. *)
Definition trimStart (text : jsstring) : jsstring :=
  RegExp_replace_start blank_start_pattern [] text.

(** [trimEnd(text)]. *)
Definition trimEnd (text : jsstring) : jsstring :=
  RegExp_replace blank_end_pattern [] text.

(** [refineWhitespace(text)]. *)
Definition refineWhitespace (text : jsstring) : jsstring :=
  RegExp_replace blank_mark_pattern (str " ") text.

Section WithNumberUtils2.

Variable isNumber : value -> bool.

(** [insert(text, index, addText)], for an integer [index]. *)
Definition insert (text : jsstring) (index : Z) (addText : jsstring)
  : jsstring :=
  if isNumber (VNum (Number_of_Z index)) then
    let textLen := Z.of_nat (length text) in
    let safeIndex := if (index <? 0)%Z then 0%Z else Z.min index textLen in
    let head := substring text 0 safeIndex in
    let tail := substring text safeIndex textLen in
    head ++ addText ++ tail
  else text.

(** [leadingTime(time)].  [None] is a [time] that [Number] is not
    modelled on. *)
Definition leadingTime (time : value) : option value :=
  if isNumber time then
    match ToNumber time with
    | Some safeNum =>
        Some (VStr (if zero_le safeNum && lt_ten safeNum
                    then str "0" ++ Number_toString safeNum
                    else ToString time))
    | None => None
    end
  else Some time.

End WithNumberUtils2.

End StringUtils.


(* ================================================================== *)
(** * Vocabulary of the properties *)
(* ================================================================== *)

Module Spec.
Import JS.

(** The last [n] code units of [s]. *)
Definition lastn (n : nat) (s : jsstring) : jsstring :=
  skipn (length s - n) s.

(** The three code units [escape] rewrites, and what each code unit
    becomes. *)
Definition is_entity_char (c : char) : bool :=
  (c =? 60)%N || (c =? 62)%N || (c =? 38)%N.

Definition escape_char (c : char) : jsstring :=
  if (c =? 60)%N then str "&lt;"
  else if (c =? 62)%N then str "&gt;"
  else if (c =? 38)%N then str "&amp;"
  else [c].

(** Camel casing read from left to right: a separator followed by an
    ASCII letter of either case goes and the letter is uppercased. *)
Fixpoint camel (sep : char) (s : jsstring) : jsstring :=
  match s with
  | [] => []
  | c :: s' =>
      match s' with
      | l :: rest =>
          if (c =? sep)%N && is_ascii_letter l then
            toUpperCase_char l :: camel sep rest
          else c :: camel sep s'
      | [] => [c]
      end
  end.

(** [tag_stripped s o]: [o] is [s] without some substrings, each of them
    an opening bracket, a non-empty body free of closing brackets, and a
    closing bracket. *)
Inductive tag_stripped : jsstring -> jsstring -> Prop :=
| stripped_nil : tag_stripped [] []
| stripped_keep c s o :
    tag_stripped s o -> tag_stripped (c :: s) (c :: o)
| stripped_tag body s o :
    body <> [] -> Forall (fun c => c <> 62%N) body ->
    tag_stripped s o -> tag_stripped (60%N :: body ++ 62%N :: s) o.

(** The fields of [s] between the code units that satisfy [p], and the
    words of [s]: its non-empty fields between white space, from left to
    right. *)
Fixpoint fields (p : char -> bool) (s : jsstring) : list jsstring :=
  match s with
  | [] => [[]]
  | c :: s' =>
      if p c then [] :: fields p s'
      else match fields p s' with
           | f :: fs => (c :: f) :: fs
           | [] => [[c]]
           end
  end.

Definition is_empty (s : jsstring) : bool :=
  match s with
  | [] => true
  | _ :: _ => false
  end.

Definition words (s : jsstring) : list jsstring :=
  filter (fun w => negb (is_empty w)) (fields isWhiteSpace s).

(** A blank line holds no code unit other than white space. *)
Definition is_blank (line : jsstring) : bool := forallb isWhiteSpace line.

(** [subseq l k]: [l] is [k] without some of its elements. *)
Inductive subseq {A : Type} : list A -> list A -> Prop :=
| subseq_nil : subseq [] []
| subseq_keep x l k : subseq l k -> subseq (x :: l) (x :: k)
| subseq_drop x l k : subseq l k -> subseq l (x :: k).

(** The lines [collapseMultiline] keeps, read from the first line on;
    [cnt] is the counter of the loop when it reaches [lines]. *)
Fixpoint kept_lines (allow cnt : Z) (lines : list jsstring)
  : list jsstring :=
  match lines with
  | [] => []
  | line :: rest =>
      if is_blank line then
        if (cnt + 1 <? allow)%Z then line :: kept_lines allow (cnt + 1) rest
        else kept_lines allow (cnt + 1) rest
      else line :: kept_lines allow 0 rest
  end.

(** [runs_within b cur l]: the blank lines at the head of [l], after
    [cur] blank lines already seen, and every later run of blank lines
    in [l] are at most [b] lines long. *)
Fixpoint runs_within (b cur : Z) (l : list jsstring) : Prop :=
  match l with
  | [] => True
  | line :: rest =>
      if is_blank line then
        (cur + 1 <= b)%Z /\ runs_within b (cur + 1) rest
      else runs_within b 0 rest
  end.

(** Digits in groups of three counted from the right: [r] follows every
    digit that has a positive multiple of three digits after it. *)
Definition grouped (n : nat) : bool := (0 <? n)%nat && (n mod 3 =? 0)%nat.

Fixpoint group3 (r digits : jsstring) : jsstring :=
  match digits with
  | [] => []
  | d :: digits' =>
      d :: (if grouped (length digits') then r ++ group3 r digits'
            else group3 r digits')
  end.

(** A fractional part padded with zeros or cut to [fixed] code units. *)
Definition fraction_digits (fraction : jsstring) (fixed : Z) : jsstring :=
  if (Z.of_nat (length fraction) <? fixed)%Z then
    fraction ++ zeros (fixed - Z.of_nat (length fraction))
  else firstn (Z.to_nat fixed) fraction.

(** The sign and the fractional part of a plain decimal literal. *)
Definition sign_text (neg : bool) : jsstring :=
  if neg then str "-" else [].

Definition fraction_text (fraction : option jsstring) : jsstring :=
  match fraction with
  | Some f => str "." ++ f
  | None => []
  end.

(** A decimal literal: an optional sign, digits with an optional
    fractional part, or a fractional part alone, and an optional
    exponent. *)
Definition unsigned (s : jsstring) : jsstring :=
  match s with
  | c :: s' => if (c =? 45)%N || (c =? 43)%N then s' else s
  | [] => []
  end.

Definition is_decimal_literal (s : jsstring) : bool :=
  let s1 := unsigned s in
  let whole := take_while is_digit s1 in
  let r1 := drop_while is_digit s1 in
  let fraction :=
    match r1 with
    | c :: r => if (c =? 46)%N then take_while is_digit r else []
    | [] => []
    end in
  let r2 :=
    match r1 with
    | c :: r => if (c =? 46)%N then drop_while is_digit r else r1
    | [] => []
    end in
  negb (is_empty whole && is_empty fraction)
  && match r2 with
     | [] => true
     | e :: r3 =>
         ((e =? 101)%N || (e =? 69)%N)
         && negb (is_empty (unsigned r3))
         && forallb is_digit (unsigned r3)
     end.

(** Modelled from the spec: [isNumber] of [../number/utils], whose source
    is not part of the repository files at hand.  Given a string or a
    number, it reports whether the value represents a valid finite
    number. *)
Definition isNumber_spec (v : value) : bool :=
  match v with
  | VNum (Zero _) | VNum (Finite _ _ _) => true
  | VStr s => is_decimal_literal s
  | _ => false
  end.

(** [pieces_between find text pieces]: [pieces] are the parts of [text]
    between the occurrences of [find] met from left to right.  Either
    [find] does not occur and the text is the one piece; or the first
    piece ends where the first occurrence of [find] starts, no occurrence
    starting before it, and the other pieces are those of the text after
    that occurrence. *)
Inductive pieces_between (find : jsstring)
  : jsstring -> list jsstring -> Prop :=
| pieces_last text :
    includes find text = false -> pieces_between find text [text]
| pieces_cut piece rest pieces :
    (forall k, (k < length piece)%nat ->
       starts_with find (skipn k (piece ++ find ++ rest)) = false) ->
    pieces_between find rest pieces ->
    pieces_between find (piece ++ find ++ rest) (piece :: pieces).

(** The lines in maximal runs: consecutive lines that are all blank
    (flag [true]) or all not blank (flag [false]); neighbouring runs
    differ in their flag. *)
Fixpoint line_runs (lines : list jsstring) : list (bool * list jsstring) :=
  match lines with
  | [] => []
  | line :: rest =>
      match line_runs rest with
      | (b, run) :: runs =>
          if Bool.eqb b (is_blank line) then (b, line :: run) :: runs
          else (is_blank line, [line]) :: (b, run) :: runs
      | [] => [(is_blank line, [line])]
      end
  end.

(** A run of blank lines cut to its first [allow - 1] lines (to nothing
    when [allow <= 1]); a run of other lines as it is. *)
Definition cut_run (allow : Z) (r : bool * list jsstring) : list jsstring :=
  if fst r then firstn (Z.to_nat (allow - 1)) (snd r) else snd r.

(** The lines with every maximal run of blank lines cut. *)
Definition collapsed (allow : Z) (lines : list jsstring) : list jsstring :=
  flat_map (cut_run allow) (line_runs lines).

End Spec.

(** Vocabulary of the further properties. *)
Module SpecMore.
Import JS StringUtils.

(** Reading an escaped text back: each of the three entities is one code
    unit again. *)
Fixpoint unescape (skip : nat) (s : jsstring) : jsstring :=
  match s with
  | [] => []
  | c :: s' =>
      match skip with
      | S k => unescape k s'
      | O =>
          if starts_with (str "&lt;") s then 60%N :: unescape 3 s'
          else if starts_with (str "&gt;") s then 62%N :: unescape 3 s'
          else if starts_with (str "&amp;") s then 38%N :: unescape 4 s'
          else c :: unescape 0 s'
      end
  end.

(** A text made of blank tokens only. *)
Definition blank_text (s : jsstring) : bool :=
  (length (concat (blank_tokens 0 s)) =? length s)%nat.

(** No tag starts anywhere in the text. *)
Fixpoint no_tag (s : jsstring) : Prop :=
  match s with
  | [] => True
  | _ :: s' => tag_pattern s = None /\ no_tag s'
  end.

(** One blank token: the code unit U+2800, its numeric character
    reference, or one white space. *)
Definition is_blank_token (t : jsstring) : Prop :=
  t = [10240%N] \/ t = blank_entity
  \/ exists c, t = [c] /\ isWhiteSpace c = true.

(** The text without the blank tokens it ends with: read from the left,
    it stops where the rest of the text is blank tokens only. *)
Fixpoint without_blank_end (s : jsstring) : jsstring :=
  match s with
  | [] => []
  | c :: s' => if blank_text s then [] else c :: without_blank_end s'
  end.

End SpecMore.

Import JS StringUtils Spec SpecMore.

(* ================================================================== *)
(** * Properties of the host primitives *)
(* ================================================================== *)

Section HostFacts.

Lemma char_eqb_eq (a b : char) : char_eqb a b = true <-> a = b.
Proof. apply N.eqb_eq. Qed.

Lemma string_eqb_refl (s : jsstring) : string_eqb s s = true.
Proof.
  induction s as [|c s IH]; simpl; [reflexivity|].
  unfold char_eqb. now rewrite N.eqb_refl.
Qed.

Lemma join_empty_repeat (x : jsstring) (n : nat) :
  join [] (repeat x n) = concat (repeat x n).
Proof.
  induction n as [|n IH]; [reflexivity|].
  simpl repeat. simpl concat. rewrite <- IH.
  destruct n; simpl; [now rewrite app_nil_r | reflexivity].
Qed.

Lemma length_concat_repeat (x : jsstring) (n : nat) :
  length (concat (repeat x n)) = (n * length x)%nat.
Proof.
  induction n as [|n IH]; simpl; [reflexivity|].
  rewrite length_app, IH. reflexivity.
Qed.

(** [substring] from the start is [firstn], whatever the end index. *)
Lemma substring_from_0 (s : jsstring) (e : Z) :
  substring s 0 e = firstn (Z.to_nat e) s.
Proof.
  unfold substring, clamp.
  replace (Z.to_nat (Z.min (Z.max 0 0) (Z.of_nat (length s)))) with 0%nat by lia.
  rewrite Nat.min_0_l, Nat.max_0_l, Nat.sub_0_r. simpl skipn.
  destruct (Z_le_gt_dec e (Z.of_nat (length s))) as [H|H].
  - f_equal. lia.
  - replace (Z.to_nat (Z.min (Z.max e 0) (Z.of_nat (length s))))
      with (length s) by lia.
    rewrite firstn_all. symmetry. apply firstn_all2. lia.
Qed.

(** [substring] up to the length is [skipn], whatever the start index. *)
Lemma substring_to_end (s : jsstring) (a : Z) :
  substring s a (Z.of_nat (length s)) = skipn (Z.to_nat a) s.
Proof.
  unfold substring, clamp.
  replace (Z.to_nat (Z.min (Z.max (Z.of_nat (length s)) 0) (Z.of_nat (length s))))
    with (length s) by lia.
  set (k := Z.to_nat (Z.min (Z.max a 0) (Z.of_nat (length s)))).
  assert (Hk : (k <= length s)%nat) by (unfold k; lia).
  rewrite Nat.min_l, Nat.max_r by lia.
  rewrite firstn_all2 by (rewrite length_skipn; lia).
  destruct (Z_le_gt_dec a (Z.of_nat (length s))) as [H|H].
  - f_equal. unfold k. lia.
  - replace k with (length s) by (unfold k; lia).
    rewrite skipn_all. symmetry. apply skipn_all2. lia.
Qed.

End HostFacts.

(* ================================================================== *)
(** * padStart and padEnd *)
(* ================================================================== *)

Section Padding.

Variables (text : value) (addText : jsstring) (expectCount : Z).

Let len := Z.of_nat (length (ToString text)).

Hypothesis text_type : typeof text = TString \/ typeof text = TNumber.

Lemma pad_typeof_cases (A : Type) (k other : A) :
  match typeof text with
  | TString | TNumber => k
  | _ => other
  end = k.
Proof. destruct text_type as [H|H]; rewrite H; reflexivity. Qed.

(** A requested width below the length of the text makes [Array] throw:
    the truncation that follows it is never reached. *)
Lemma padStart_short : (expectCount < len)%Z ->
  padStart text addText expectCount = Throws RangeError.
Proof.
  intros H. unfold padStart. rewrite pad_typeof_cases.
  unfold Array_. fold len.
  replace (0 <=? expectCount - len)%Z with false by lia. reflexivity.
Qed.

Lemma padEnd_short : (expectCount < len)%Z ->
  padEnd text addText expectCount = Throws RangeError.
Proof.
  intros H. unfold padEnd. rewrite pad_typeof_cases.
  unfold Array_. fold len.
  replace (0 <=? expectCount - len)%Z with false by lia. reflexivity.
Qed.

Hypothesis addText_not_empty : addText <> [].
Hypothesis count_range : (len <= expectCount < len + 2 ^ 32)%Z.

Let n := Z.to_nat (expectCount - len).
Let adds := concat (repeat addText n).

Lemma Array_count : Array_ (expectCount - len) = Returns n.
Proof.
  unfold Array_.
  replace (0 <=? expectCount - len)%Z with true by lia.
  replace (expectCount - len <? 2 ^ 32)%Z with true by lia.
  reflexivity.
Qed.

Lemma adds_length : (Z.of_nat n <= Z.of_nat (length adds))%Z.
Proof.
  unfold adds. rewrite length_concat_repeat.
  destruct addText as [|c r]; [contradiction|]. simpl length. nia.
Qed.

Lemma padStart_value :
  padStart text addText expectCount
  = Returns (VStr (skipn (length adds - n) adds ++ ToString text)).
Proof.
  unfold padStart. rewrite pad_typeof_cases. fold len.
  rewrite Array_count. simpl bind. unfold Array_from_map.
  rewrite join_empty_repeat. fold adds.
  pose proof adds_length as Hl.
  rewrite length_app. fold len.
  destruct (expectCount <? Z.of_nat (length adds + length (ToString text)))%Z eqn:E.
  - rewrite <- (length_app adds (ToString text)), substring_to_end.
    rewrite length_app, skipn_app.
    replace (Z.to_nat (Z.of_nat (length adds + length (ToString text)) - expectCount))
      with (length adds - n)%nat by (unfold n, len; lia).
    replace (length adds - n - length adds)%nat with 0%nat by lia.
    reflexivity.
  - apply Z.ltb_ge in E.
    replace (length adds - n)%nat with 0%nat by (unfold n, len in *; lia).
    reflexivity.
Qed.

Lemma padEnd_value :
  padEnd text addText expectCount
  = Returns (VStr (ToString text ++ firstn n adds)).
Proof.
  unfold padEnd. rewrite pad_typeof_cases. fold len.
  rewrite Array_count. simpl bind. unfold Array_from_map.
  rewrite join_empty_repeat. fold adds.
  pose proof adds_length as Hl.
  rewrite length_app. fold len.
  destruct (expectCount <? Z.of_nat (length (ToString text) + length adds))%Z eqn:E.
  - rewrite substring_from_0, firstn_app.
    rewrite firstn_all2 by (unfold len in *; lia).
    replace (Z.to_nat expectCount - length (ToString text))%nat
      with n by (unfold n, len; lia).
    reflexivity.
  - apply Z.ltb_ge in E.
    rewrite firstn_all2 by (unfold n, len in *; lia).
    reflexivity.
Qed.

Lemma padded_length_start :
  Z.of_nat (length (skipn (length adds - n) adds ++ ToString text)) = expectCount.
Proof.
  pose proof adds_length.
  rewrite length_app, length_skipn. unfold n, len in *. lia.
Qed.

Lemma padded_length_end :
  Z.of_nat (length (ToString text ++ firstn n adds)) = expectCount.
Proof.
  pose proof adds_length.
  rewrite length_app, length_firstn. unfold n, len in *. lia.
Qed.

End Padding.

(** C1 (as amended).  For every string or number [text], every non-empty
    [addText] and every [expectCount] from the length of the text on (and
    less than 2^32 above it), [padStart] and [padEnd] return a string of
    exactly [expectCount] code units, with the text at its right end
    ([padStart]) or at its left end ([padEnd]); [padStart(5, "0", 3)] is
    ["005"] and [padEnd("ab", "-", 5)] is ["ab---"]. *)
Theorem pad_exact_length_anchored :
  (forall (text : value) (addText : jsstring) (expectCount : Z),
      typeof text = TString \/ typeof text = TNumber ->
      addText <> [] ->
      (Z.of_nat (length (ToString text)) <= expectCount
       < Z.of_nat (length (ToString text)) + 2 ^ 32)%Z ->
      (exists pre,
          padStart text addText expectCount
          = Returns (VStr (pre ++ ToString text))
          /\ Z.of_nat (length (pre ++ ToString text)) = expectCount)
      /\ (exists post,
             padEnd text addText expectCount
             = Returns (VStr (ToString text ++ post))
             /\ Z.of_nat (length (ToString text ++ post)) = expectCount))
  /\ padStart (VNum (Finite false 5 1)) (str "0") 3
     = Returns (VStr (str "005"))
  /\ padEnd (VStr (str "ab")) (str "-") 5 = Returns (VStr (str "ab---")).
Proof.
  split; [|split; reflexivity].
  intros text addText expectCount Hty Hadd Hrange. split.
  - eexists. split.
    + apply padStart_value; assumption.
    + apply padded_length_start; assumption.
  - eexists. split.
    + apply padEnd_value; assumption.
    + apply padded_length_end; assumption.
Qed.

Lemma pad_exact_length_anchored_witness :
  (exists pre,
      padStart (VStr (str "a")) (str "xy") 3
      = Returns (VStr (pre ++ ToString (VStr (str "a"))))
      /\ Z.of_nat (length (pre ++ ToString (VStr (str "a")))) = 3%Z)
  /\ (exists post,
         padEnd (VStr (str "a")) (str "xy") 3
         = Returns (VStr (ToString (VStr (str "a")) ++ post))
         /\ Z.of_nat (length (ToString (VStr (str "a")) ++ post)) = 3%Z).
Proof.
  apply (proj1 pad_exact_length_anchored (VStr (str "a")) (str "xy") 3%Z).
  - left. reflexivity.
  - discriminate.
  - simpl. lia.
Defined.

(** C1 (as stated) fails: with the empty [addText] nothing is added, and
    [padStart("a", "", 3)] is ["a"], of length 1 and not 3. *)
Lemma pad_empty_addText_counterexample :
  padStart (VStr (str "a")) [] 3 = Returns (VStr (str "a"))
  /\ padEnd (VStr (str "a")) [] 3 = Returns (VStr (str "a"))
  /\ Z.of_nat (length (str "a")) <> 3%Z.
Proof. repeat split. discriminate. Qed.

(** C2 (fails on the code).  [padStart("12345", "0", 3)] and
    [padEnd("12345", "0", 3)] throw a [RangeError]: [Array(3 - 5)] is
    evaluated before the truncating branch. *)
Theorem pad_short_width_throws :
  padStart (VStr (str "12345")) (str "0") 3 = Throws RangeError
  /\ padEnd (VStr (str "12345")) (str "0") 3 = Throws RangeError.
Proof. split; reflexivity. Qed.

(* ================================================================== *)
(** * toEllipsisMiddle and toEllipsisEnd *)
(* ================================================================== *)

Section Ellipsis.

Variables (max : Z) (alternative : jsstring).

Lemma toEllipsis_falsy (text : value) :
  ToBoolean text = false ->
  toEllipsisEnd text max alternative = VNull
  /\ toEllipsisMiddle text max alternative = text.
Proof.
  intros H. unfold toEllipsisEnd, toEllipsisMiddle. rewrite H. now split.
Qed.

Variable s : jsstring.
Hypothesis s_not_empty : s <> [].

Lemma truthy_string : ToBoolean (VStr s) = true.
Proof. destruct s; [contradiction | reflexivity]. Qed.

Lemma toEllipsis_long : (max < Z.of_nat (length s))%Z ->
  toEllipsisEnd (VStr s) max alternative
  = VStr (firstn (Z.to_nat max) s ++ alternative)
  /\ toEllipsisMiddle (VStr s) max alternative
     = VStr (firstn (Z.to_nat (max / 2)) s ++ alternative
               ++ lastn (Z.to_nat (max / 2)) s).
Proof.
  intros H. unfold toEllipsisEnd, toEllipsisMiddle.
  rewrite truthy_string. simpl negb. cbv iota. simpl ToString.
  apply Z.ltb_lt in H. rewrite H. split.
  - now rewrite substring_from_0.
  - rewrite substring_from_0, substring_to_end. unfold lastn.
    apply Z.ltb_lt in H.
    do 3 f_equal.
    destruct (Z_lt_ge_dec (max / 2) 0) as [Hn|Hp].
    + rewrite skipn_all2 by lia.
      replace (Z.to_nat (max / 2)) with 0%nat by lia.
      now rewrite Nat.sub_0_r, skipn_all.
    + f_equal. lia.
Qed.

Lemma toEllipsis_short : (Z.of_nat (length s) <= max)%Z ->
  toEllipsisEnd (VStr s) max alternative = VStr s
  /\ toEllipsisMiddle (VStr s) max alternative = VStr s.
Proof.
  intros H. unfold toEllipsisEnd, toEllipsisMiddle.
  rewrite truthy_string. simpl negb. cbv iota. simpl ToString.
  apply Z.ltb_ge in H. rewrite H. now split.
Qed.

End Ellipsis.

(** C8.  On a falsy [text], [toEllipsisEnd] returns [null] and
    [toEllipsisMiddle] returns [text] itself.  On a string longer than
    [max], [toEllipsisEnd] keeps the first [max] code units and appends
    [alternative], and [toEllipsisMiddle] keeps [floor(max / 2)] code units
    of each end, joined by [alternative].  On any other string both return
    the string. *)
Theorem toEllipsis_cases (text : value) (max : Z) (alternative : jsstring) :
  (ToBoolean text = false ->
   toEllipsisEnd text max alternative = VNull
   /\ toEllipsisMiddle text max alternative = text)
  /\ (forall s, text = VStr s -> s <> [] ->
        ((max < Z.of_nat (length s))%Z ->
         toEllipsisEnd text max alternative
         = VStr (firstn (Z.to_nat max) s ++ alternative)
         /\ toEllipsisMiddle text max alternative
            = VStr (firstn (Z.to_nat (max / 2)) s ++ alternative
                      ++ lastn (Z.to_nat (max / 2)) s))
        /\ ((Z.of_nat (length s) <= max)%Z ->
            toEllipsisEnd text max alternative = text
            /\ toEllipsisMiddle text max alternative = text)).
Proof.
  split.
  - apply toEllipsis_falsy.
  - intros s -> Hs. split.
    + now apply toEllipsis_long.
    + now apply toEllipsis_short.
Qed.

Lemma toEllipsis_cases_witness :
  (toEllipsisEnd (VStr []) 4 default_alternative = VNull
   /\ toEllipsisMiddle (VStr []) 4 default_alternative = VStr [])
  /\ (toEllipsisEnd (VStr (str "abcdefghij")) 4 default_alternative
      = VStr (str "abcd...")
      /\ toEllipsisMiddle (VStr (str "abcdefghij")) 4 default_alternative
         = VStr (str "ab...ij")).
Proof.
  split.
  - apply (proj1 (toEllipsis_cases (VStr []) 4 default_alternative)).
    reflexivity.
  - apply (proj1 (proj2 (toEllipsis_cases (VStr (str "abcdefghij")) 4
                           default_alternative)
                   (str "abcdefghij") eq_refl
                   ltac:(discriminate))).
    simpl. lia.
Defined.

(* ================================================================== *)
(** * escape *)
(* ================================================================== *)

Section Escape.

Lemma escape_scan (position : nat) (s : jsstring) :
  replace_scan entity_pattern
    (fun _ match_ _ =>
       if string_eqb match_ (str "<") then str "&lt;"
       else if string_eqb match_ (str ">") then str "&gt;"
       else if string_eqb match_ (str "&") then str "&amp;"
       else match_) 0 position s
  = flat_map escape_char s.
Proof.
  revert position. induction s as [|c s IH]; intros position.
  - reflexivity.
  - simpl replace_scan. simpl flat_map. unfold escape_char at 1.
    destruct (c =? 60)%N eqn:E1.
    { apply N.eqb_eq in E1. subst c. simpl. now rewrite IH. }
    destruct (c =? 62)%N eqn:E2.
    { apply N.eqb_eq in E2. subst c. simpl. now rewrite IH. }
    destruct (c =? 38)%N eqn:E3.
    { apply N.eqb_eq in E3. subst c. simpl. now rewrite IH. }
    simpl. now rewrite IH.
Qed.

Lemma escape_flat_map (text : jsstring) :
  escape text = flat_map escape_char text.
Proof. apply escape_scan. Qed.

Lemma escape_char_other (c : char) :
  is_entity_char c = false -> escape_char c = [c].
Proof.
  unfold is_entity_char, escape_char. intros H.
  apply orb_false_iff in H as [H H3]. apply orb_false_iff in H as [H1 H2].
  now rewrite H1, H2, H3.
Qed.

Lemma escape_char_entity (c : char) :
  is_entity_char c = true ->
  exists rest, escape_char c = 38%N :: rest /\ (3 <= length rest)%nat.
Proof.
  unfold is_entity_char, escape_char. intros H.
  destruct (c =? 60)%N; [eexists; split; [reflexivity | simpl; lia]|].
  destruct (c =? 62)%N; [eexists; split; [reflexivity | simpl; lia]|].
  destruct (c =? 38)%N; [eexists; split; [reflexivity | simpl; lia]|].
  discriminate.
Qed.

Lemma escape_length_le (s : jsstring) :
  (length s <= length (flat_map escape_char s))%nat.
Proof.
  induction s as [|c s IH]; simpl; [lia|].
  rewrite length_app.
  destruct (is_entity_char c) eqn:E.
  - destruct (escape_char_entity c E) as (r & -> & Hr). simpl. lia.
  - rewrite (escape_char_other c E). simpl. lia.
Qed.

Lemma escape_length_lt (s : jsstring) :
  existsb is_entity_char s = true ->
  (length s < length (flat_map escape_char s))%nat.
Proof.
  induction s as [|c s IH]; simpl; [discriminate|].
  intros H. rewrite length_app. pose proof (escape_length_le s).
  destruct (is_entity_char c) eqn:E.
  - destruct (escape_char_entity c E) as (r & -> & Hr). simpl. lia.
  - rewrite (escape_char_other c E). simpl in H.
    apply IH in H. simpl. lia.
Qed.

Lemma escape_keeps_entity (s : jsstring) :
  existsb is_entity_char s = true ->
  existsb is_entity_char (flat_map escape_char s) = true.
Proof.
  induction s as [|c s IH]; simpl; [discriminate|].
  intros H. rewrite existsb_app.
  destruct (is_entity_char c) eqn:E.
  - destruct (escape_char_entity c E) as (r & -> & Hr). reflexivity.
  - rewrite (escape_char_other c E). simpl in H.
    simpl. rewrite E. simpl. auto.
Qed.

End Escape.

(** C9.  [escape] is one pass over the text in which ["<"], [">"] and
    ["&"] become ["&lt;"], ["&gt;"] and ["&amp;"] and every other code
    unit stays; it is not idempotent: on a text that holds one of the
    three, escaping twice differs from escaping once. *)
Theorem escape_single_pass_not_idempotent :
  (forall text, escape text = flat_map escape_char text)
  /\ escape_char 60 = str "&lt;"
  /\ escape_char 62 = str "&gt;"
  /\ escape_char 38 = str "&amp;"
  /\ (forall c, c <> 60%N -> c <> 62%N -> c <> 38%N -> escape_char c = [c])
  /\ (forall x, existsb is_entity_char x = true ->
        escape (escape x) <> escape x).
Proof.
  split; [apply escape_flat_map|].
  do 3 (split; [reflexivity|]).
  split.
  - intros c H1 H2 H3. apply escape_char_other. unfold is_entity_char.
    apply N.eqb_neq in H1, H2, H3. now rewrite H1, H2, H3.
  - intros x Hx Heq. rewrite !escape_flat_map in Heq.
    pose proof (escape_length_lt _ (escape_keeps_entity x Hx)) as Hlt.
    rewrite Heq in Hlt. lia.
Qed.

Lemma escape_single_pass_not_idempotent_witness :
  escape (escape (str "<a & b>")) <> escape (str "<a & b>").
Proof.
  apply (proj2 (proj2 (proj2 (proj2 (proj2
           escape_single_pass_not_idempotent))))).
  reflexivity.
Defined.

Example escape_example : escape (str "<a & b>") = str "&lt;a &amp; b&gt;".
Proof. reflexivity. Qed.

(* ================================================================== *)
(** * The scan of a global replace *)
(* ================================================================== *)

Section ReplaceScan.

Variable m : matcher.
Variable f : nat -> jsstring -> list jsstring -> jsstring.

(** A replacement that does not look at the position makes the scan
    independent of it. *)
Hypothesis f_position : forall p q matched captures,
  f p matched captures = f q matched captures.

Lemma replace_scan_position (s : jsstring) : forall skip p q,
  replace_scan m f skip p s = replace_scan m f skip q s.
Proof.
  induction s as [|c s IH]; intros skip p q; simpl.
  - destruct skip; [|reflexivity].
    destruct (m []) as [[n captures]|]; [apply f_position | reflexivity].
  - destruct skip as [|k]; [|apply IH].
    destruct (m (c :: s)) as [[[|n] captures]|].
    + now rewrite (f_position p q), (IH 0%nat (S p) (S q)).
    + now rewrite (f_position p q), (IH n (S p) (S q)).
    + now rewrite (IH 0%nat (S p) (S q)).
Qed.

End ReplaceScan.

Lemma replace_scan_cons (m : matcher)
  (f : nat -> jsstring -> list jsstring -> jsstring) (p : nat) (c : char)
  (s : jsstring) :
  replace_scan m f 0 p (c :: s)
  = match m (c :: s) with
    | Some (O, captures) =>
        f p [] captures ++ c :: replace_scan m f 0 (S p) s
    | Some (S k, captures) =>
        f p (firstn (S k) (c :: s)) captures ++ replace_scan m f k (S p) s
    | None => c :: replace_scan m f 0 (S p) s
    end.
Proof. reflexivity. Qed.

Lemma replace_scan_skip (m : matcher)
  (f : nat -> jsstring -> list jsstring -> jsstring) (s : jsstring) :
  forall skip p, (skip <= length s)%nat ->
    replace_scan m f skip p s = replace_scan m f 0 (p + skip) (skipn skip s).
Proof.
  induction s as [|c s IH]; intros skip p H.
  - simpl in H. replace skip with 0%nat by lia. now rewrite Nat.add_0_r.
  - destruct skip as [|k].
    + now rewrite Nat.add_0_r.
    + simpl in H. simpl replace_scan at 1. simpl skipn.
      rewrite IH by lia. f_equal. lia.
Qed.

(* ================================================================== *)
(** * toCamelFromSnake and toCamelFromKebab *)
(* ================================================================== *)

Section Camel.

Variable sep : char.
Hypothesis sep_not_letter : is_ascii_letter sep = false.

Let callback (_1 : jsstring) : jsstring :=
  String_replace_empty (toUpperCase _1) [sep].

Lemma sep_upper : toUpperCase_char sep = sep.
Proof.
  unfold toUpperCase_char. unfold is_ascii_letter in sep_not_letter.
  apply orb_false_iff in sep_not_letter as [-> _]. reflexivity.
Qed.

Lemma callback_match (l : char) : callback [sep; l] = [toUpperCase_char l].
Proof.
  unfold callback. simpl. rewrite sep_upper.
  unfold char_eqb. now rewrite N.eqb_refl.
Qed.

Lemma camel_cons (c l : char) (rest : jsstring) :
  camel sep (c :: l :: rest)
  = if (c =? sep)%N && is_ascii_letter l
    then toUpperCase_char l :: camel sep rest
    else c :: camel sep (l :: rest).
Proof. reflexivity. Qed.

Lemma camel_scan_bounded (n : nat) : forall s p, (length s <= n)%nat ->
  replace_scan (camel_pattern sep) (fun _ matched _ => callback matched) 0 p s
  = camel sep s.
Proof.
  induction n as [|n IH]; intros s p H.
  - destruct s; [reflexivity | simpl in H; lia].
  - destruct s as [|c [|l rest]]; [reflexivity | reflexivity |].
    simpl in H. rewrite replace_scan_cons, camel_cons.
    unfold camel_pattern.
    destruct ((c =? sep)%N && is_ascii_letter l) eqn:E.
    + apply andb_true_iff in E as [Ec _]. apply N.eqb_eq in Ec. subst c.
      change (firstn 2 (sep :: l :: rest)) with [sep; l].
      rewrite callback_match. simpl. f_equal. apply IH. lia.
    + f_equal. apply IH. simpl. lia.
Qed.

Lemma camel_scan (s : jsstring) :
  RegExp_replace_fn (camel_pattern sep) callback s = camel sep s.
Proof. apply camel_scan_bounded with (n := length s). lia. Qed.

(** A separator and a letter are rewritten wherever they stand: the text
    before them is rewritten on its own, a match cannot end on the
    separator. *)
Lemma camel_app_bounded (n : nat) : forall before c after,
  (length before <= n)%nat ->
  camel sep (before ++ sep :: c :: after)
  = camel sep before ++ camel sep (sep :: c :: after).
Proof.
  induction n as [|n IH]; intros before c after H.
  - destruct before; [reflexivity | simpl in H; lia].
  - destruct before as [|b [|l rest]]; [reflexivity | |].
    + simpl. rewrite sep_not_letter, andb_false_r. reflexivity.
    + simpl in H. simpl app. rewrite !camel_cons.
      destruct ((b =? sep)%N && is_ascii_letter l).
      * simpl app. f_equal. apply IH. lia.
      * simpl app. f_equal. apply (IH (l :: rest)). simpl. lia.
Qed.

Lemma camel_letter (before after : jsstring) (l : char) :
  is_ascii_letter l = true ->
  camel sep (before ++ sep :: l :: after)
  = camel sep before ++ toUpperCase_char l :: camel sep after.
Proof.
  intros H. rewrite (camel_app_bounded (length before)) by lia.
  rewrite camel_cons. now rewrite N.eqb_refl, H.
Qed.

Lemma camel_other (before after : jsstring) (c : char) :
  is_ascii_letter c = false ->
  camel sep (before ++ sep :: c :: after)
  = camel sep before ++ sep :: camel sep (c :: after).
Proof.
  intros H. rewrite (camel_app_bounded (length before)) by lia.
  rewrite (camel_cons sep). now rewrite H, andb_false_r.
Qed.

End Camel.

Lemma toCamelFromSnake_camel (text : jsstring) :
  toCamelFromSnake text = camel 95 text.
Proof. now apply (@camel_scan 95%N). Qed.

Lemma toCamelFromKebab_camel (text : jsstring) :
  toCamelFromKebab text = camel 45 text.
Proof. now apply (@camel_scan 45%N). Qed.

(** C3 (as amended).  [toCamelFromSnake] and [toCamelFromKebab] rewrite
    every separator followed by an ASCII letter of either case: the
    separator goes and the letter is uppercased, so ["_A"] becomes ["A"].
    A separator followed by any other code unit, as in ["_1"], stays. *)
Theorem toCamel_letters_of_either_case (before after : jsstring) (c : char) :
  (is_ascii_letter c = true ->
   toCamelFromSnake (before ++ 95%N :: c :: after)
   = toCamelFromSnake before ++ toUpperCase_char c :: toCamelFromSnake after
   /\ toCamelFromKebab (before ++ 45%N :: c :: after)
      = toCamelFromKebab before ++ toUpperCase_char c :: toCamelFromKebab after)
  /\ (is_ascii_letter c = false ->
      toCamelFromSnake (before ++ 95%N :: c :: after)
      = toCamelFromSnake before ++ 95%N :: toCamelFromSnake (c :: after)
      /\ toCamelFromKebab (before ++ 45%N :: c :: after)
         = toCamelFromKebab before ++ 45%N :: toCamelFromKebab (c :: after))
  /\ toCamelFromSnake before = camel 95 before
  /\ toCamelFromKebab before = camel 45 before.
Proof.
  rewrite !toCamelFromSnake_camel, !toCamelFromKebab_camel.
  split; [|split; [|split; reflexivity]]; intros H; split.
  - now apply camel_letter.
  - now apply camel_letter.
  - now apply camel_other.
  - now apply camel_other.
Qed.

Lemma toCamel_letters_of_either_case_witness :
  (toCamelFromSnake (str "foo" ++ 95%N :: 66%N :: str "ar")
   = toCamelFromSnake (str "foo") ++ toUpperCase_char 66 :: toCamelFromSnake (str "ar")
   /\ toCamelFromKebab (str "foo" ++ 45%N :: 66%N :: str "ar")
      = toCamelFromKebab (str "foo") ++ toUpperCase_char 66
          :: toCamelFromKebab (str "ar"))
  /\ (toCamelFromSnake (str "v" ++ 95%N :: 49%N :: str "x")
      = toCamelFromSnake (str "v") ++ 95%N :: toCamelFromSnake (49%N :: str "x")
      /\ toCamelFromKebab (str "v" ++ 45%N :: 49%N :: str "x")
         = toCamelFromKebab (str "v") ++ 45%N
             :: toCamelFromKebab (49%N :: str "x")).
Proof.
  split.
  - apply (proj1 (toCamel_letters_of_either_case (str "foo") (str "ar") 66)).
    reflexivity.
  - apply (proj1 (proj2
             (toCamel_letters_of_either_case (str "v") (str "x") 49))).
    reflexivity.
Defined.

(** C3 (as stated) fails: the patterns carry the [i] flag, so ["_A"] is
    rewritten to ["A"] and ["-A"] likewise. *)
Lemma toCamel_uppercase_counterexample :
  toCamelFromSnake (str "_A") = str "A"
  /\ toCamelFromKebab (str "-A") = str "A"
  /\ toCamelFromSnake (str "_A") <> str "_A".
Proof. repeat split. discriminate. Qed.

Example toCamelFromSnake_example :
  toCamelFromSnake (str "foo_bar_baz") = str "fooBarBaz".
Proof. reflexivity. Qed.

Example toCamelFromKebab_example :
  toCamelFromKebab (str "foo-bar-baz") = str "fooBarBaz".
Proof. reflexivity. Qed.

Example toCamelFromSnake_digit :
  toCamelFromSnake (str "v_1") = str "v_1".
Proof. reflexivity. Qed.

(* ================================================================== *)
(** * split, join and replaceAll *)
(* ================================================================== *)

Section SplitJoin.

Lemma join_nil (l : list jsstring) : join [] l = concat l.
Proof.
  induction l as [|x l IH]; [reflexivity|].
  simpl concat. rewrite <- IH.
  destruct l; simpl; [now rewrite app_nil_r | reflexivity].
Qed.

Lemma take_while_skipn (p : char -> bool) (s : jsstring) :
  s = take_while p s ++ skipn (length (take_while p s)) s.
Proof.
  induction s as [|c s IH]; simpl; [reflexivity|].
  destruct (p c); simpl; [now f_equal | reflexivity].
Qed.

Lemma take_while_Forall (p : char -> bool) (s : jsstring) :
  Forall (fun c => p c = true) (take_while p s).
Proof.
  induction s as [|c s IH]; simpl; [constructor|].
  destruct (p c) eqn:E; [now constructor | constructor].
Qed.

Lemma take_while_stop (p : char -> bool) (s : jsstring) :
  match skipn (length (take_while p s)) s with
  | [] => True
  | c :: _ => p c = false
  end.
Proof.
  induction s as [|c s IH]; simpl; [exact I|].
  destruct (p c) eqn:E; simpl; assumption.
Qed.

Lemma drop_while_skipn (p : char -> bool) (s : jsstring) :
  drop_while p s = skipn (length (take_while p s)) s.
Proof.
  induction s as [|c s IH]; simpl; [reflexivity|].
  destruct (p c); simpl; [assumption | reflexivity].
Qed.

(** Splitting on one code unit and joining with nothing removes the code
    unit. *)
Lemma split_char_concat (t : char) (s : jsstring) :
  concat (split_scan [t] 0 s) = filter (fun c => negb (t =? c)%N) s.
Proof.
  induction s as [|c s IH]; [reflexivity|].
  simpl split_scan. unfold char_eqb. rewrite andb_true_r. simpl filter.
  destruct (t =? c)%N; simpl.
  - exact IH.
  - rewrite <- IH. destruct (split_scan [t] 0 s); reflexivity.
Qed.

Lemma replaceAll_char (t : char) (text : jsstring) :
  replaceAll text [t] [] = filter (fun c => negb (t =? c)%N) text.
Proof.
  unfold replaceAll. destruct text as [|c text]; [reflexivity|].
  cbn [ToBoolean negb]. unfold split.
  now rewrite join_nil, split_char_concat.
Qed.

End SplitJoin.

(* ================================================================== *)
(** * removeTag *)
(* ================================================================== *)

Section Tags.

Let strip (s : jsstring) : jsstring :=
  replace_scan tag_pattern (fun _ _ _ => []) 0 0 s.

Lemma removeTag_strip (tagText : jsstring) (removeTabSpace : bool) :
  removeTag tagText removeTabSpace
  = if removeTabSpace
    then filter (fun c => negb (9 =? c)%N) (strip tagText)
    else strip tagText.
Proof.
  unfold removeTag. destruct removeTabSpace; [|reflexivity].
  unfold tab. now rewrite replaceAll_char.
Qed.

Lemma strip_position (skip p : nat) (s : jsstring) :
  replace_scan tag_pattern (fun _ _ _ => []) skip p s
  = replace_scan tag_pattern (fun _ _ _ => []) skip 0 s.
Proof. now apply replace_scan_position. Qed.

(** What the pattern matches: a bracketed, non-empty body without a
    closing bracket. *)
Lemma tag_pattern_match (s : jsstring) (n : nat) (captures : list jsstring) :
  tag_pattern s = Some (n, captures) ->
  exists body rest,
    s = 60%N :: body ++ 62%N :: rest
    /\ body <> [] /\ Forall (fun c => c <> 62%N) body
    /\ n = S (S (length body)).
Proof.
  destruct s as [|c rest]; [discriminate|]. unfold tag_pattern.
  destruct (c =? 60)%N eqn:Ec; [|discriminate].
  apply N.eqb_eq in Ec. subst c.
  set (p := fun x => negb (x =? 62)%N).
  pose proof (take_while_skipn p rest) as Hsplit.
  pose proof (take_while_Forall p rest) as Hbody.
  destruct (take_while p rest) as [|b body] eqn:Eb; [discriminate|].
  destruct (skipn (length (b :: body)) rest) as [|g rest'] eqn:Er;
    [discriminate|].
  destruct (g =? 62)%N eqn:Eg; [|discriminate].
  apply N.eqb_eq in Eg. subst g. intros H. injection H as <- _.
  exists (b :: body), rest'. repeat split.
  - now rewrite Hsplit at 1.
  - discriminate.
  - eapply Forall_impl; [|exact Hbody]. unfold p. intros a Ha.
    apply negb_true_iff, N.eqb_neq in Ha. exact Ha.
Qed.

Lemma tag_pattern_other (c : char) (s : jsstring) :
  c <> 60%N -> tag_pattern (c :: s) = None.
Proof.
  intros H. unfold tag_pattern. apply N.eqb_neq in H. now rewrite H.
Qed.

Lemma strip_matched (body rest : jsstring) :
  replace_scan tag_pattern (fun _ _ _ => []) (S (length body)) 1
    (body ++ 62%N :: rest)
  = strip rest.
Proof.
  rewrite replace_scan_skip by (rewrite length_app; simpl; lia).
  rewrite strip_position.
  replace (S (length body)) with (length (body ++ [62%N]))
    by (rewrite length_app; simpl; lia).
  replace (body ++ 62%N :: rest) with ((body ++ [62%N]) ++ rest)
    by (now rewrite <- app_assoc).
  now rewrite skipn_app, skipn_all, Nat.sub_diag.
Qed.

Lemma strip_stripped_bounded (n : nat) : forall s, (length s <= n)%nat ->
  tag_stripped s (strip s).
Proof.
  induction n as [|n IH]; intros s H.
  - destruct s; [constructor | simpl in H; lia].
  - destruct s as [|c s]; [constructor|]. simpl in H.
    unfold strip. rewrite replace_scan_cons.
    destruct (tag_pattern (c :: s)) as [[k captures]|] eqn:E.
    + destruct (tag_pattern_match _ _ _ E) as (body & rest & Hs & Hb & Hf & ->).
      injection Hs as -> ->. rewrite strip_matched. simpl app.
      apply stripped_tag; [assumption | assumption |].
      apply IH. rewrite length_app in H. simpl in H. lia.
    + rewrite strip_position. apply stripped_keep. apply IH. lia.
Qed.

Lemma strip_stripped (s : jsstring) : tag_stripped s (strip s).
Proof. apply strip_stripped_bounded with (n := length s). lia. Qed.

(** The empty pair of brackets after a text without opening bracket. *)
Lemma strip_empty_brackets (before after : jsstring) :
  ~ In 60%N before ->
  strip (before ++ str "<>" ++ after) = before ++ str "<>" ++ strip after.
Proof.
  induction before as [|c before IH]; intros H.
  - unfold strip. simpl app. rewrite !replace_scan_cons. simpl.
    rewrite strip_position. reflexivity.
  - unfold strip. simpl app. rewrite replace_scan_cons.
    rewrite tag_pattern_other by (intros ->; apply H; now left).
    rewrite strip_position. f_equal. apply IH.
    intros Hin. apply H. now right.
Qed.

Lemma strip_plain (s : jsstring) : ~ In 60%N s -> strip s = s.
Proof.
  induction s as [|c s IH]; intros H; [reflexivity|].
  unfold strip. rewrite replace_scan_cons.
  rewrite tag_pattern_other by (intros ->; apply H; now left).
  rewrite strip_position. f_equal. apply IH.
  intros Hin. apply H. now right.
Qed.

Lemma removeTag_empty_brackets_after (before after : jsstring)
  (removeTabSpace : bool) :
  ~ In 60%N before ->
  removeTag (before ++ str "<>" ++ after) removeTabSpace
  = removeTag before removeTabSpace ++ str "<>"
      ++ removeTag after removeTabSpace.
Proof.
  intros H. rewrite !removeTag_strip, strip_empty_brackets by assumption.
  rewrite (strip_plain before H).
  destruct removeTabSpace; [|reflexivity].
  now rewrite !filter_app.
Qed.

Lemma removeTag_stripped (tagText : jsstring) :
  tag_stripped tagText (removeTag tagText false).
Proof. rewrite removeTag_strip. apply strip_stripped. Qed.

End Tags.

(** C10 (as amended).  [removeTag] removes bracketed substrings with at
    least one code unit between the brackets, and nothing else: its result
    without the tab removal is the text with some substrings taken out,
    each an opening bracket, a non-empty body without closing bracket and
    a closing bracket.  An occurrence of ["<>"] that no opening bracket
    precedes is left where it is. *)
Theorem removeTag_empty_brackets (before after : jsstring)
  (removeTabSpace : bool) :
  (~ In 60%N before ->
   removeTag (before ++ str "<>" ++ after) removeTabSpace
   = removeTag before removeTabSpace ++ str "<>"
       ++ removeTag after removeTabSpace)
  /\ tag_stripped after (removeTag after false).
Proof.
  split.
  - apply removeTag_empty_brackets_after.
  - apply removeTag_stripped.
Qed.

Lemma removeTag_empty_brackets_witness :
  removeTag (str "a" ++ str "<>" ++ str "<b>c") true
  = removeTag (str "a") true ++ str "<>" ++ removeTag (str "<b>c") true.
Proof.
  apply (proj1 (removeTag_empty_brackets (str "a") (str "<b>c") true)).
  simpl. intros [H|[]]. discriminate H.
Defined.

(** C10 (as stated) fails: in ["<<>"] the pattern matches from the first
    bracket on, and the ["<>"] inside goes with it. *)
Lemma removeTag_nested_counterexample :
  includes (str "<>") (str "<<>") = true
  /\ removeTag (str "<<>") true = []
  /\ includes (str "<>") (removeTag (str "<<>") true) = false.
Proof. repeat split. Qed.

Example removeTag_example :
  removeTag (str "<b>hello</b>" ++ tab ++ str "world") true
  = str "helloworld".
Proof. reflexivity. Qed.

Example removeTag_only_brackets : removeTag (str "<>") true = str "<>".
Proof. reflexivity. Qed.

(* ================================================================== *)
(** * replaceAll *)
(* ================================================================== *)

Section ReplaceAll.

Variable find : jsstring.
Hypothesis find_not_empty : find <> [].

Lemma split_scan_not_nil (skip : nat) (s : jsstring) :
  split_scan find skip s <> [].
Proof.
  revert skip. induction s as [|c s IH]; intros skip; simpl; [discriminate|].
  destruct skip; [|apply IH].
  destruct (starts_with find (c :: s)); [discriminate|].
  destruct (split_scan find 0 s); discriminate.
Qed.

Lemma split_scan_skip (s : jsstring) : forall skip,
  split_scan find skip s = split_scan find 0 (skipn skip s).
Proof.
  induction s as [|c s IH]; intros skip.
  - now rewrite skipn_nil.
  - destruct skip; [reflexivity|]. simpl. apply IH.
Qed.

Lemma starts_with_app (p s : jsstring) :
  starts_with p s = true -> s = p ++ skipn (length p) s.
Proof.
  revert s. induction p as [|x p IH]; intros s H; [reflexivity|].
  destruct s as [|y s]; [discriminate|]. simpl in H.
  apply andb_true_iff in H as [Hx Hp]. apply char_eqb_eq in Hx. subst y.
  simpl. f_equal. now apply IH.
Qed.

Lemma starts_with_prefix (p a b : jsstring) :
  starts_with p a = true -> starts_with p (a ++ b) = true.
Proof.
  revert a. induction p as [|x p IH]; intros a H; [reflexivity|].
  destruct a as [|y a]; [discriminate|]. simpl in *.
  apply andb_true_iff in H as [Hx Hp]. rewrite Hx. simpl. now apply IH.
Qed.

Lemma split_scan_found (s : jsstring) :
  starts_with find s = true ->
  split_scan find 0 s = [] :: split_scan find 0 (skipn (length find) s).
Proof.
  intros H. destruct s as [|c s].
  - destruct find; [contradiction | discriminate].
  - simpl split_scan. rewrite H. rewrite split_scan_skip.
    destruct find as [|x r]; [contradiction|]. simpl.
    now rewrite Nat.sub_0_r.
Qed.

Lemma split_scan_other (c : char) (s : jsstring) :
  starts_with find (c :: s) = false ->
  exists piece pieces,
    split_scan find 0 s = piece :: pieces
    /\ split_scan find 0 (c :: s) = (c :: piece) :: pieces.
Proof.
  intros H. simpl split_scan. rewrite H.
  destruct (split_scan find 0 s) as [|piece pieces] eqn:E.
  - now apply split_scan_not_nil in E.
  - now exists piece, pieces.
Qed.

Lemma join_cons (sep x : jsstring) (l : list jsstring) :
  l <> [] -> join sep (x :: l) = x ++ sep ++ join sep l.
Proof. destruct l; [contradiction | reflexivity]. Qed.

Lemma join_cons_head (sep : jsstring) (c : char) (x : jsstring)
  (l : list jsstring) :
  join sep ((c :: x) :: l) = c :: join sep (x :: l).
Proof. destruct l; reflexivity. Qed.

(** The pieces of a split, joined by the separator, are the text. *)
Lemma split_join_bounded (n : nat) : forall s, (length s <= n)%nat ->
  join find (split_scan find 0 s) = s.
Proof.
  induction n as [|n IH]; intros s H.
  - destruct s; [reflexivity | simpl in H; lia].
  - destruct s as [|c s]; [reflexivity|].
    destruct (starts_with find (c :: s)) eqn:E.
    + rewrite (split_scan_found _ E), join_cons by apply split_scan_not_nil.
      rewrite IH.
      * simpl. symmetry. now apply starts_with_app.
      * rewrite length_skipn. destruct find; [contradiction|].
        simpl in *. lia.
    + destruct (split_scan_other _ _ E) as (piece & pieces & E1 & ->).
      rewrite join_cons_head, <- E1, IH; [reflexivity | simpl in H; lia].
Qed.

Lemma split_join (s : jsstring) : join find (split_scan find 0 s) = s.
Proof. apply split_join_bounded with (n := length s). lia. Qed.

Lemma join_head_prefix (sep x : jsstring) (l : list jsstring) :
  exists rest, join sep (x :: l) = x ++ rest.
Proof.
  destruct l; simpl; [exists []; now rewrite app_nil_r | eauto].
Qed.

(** No piece of a split holds the separator. *)
Lemma split_pieces_bounded (n : nat) : forall s, (length s <= n)%nat ->
  Forall (fun piece => includes find piece = false) (split_scan find 0 s).
Proof.
  assert (Hnil : includes find [] = false).
  { destruct find; [contradiction | reflexivity]. }
  induction n as [|n IH]; intros s H.
  - destruct s; [repeat constructor; exact Hnil | simpl in H; lia].
  - destruct s as [|c s]; [repeat constructor; exact Hnil|].
    destruct (starts_with find (c :: s)) eqn:E.
    + rewrite (split_scan_found _ E). constructor; [exact Hnil|].
      apply IH. rewrite length_skipn. destruct find; [contradiction|].
      simpl in *. lia.
    + destruct (split_scan_other _ _ E) as (piece & pieces & E1 & ->).
      assert (Hs : Forall (fun piece => includes find piece = false)
                     (piece :: pieces)).
      { rewrite <- E1. apply IH. simpl in H. lia. }
      inversion Hs as [|? ? Hp Hps]; subst. constructor; [|assumption].
      simpl includes. rewrite Hp.
      destruct (starts_with find (c :: piece)) eqn:Ep; [|now destruct find].
      exfalso. destruct (join_head_prefix find piece pieces) as [rest Hr].
      rewrite <- E1, split_join in Hr. subst s.
      apply (starts_with_prefix _ (c :: piece) rest) in Ep.
      simpl app in Ep. congruence.
Qed.

Lemma split_pieces (s : jsstring) :
  Forall (fun piece => includes find piece = false) (split_scan find 0 s).
Proof. apply split_pieces_bounded with (n := length s). lia. Qed.

Lemma replaceAll_split (text replace : jsstring) :
  exists pieces,
    replaceAll text find replace = join replace pieces
    /\ join find pieces = text
    /\ Forall (fun piece => includes find piece = false) pieces.
Proof.
  destruct text as [|c text].
  - exists [[]]. repeat split. constructor; [|constructor].
    destruct find; [contradiction | reflexivity].
  - exists (split_scan find 0 (c :: text)). split; [|split].
    + unfold replaceAll, split. destruct find; [contradiction | reflexivity].
    + apply split_join.
    + apply split_pieces.
Qed.

End ReplaceAll.

Section ReplaceAllChar.

Variable c : char.

Lemma includes_char (s : jsstring) :
  includes [c] s = existsb (N.eqb c) s.
Proof.
  induction s as [|x s IH]; [reflexivity|].
  simpl. unfold char_eqb. now rewrite andb_true_r, <- IH.
Qed.

Lemma includes_char_join (replace : jsstring) (pieces : list jsstring) :
  includes [c] replace = false ->
  Forall (fun piece => includes [c] piece = false) pieces ->
  includes [c] (join replace pieces) = false.
Proof.
  intros Hr Hp. rewrite includes_char in *.
  induction Hp as [|x l Hx Hl IH]; [reflexivity|].
  rewrite includes_char in Hx.
  destruct l as [|y l]; [exact Hx|].
  rewrite join_cons by discriminate.
  now rewrite !existsb_app, Hx, Hr, IH.
Qed.

Lemma replaceAll_char_free (text replace : jsstring) :
  includes [c] replace = false ->
  includes [c] (replaceAll text [c] replace) = false.
Proof.
  intros Hr.
  assert (Hc : [c] <> []) by discriminate.
  destruct (replaceAll_split [c] Hc text replace) as (pieces & -> & _ & Hp).
  now apply includes_char_join.
Qed.

End ReplaceAllChar.

Lemma replaceAll_unchanged (text find replace : jsstring) :
  text = [] \/ find = [] -> replaceAll text find replace = text.
Proof.
  intros [-> | ->]; unfold replaceAll; [reflexivity|].
  now destruct text.
Qed.

Section PiecesBetween.

Variable find : jsstring.
Hypothesis find_not_empty : find <> [].

Lemma starts_with_self (p rest : jsstring) :
  starts_with p (p ++ rest) = true.
Proof.
  induction p as [|c p IH]; [reflexivity|].
  simpl. unfold char_eqb. now rewrite N.eqb_refl.
Qed.

Lemma includes_skipn (k : nat) : forall s,
  starts_with find (skipn k s) = true -> includes find s = true.
Proof.
  induction k as [|k IH]; intros s H.
  - rewrite skipn_O in H. destruct s; simpl includes; now rewrite H.
  - destruct s as [|c s].
    + simpl in H. simpl includes. now rewrite H.
    + simpl skipn in H. simpl includes. rewrite (IH s H).
      apply orb_true_r.
Qed.

Lemma occurs_after_piece (piece rest : jsstring) :
  starts_with find (skipn (length piece) (piece ++ find ++ rest)) = true.
Proof.
  rewrite skipn_app, skipn_all, Nat.sub_diag, skipn_O.
  rewrite app_nil_l. apply starts_with_self.
Qed.

Lemma includes_occurrence (piece rest : jsstring) :
  includes find (piece ++ find ++ rest) = true.
Proof.
  apply (includes_skipn (length piece)), occurs_after_piece.
Qed.

Lemma pieces_between_inv (text : jsstring) (pieces : list jsstring) :
  pieces_between find text pieces ->
  (pieces = [text] /\ includes find text = false)
  \/ exists piece rest others,
       text = piece ++ find ++ rest /\ pieces = piece :: others
       /\ (forall k, (k < length piece)%nat ->
             starts_with find (skipn k (piece ++ find ++ rest)) = false)
       /\ pieces_between find rest others.
Proof.
  intros H. destruct H as [text H | piece rest others H1 H2].
  - now left.
  - right. now exists piece, rest, others.
Qed.

Lemma pieces_between_cons (c : char) (s piece : jsstring)
  (pieces : list jsstring) :
  starts_with find (c :: s) = false ->
  pieces_between find s (piece :: pieces) ->
  pieces_between find (c :: s) ((c :: piece) :: pieces).
Proof.
  intros Hc H.
  destruct (pieces_between_inv _ _ H)
    as [[E Hno] | (p & rest & others & Hs & E & Hfirst & Hrest)].
  - injection E as -> ->. apply pieces_last.
    cbn [includes]. rewrite Hc. exact Hno.
  - injection E as -> ->. subst s.
    change (c :: p ++ find ++ rest) with ((c :: p) ++ find ++ rest).
    apply pieces_cut; [|exact Hrest].
    intros [|k] Hk.
    + rewrite skipn_O. exact Hc.
    + cbn [app skipn]. apply Hfirst. cbn [length] in Hk. lia.
Qed.

Lemma split_pieces_between_bounded (n : nat) : forall s,
  (length s <= n)%nat -> pieces_between find s (split_scan find 0 s).
Proof.
  assert (Hnil : pieces_between find [] (split_scan find 0 [])).
  { apply pieces_last. destruct find; [contradiction | reflexivity]. }
  induction n as [|n IH]; intros s Hn.
  - destruct s; [exact Hnil | simpl in Hn; lia].
  - destruct s as [|c s]; [exact Hnil|].
    destruct (starts_with find (c :: s)) eqn:E.
    + rewrite (split_scan_found find find_not_empty (c :: s) E).
      pose proof (starts_with_app find (c :: s) E) as Hs.
      remember (skipn (length find) (c :: s)) as rest eqn:Hrest.
      assert (Hl : (length rest <= n)%nat).
      { assert (Hlen : length (c :: s) = (length find + length rest)%nat)
          by (rewrite Hs at 1; apply length_app).
        cbn [length] in Hn, Hlen.
        destruct find; [contradiction | cbn [length] in Hlen; lia]. }
      rewrite Hs. change (find ++ rest) with ([] ++ find ++ rest).
      apply pieces_cut; [|now apply IH].
      intros k Hk. simpl in Hk. lia.
    + destruct (split_scan_other find c s E)
        as (piece & pieces & H1 & H2).
      rewrite H2. apply pieces_between_cons; [exact E|].
      rewrite <- H1. apply IH. cbn [length] in Hn. lia.
Qed.

Lemma split_pieces_between (s : jsstring) :
  pieces_between find s (split_scan find 0 s).
Proof. now apply split_pieces_between_bounded with (n := length s). Qed.

Lemma app_same_length (a a' b b' : jsstring) :
  length a = length a' -> a ++ b = a' ++ b' -> a = a' /\ b = b'.
Proof.
  revert a'. induction a as [|x a IH]; intros [|x' a'] Hl H;
    try discriminate Hl.
  - now split.
  - cbn [app] in H. injection H as -> H. injection Hl as Hl.
    destruct (IH a' Hl H) as [-> ->]. now split.
Qed.

Lemma pieces_between_unique (text : jsstring) (pieces : list jsstring) :
  pieces_between find text pieces ->
  forall others, pieces_between find text others -> others = pieces.
Proof.
  induction 1 as [text Hno | piece rest pieces Hfirst Hrest IH];
    intros others H2.
  - destruct (pieces_between_inv _ _ H2)
      as [[E _] | (p & rest & os & Hs & _)]; [exact E|].
    subst text. now rewrite includes_occurrence in Hno.
  - destruct (pieces_between_inv _ _ H2)
      as [[_ Hno] | (p & rest' & os & Hs & E & Hfirst' & Hrest')].
    + now rewrite includes_occurrence in Hno.
    + subst others.
      assert (Hl : length piece = length p).
      { destruct (Nat.lt_trichotomy (length piece) (length p))
          as [Hlt | [Heq | Hgt]]; [|exact Heq|].
        - specialize (Hfirst' _ Hlt). rewrite <- Hs in Hfirst'.
          now rewrite occurs_after_piece in Hfirst'.
        - specialize (Hfirst _ Hgt). rewrite Hs in Hfirst.
          now rewrite occurs_after_piece in Hfirst. }
      destruct (app_same_length _ _ _ _ Hl Hs) as [<- Hr].
      apply app_inv_head in Hr. subst rest'.
      f_equal. now apply IH.
Qed.

Lemma replaceAll_scan (text replace : jsstring) :
  replaceAll text find replace = join replace (split_scan find 0 text).
Proof.
  destruct text as [|c text]; [reflexivity|].
  unfold replaceAll, split. destruct find; [contradiction | reflexivity].
Qed.

End PiecesBetween.

(** C4 (as amended).  For a non-empty [find], [replaceAll(text, find, r)]
    replaces the occurrences of [find] met from left to right: it is the
    pieces of [text] between them joined by [r], each occurrence the first
    one that starts in what is left of the text, which fixes the pieces;
    [find] put back between the pieces gives [text], and no piece holds
    an occurrence of [find].  When [find] is one code unit that [r] does
    not hold, the result holds no occurrence of it.  When [text] or
    [find] is empty the result is [text]. *)
Theorem replaceAll_pieces (text find r : jsstring) :
  (find <> [] ->
   exists pieces,
     pieces_between find text pieces
     /\ (forall others, pieces_between find text others -> others = pieces)
     /\ replaceAll text find r = join r pieces
     /\ join find pieces = text
     /\ Forall (fun piece => includes find piece = false) pieces)
  /\ (forall c, find = [c] -> includes find r = false ->
        includes find (replaceAll text find r) = false)
  /\ (text = [] \/ find = [] -> replaceAll text find r = text).
Proof.
  split; [|split].
  - intros H. exists (split_scan find 0 text).
    split; [now apply split_pieces_between|].
    split; [exact (pieces_between_unique find text _
                     (split_pieces_between find H text))|].
    split; [now apply replaceAll_scan|].
    split; [now apply split_join | now apply split_pieces].
  - intros c -> H. now apply replaceAll_char_free.
  - apply replaceAll_unchanged.
Qed.

Lemma replaceAll_pieces_witness :
  (exists pieces,
      pieces_between (str "aa") (str "aaa") pieces
      /\ (forall others,
            pieces_between (str "aa") (str "aaa") others -> others = pieces)
      /\ replaceAll (str "aaa") (str "aa") (str "x") = join (str "x") pieces
      /\ join (str "aa") pieces = str "aaa"
      /\ Forall (fun piece => includes (str "aa") piece = false) pieces)
  /\ includes (str "-") (replaceAll (str "a-b-c") (str "-") (str "+")) = false
  /\ replaceAll (str "a-b-c") [] (str "+") = str "a-b-c".
Proof.
  split; [|split].
  - apply (proj1 (replaceAll_pieces (str "aaa") (str "aa") (str "x"))).
    discriminate.
  - apply (proj1 (proj2 (replaceAll_pieces (str "a-b-c") (str "-") (str "+")))
             45%N); reflexivity.
  - apply (proj2 (proj2 (replaceAll_pieces (str "a-b-c") [] (str "+")))).
    now right.
Defined.

Example replaceAll_overlap_example :
  replaceAll (str "aaa") (str "aa") (str "x") = str "xa"
  /\ pieces_between (str "aa") (str "aaa") [[]; str "a"]
  /\ ~ pieces_between (str "aa") (str "aaa") [str "a"; []].
Proof.
  assert (H : pieces_between (str "aa") (str "aaa") [[]; str "a"]).
  { change (str "aaa") with ([] ++ str "aa" ++ str "a").
    apply pieces_cut; [intros k Hk; simpl in Hk; lia|].
    now apply pieces_last. }
  split; [reflexivity | split; [exact H|]].
  intros H'.
  discriminate (pieces_between_unique (str "aa") _ _ H _ H').
Qed.

(** C4 (as stated) fails: ["ab"] is not empty and the empty replacement
    does not hold it, yet [replaceAll("aabb", "ab", "")] is ["ab"]: the
    code units around a replaced occurrence meet. *)
Lemma replaceAll_rejoin_counterexample :
  includes (str "ab") [] = false
  /\ replaceAll (str "aabb") (str "ab") [] = str "ab"
  /\ includes (str "ab") (replaceAll (str "aabb") (str "ab") []) = true.
Proof. repeat split. Qed.

(* ================================================================== *)
(** * toWordArray *)
(* ================================================================== *)

Section Words.

Let space := isWhiteSpace.
Let solid (c : char) := negb (isWhiteSpace c).

(** The word that starts after the white space at the head of [s], and
    the text after that word. *)
Let first_word (s : jsstring) := take_while solid (drop_while space s).
Let after_word (s : jsstring) := drop_while solid (drop_while space s).

Lemma drop_while_length (p : char -> bool) (s : jsstring) :
  (length (drop_while p s) <= length s)%nat.
Proof.
  induction s as [|c s IH]; simpl; [lia|]. destruct (p c); simpl; lia.
Qed.

Lemma take_drop_while (p : char -> bool) (s : jsstring) :
  take_while p s ++ drop_while p s = s.
Proof.
  induction s as [|c s IH]; simpl; [reflexivity|].
  destruct (p c); simpl; [now f_equal | reflexivity].
Qed.

Lemma drop_while_all (p : char -> bool) (a b : jsstring) :
  Forall (fun c => p c = true) a -> drop_while p (a ++ b) = drop_while p b.
Proof.
  induction 1 as [|c a Hc Ha IH]; simpl; [reflexivity|]. now rewrite Hc.
Qed.

Lemma drop_while_none (p : char -> bool) (s : jsstring) :
  match s with [] => True | c :: _ => p c = false end ->
  drop_while p s = s.
Proof. destruct s as [|c s]; simpl; [reflexivity|]. now intros ->. Qed.

Lemma after_word_length (s : jsstring) :
  first_word s <> [] -> (length (after_word s) < length s)%nat.
Proof.
  intros H. unfold after_word, first_word in *.
  pose proof (drop_while_length space s) as H1.
  pose proof (take_drop_while solid (drop_while space s)) as H2.
  apply (f_equal (@length _)) in H2. rewrite length_app in H2.
  destruct (take_while solid (drop_while space s)); [contradiction|].
  simpl in H2. lia.
Qed.

(** The pattern matches the white space and the word at the head. *)
Lemma word_pattern_match (s : jsstring) :
  exists n,
    word_pattern s = Some (n, [])
    /\ (n <= length s)%nat
    /\ firstn n s = take_while space s ++ first_word s
    /\ skipn n s = after_word s.
Proof.
  unfold word_pattern. eexists. split; [reflexivity|].
  unfold first_word, after_word, solid, space.
  rewrite <- drop_while_skipn, <- length_app.
  pose proof (take_drop_while isWhiteSpace s) as H1.
  pose proof (take_drop_while (fun c => negb (isWhiteSpace c))
                (drop_while isWhiteSpace s)) as H2.
  remember (take_while isWhiteSpace s) as a eqn:Ea.
  remember (take_while (fun c => negb (isWhiteSpace c))
              (drop_while isWhiteSpace s)) as w eqn:Ew.
  remember (drop_while (fun c => negb (isWhiteSpace c))
              (drop_while isWhiteSpace s)) as b eqn:Eb.
  assert (Hs : s = (a ++ w) ++ b) by (now rewrite <- app_assoc, H2, H1).
  clear Ea Ew Eb H1 H2. subst s. split; [|split].
  - rewrite (length_app (a ++ w) b). lia.
  - now rewrite firstn_app, firstn_all, Nat.sub_diag, firstn_O, app_nil_r.
  - now rewrite skipn_app, skipn_all, Nat.sub_diag.
Qed.

Lemma first_word_solid (s : jsstring) :
  Forall (fun c => isWhiteSpace c = false) (first_word s).
Proof.
  eapply Forall_impl; [|apply take_while_Forall].
  intros c H. now apply negb_true_iff in H.
Qed.

(** Trimming the match leaves the word. *)
Lemma trim_match (s : jsstring) :
  trim (take_while space s ++ first_word s) = first_word s.
Proof.
  unfold trim. fold space.
  rewrite drop_while_all by apply take_while_Forall.
  pose proof (first_word_solid s) as H.
  rewrite (drop_while_none space (first_word s)).
  - rewrite drop_while_none; [apply rev_involutive|].
    apply Forall_rev in H. destruct (rev (first_word s)); [exact I|].
    now inversion H.
  - destruct (first_word s); [exact I | now inversion H].
Qed.

Lemma exec_from_match (m : matcher) (index n : nat) (s : jsstring)
  (captures : list jsstring) :
  m s = Some (n, captures) ->
  exec_from m index s = Some (firstn n s, (index + n)%nat).
Proof. intros H. destruct s; simpl; now rewrite H. Qed.

Lemma exec0_at (text : jsstring) (lastIndex : nat) :
  (lastIndex <= length text)%nat ->
  exists lastIndex' matched,
    exec0 text lastIndex = Returns (matched, lastIndex')
    /\ trim matched = first_word (skipn lastIndex text)
    /\ (lastIndex' <= length text)%nat
    /\ skipn lastIndex' text = after_word (skipn lastIndex text).
Proof.
  intros H. unfold exec0, RegExp_exec.
  replace (length text <? lastIndex)%nat with false
    by (symmetry; apply Nat.ltb_ge; lia).
  destruct (word_pattern_match (skipn lastIndex text))
    as (n & Hm & Hn & Hf & Hs).
  assert (Hex : exec_from word_pattern lastIndex (skipn lastIndex text)
                = Some (firstn n (skipn lastIndex text), (lastIndex + n)%nat)).
  { now apply exec_from_match with (captures := []). }
  rewrite Hex. do 2 eexists. split; [reflexivity|].
  rewrite length_skipn in Hn. split; [|split].
  - rewrite Hf. apply trim_match.
  - lia.
  - rewrite <- Hs, skipn_skipn. f_equal. lia.
Qed.

(** The words of a text, one word at a time. *)
Lemma fields_space (a s : jsstring) :
  Forall (fun c => isWhiteSpace c = true) a ->
  words (a ++ s) = words s.
Proof.
  induction 1 as [|c a Hc Ha IH]; [reflexivity|].
  unfold words in *. cbn [fields app]. now rewrite Hc.
Qed.

Lemma fields_not_nil (p : char -> bool) (s : jsstring) : fields p s <> [].
Proof.
  induction s as [|c s IH]; simpl; [discriminate|].
  destruct (p c); [discriminate|]. destruct (fields p s); discriminate.
Qed.

Lemma fields_solid (w s : jsstring) :
  Forall (fun c => isWhiteSpace c = false) w ->
  match s with [] => True | c :: _ => isWhiteSpace c = true end ->
  fields isWhiteSpace (w ++ s)
  = w :: match s with [] => [] | _ :: s' => fields isWhiteSpace s' end.
Proof.
  intros Hw Hs. induction Hw as [|c w Hc Hw IH]; cbn [fields app].
  - destruct s as [|x s]; [reflexivity|]. cbn [fields]. now rewrite Hs.
  - now rewrite Hc, IH.
Qed.

Lemma words_solid (w s : jsstring) :
  w <> [] ->
  Forall (fun c => isWhiteSpace c = false) w ->
  match s with [] => True | c :: _ => isWhiteSpace c = true end ->
  words (w ++ s) = w :: words s.
Proof.
  intros Hn Hw Hs. unfold words. rewrite fields_solid by assumption.
  destruct w as [|x w]; [contradiction|]. simpl filter. f_equal.
  destruct s as [|c s]; [reflexivity|]. cbn [fields]. now rewrite Hs.
Qed.

Lemma words_step (s : jsstring) :
  words s
  = match first_word s with
    | [] => []
    | _ :: _ => first_word s :: words (after_word s)
    end.
Proof.
  pose proof (take_drop_while space s) as H1.
  pose proof (take_drop_while solid (drop_while space s)) as H2.
  fold (first_word s) in H2. fold (after_word s) in H2.
  rewrite <- H1 at 1.
  rewrite fields_space by apply take_while_Forall.
  rewrite <- H2 at 1.
  assert (Hstop : match after_word s with
                  | [] => True
                  | c :: _ => isWhiteSpace c = true
                  end).
  { unfold after_word. rewrite (drop_while_skipn solid).
    pose proof (take_while_stop solid (drop_while space s)) as Hst.
    destruct (skipn _ _); [exact I|]. now apply negb_false_iff in Hst. }
  destruct (first_word s) as [|c w] eqn:E.
  - simpl app. simpl in H2.
    assert (Hd : match drop_while space s with
                 | [] => True
                 | c :: _ => space c = false
                 end).
    { rewrite drop_while_skipn. apply take_while_stop. }
    rewrite <- H2 in Hd. destruct (after_word s) as [|c r]; [reflexivity|].
    unfold space in Hd. congruence.
  - rewrite <- E. apply words_solid; [congruence | apply first_word_solid
                                     | exact Hstop].
Qed.

Lemma toWordArray_loop_words (text : jsstring) : forall fuel lastIndex refine,
  (lastIndex <= length text)%nat ->
  (length (skipn lastIndex text) < fuel)%nat ->
  forall lastIndex' matched,
    exec0 text lastIndex = Returns (matched, lastIndex') ->
    toWordArray_loop fuel text lastIndex' (trim matched) refine
    = Some (Returns (refine ++ words (skipn lastIndex text))).
Proof.
  induction fuel as [|fuel IH]; intros lastIndex refine Hi Hfuel i' matched He;
    [lia|].
  destruct (exec0_at text lastIndex Hi) as (j & mt & He' & Ht & Hj & Hs).
  rewrite He in He'. injection He' as <- <-.
  rewrite (words_step (skipn lastIndex text)).
  simpl toWordArray_loop. rewrite Ht.
  destruct (first_word (skipn lastIndex text)) as [|c w] eqn:E.
  - simpl. now rewrite app_nil_r.
  - cbn [ToBoolean string_eqb].
    destruct (exec0_at text i' Hj) as (j2 & m2 & He2 & _).
    rewrite He2.
    assert (Hlt : (length (skipn i' text) < fuel)%nat).
    { rewrite Hs.
      assert (Hne : first_word (skipn lastIndex text) <> [])
        by (rewrite E; discriminate).
      pose proof (after_word_length _ Hne). lia. }
    rewrite (IH i' (refine ++ [c :: w]) Hj Hlt j2 m2 He2).
    rewrite Hs, <- app_assoc. reflexivity.
Qed.

Lemma toWordArray_words (text : jsstring) (fuel : nat) :
  (length text < fuel)%nat ->
  toWordArray fuel text = Some (Returns (words text)).
Proof.
  intros H. unfold toWordArray.
  destruct (exec0_at text 0 (Nat.le_0_l _)) as (j & mt & He & _).
  rewrite He.
  now rewrite (toWordArray_loop_words text fuel 0 [] (Nat.le_0_l _) H j mt He).
Qed.

Lemma fields_concat_solid (s : jsstring) :
  Forall (Forall (fun c => isWhiteSpace c = false)) (fields isWhiteSpace s).
Proof.
  induction s as [|c s IH]; simpl; [repeat constructor|].
  destruct (isWhiteSpace c) eqn:E; [now constructor|].
  destruct (fields isWhiteSpace s) as [|f fs]; [repeat constructor; exact E|].
  inversion IH; subst. constructor; [now constructor | assumption].
Qed.

Lemma words_solid_nonempty (s : jsstring) :
  Forall (fun w => w <> [] /\ Forall (fun c => isWhiteSpace c = false) w)
    (words s).
Proof.
  unfold words. pose proof (fields_concat_solid s) as H.
  induction H as [|f fs Hf Hfs IH]; simpl; [constructor|].
  destruct f; simpl; [assumption|].
  constructor; [split; [discriminate | assumption] | assumption].
Qed.

Lemma words_blank (s : jsstring) :
  forallb isWhiteSpace s = true -> words s = [].
Proof.
  intros H. rewrite <- (app_nil_r s).
  rewrite fields_space; [reflexivity|].
  apply Forall_forall. rewrite forallb_forall in H. exact H.
Qed.

End Words.

(** C5.  [toWordArray] ends within one iteration per code unit of the text
    and one more; it returns, without throwing, the words of the text: the
    non-empty runs of code units between white space, from left to right.
    No word is empty or holds white space, and a text of white space only
    has no word. *)
Theorem toWordArray_terminates_with_words (text : jsstring) (fuel : nat) :
  (length text < fuel)%nat ->
  toWordArray fuel text = Some (Returns (words text))
  /\ Forall (fun w => w <> [] /\ Forall (fun c => isWhiteSpace c = false) w)
       (words text)
  /\ (forallb isWhiteSpace text = true -> words text = []).
Proof.
  intros H. split; [|split].
  - now apply toWordArray_words.
  - apply words_solid_nonempty.
  - apply words_blank.
Qed.

Lemma toWordArray_terminates_with_words_witness :
  toWordArray 18 (str "  hello   world  ")
  = Some (Returns [str "hello"; str "world"])
  /\ toWordArray 5 (str "    ") = Some (Returns []).
Proof.
  split.
  - apply (proj1 (toWordArray_terminates_with_words
                    (str "  hello   world  ") 18 ltac:(simpl; lia))).
  - apply (proj1 (toWordArray_terminates_with_words
                    (str "    ") 5 ltac:(simpl; lia))).
Defined.

Example toWordArray_example :
  toWordArray 18 (str "  hello   world  ")
  = Some (Returns [str "hello"; str "world"]).
Proof. reflexivity. Qed.

Example toWordArray_blank : toWordArray 5 (str "    ") = Some (Returns []).
Proof. reflexivity. Qed.

(* ================================================================== *)
(** * Splitting on one code unit *)
(* ================================================================== *)

Section SplitChar.

Variable t : char.

Lemma split_char_cons (c : char) (s : jsstring) :
  split_scan [t] 0 (c :: s)
  = if (t =? c)%N then [] :: split_scan [t] 0 s
    else match split_scan [t] 0 s with
         | piece :: pieces => (c :: piece) :: pieces
         | [] => [[c]]
         end.
Proof.
  simpl split_scan. unfold char_eqb. now rewrite andb_true_r.
Qed.

Lemma split_char_free (x : jsstring) :
  ~ In t x -> split_scan [t] 0 x = [x].
Proof.
  induction x as [|c x IH]; intros H; [reflexivity|].
  rewrite split_char_cons.
  replace (t =? c)%N with false
    by (symmetry; apply N.eqb_neq; intros ->; apply H; now left).
  rewrite IH; [reflexivity|]. intros Hin. apply H. now right.
Qed.

Lemma split_char_app (x rest : jsstring) :
  ~ In t x ->
  split_scan [t] 0 (x ++ t :: rest) = x :: split_scan [t] 0 rest.
Proof.
  induction x as [|c x IH]; intros H.
  - simpl app. now rewrite split_char_cons, N.eqb_refl.
  - simpl app. rewrite split_char_cons.
    replace (t =? c)%N with false
      by (symmetry; apply N.eqb_neq; intros ->; apply H; now left).
    rewrite IH; [reflexivity|]. intros Hin. apply H. now right.
Qed.

Lemma includes_char_In (x : jsstring) :
  includes [t] x = false -> ~ In t x.
Proof.
  rewrite includes_char. intros H Hin.
  assert (existsb (N.eqb t) x = true).
  { apply existsb_exists. exists t. split; [assumption | apply N.eqb_refl]. }
  congruence.
Qed.

(** Joining lines and splitting again gives the lines back. *)
Lemma split_join_lines (lines : list jsstring) :
  lines <> [] ->
  Forall (fun line => ~ In t line) lines ->
  split_scan [t] 0 (join [t] lines) = lines.
Proof.
  intros Hne H. induction H as [|x l Hx Hl IH]; [contradiction|].
  destruct l as [|y l].
  - now apply split_char_free.
  - rewrite join_cons by discriminate. simpl app.
    rewrite split_char_app by assumption.
    f_equal. apply IH. discriminate.
Qed.

End SplitChar.

(* ================================================================== *)
(** * collapseMultiline *)
(* ================================================================== *)

Section Collapse.

Variable allow : Z.

Lemma non_space_test (line : jsstring) :
  RegExp_test non_space_pattern line = negb (is_blank line).
Proof.
  induction line as [|c line IH]; [reflexivity|].
  cbn [RegExp_test non_space_pattern is_blank forallb].
  destruct (isWhiteSpace c); simpl; [exact IH | reflexivity].
Qed.

Lemma collapse_fold (lines : list jsstring) : forall cnt refine,
  snd (fold_left (collapse_step allow) lines (cnt, refine))
  = refine ++ kept_lines allow cnt lines.
Proof.
  induction lines as [|line lines IH]; intros cnt refine.
  - simpl. now rewrite app_nil_r.
  - cbn [fold_left kept_lines]. unfold collapse_step at 2.
    rewrite non_space_test, negb_involutive.
    destruct (is_blank line).
    + destruct (cnt + 1 <? allow)%Z; rewrite IH; [|reflexivity].
      now rewrite <- app_assoc.
    + rewrite IH. now rewrite <- app_assoc.
Qed.

Lemma collapseMultiline_kept (text : jsstring) :
  collapseMultiline text allow
  = join newline (kept_lines allow 0 (split newline text)).
Proof. unfold collapseMultiline. now rewrite collapse_fold. Qed.

Lemma kept_subseq (lines : list jsstring) : forall cnt,
  subseq (kept_lines allow cnt lines) lines.
Proof.
  induction lines as [|line lines IH]; intros cnt; simpl; [constructor|].
  destruct (is_blank line); [destruct (cnt + 1 <? allow)%Z|]; now constructor.
Qed.

Lemma kept_solid (lines : list jsstring) : forall cnt,
  filter (fun line => negb (is_blank line)) (kept_lines allow cnt lines)
  = filter (fun line => negb (is_blank line)) lines.
Proof.
  induction lines as [|line lines IH]; intros cnt; simpl; [reflexivity|].
  destruct (is_blank line) eqn:E.
  - destruct (cnt + 1 <? allow)%Z; simpl; [rewrite E; simpl|]; apply IH.
  - simpl. rewrite E. simpl. f_equal. apply IH.
Qed.

(** The counter bounds the blank lines kept at the end so far. *)
Lemma kept_runs (lines : list jsstring) : forall cnt cur,
  (0 <= cnt)%Z -> (0 <= cur)%Z ->
  (cur <= Z.max 0 (Z.min cnt (allow - 1)))%Z ->
  runs_within (allow - 1) cur (kept_lines allow cnt lines).
Proof.
  induction lines as [|line lines IH]; intros cnt cur Hcnt Hcur H;
    [exact I|].
  cbn [kept_lines]. destruct (is_blank line) eqn:E.
  - destruct (cnt + 1 <? allow)%Z eqn:Ec.
    + apply Z.ltb_lt in Ec. cbn [runs_within]. rewrite E. split; [lia|].
      apply IH; lia.
    + apply Z.ltb_ge in Ec. apply IH; lia.
  - cbn [runs_within]. rewrite E. apply IH; lia.
Qed.

Lemma runs_within_run (b : Z) (run after : list jsstring) : forall cur,
  runs_within b cur (run ++ after) ->
  forallb is_blank run = true -> run <> [] ->
  (cur + Z.of_nat (length run) <= b)%Z.
Proof.
  induction run as [|line run IH]; intros cur H Hb Hne; [contradiction|].
  cbn [forallb] in Hb. apply andb_true_iff in Hb as [Hl Hr].
  cbn [app runs_within] in H. rewrite Hl in H. destruct H as [H1 H2].
  destruct run as [|line' run].
  - simpl. lia.
  - specialize (IH (cur + 1)%Z H2 Hr ltac:(discriminate)).
    cbn [length] in *. lia.
Qed.

Lemma runs_within_after (b : Z) (before rest : list jsstring) : forall cur,
  (0 <= cur)%Z -> runs_within b cur (before ++ rest) ->
  exists cur', (0 <= cur')%Z /\ runs_within b cur' rest.
Proof.
  induction before as [|line before IH]; intros cur Hcur H.
  - now exists cur.
  - cbn [app runs_within] in H. destruct (is_blank line).
    + destruct H as [_ H]. apply (IH (cur + 1)%Z); [lia | exact H].
    + apply (IH 0%Z); [lia | exact H].
Qed.

Lemma kept_run_length (lines before run after : list jsstring) :
  kept_lines allow 0 lines = before ++ run ++ after ->
  run <> [] -> forallb is_blank run = true ->
  (Z.of_nat (length run) <= allow - 1)%Z.
Proof.
  intros Hk Hne Hb.
  assert (H : runs_within (allow - 1) 0 (kept_lines allow 0 lines))
    by (apply kept_runs; lia).
  rewrite Hk in H.
  destruct (runs_within_after _ _ _ 0%Z ltac:(lia) H) as (cur & Hcur & Hr).
  pose proof (runs_within_run _ _ _ _ Hr Hb Hne). lia.
Qed.

Lemma subseq_Forall (A : Type) (P : A -> Prop) (l k : list A) :
  subseq l k -> Forall P k -> Forall P l.
Proof.
  induction 1 as [|x l k H IH|x l k H IH]; intros Hk.
  - constructor.
  - inversion Hk; subst. constructor; auto.
  - inversion Hk; subst. auto.
Qed.

(** When a line is kept, the lines of the result are the lines kept. *)
Lemma collapseMultiline_lines (text : jsstring) :
  kept_lines allow 0 (split newline text) <> [] ->
  split newline (collapseMultiline text allow)
  = kept_lines allow 0 (split newline text).
Proof.
  intros H. rewrite collapseMultiline_kept. unfold split, newline.
  apply split_join_lines; [exact H|].
  eapply subseq_Forall; [apply kept_subseq|].
  eapply Forall_impl; [|apply split_pieces; discriminate].
  intros line. apply includes_char_In.
Qed.

End Collapse.

Section CollapseRuns.

Variable allow : Z.

Lemma line_runs_cover (lines : list jsstring) :
  concat (map snd (line_runs lines)) = lines.
Proof.
  induction lines as [|line rest IH]; [reflexivity|].
  cbn [line_runs].
  destruct (line_runs rest) as [|[b run] runs]; [now subst rest|].
  destruct (Bool.eqb b (is_blank line)); cbn [map snd concat app];
    cbn [map snd concat] in IH; now rewrite IH.
Qed.

Lemma line_runs_uniform (lines : list jsstring) :
  Forall (fun r => snd r <> []
                   /\ Forall (fun line => is_blank line = fst r) (snd r))
    (line_runs lines).
Proof.
  induction lines as [|line rest IH]; [constructor|].
  cbn [line_runs].
  destruct (line_runs rest) as [|[b run] runs].
  - constructor; [|constructor]. cbn [fst snd].
    split; [discriminate | now constructor].
  - inversion IH as [|r rs [Hne Hrun] Hrs]; subst.
    cbn [fst snd] in Hne, Hrun.
    destruct (Bool.eqb b (is_blank line)) eqn:E.
    + apply Bool.eqb_prop in E. constructor; [|exact Hrs].
      cbn [fst snd]. split; [discriminate | now constructor].
    + constructor; [|exact IH]. cbn [fst snd].
      split; [discriminate | now constructor].
Qed.

Lemma line_runs_alternate (lines : list jsstring) :
  forall before a b after,
    line_runs lines = before ++ a :: b :: after -> fst a <> fst b.
Proof.
  induction lines as [|line rest IH]; intros before a b after H.
  - destruct before; discriminate H.
  - cbn [line_runs] in H.
    destruct (line_runs rest) as [|[f run] runs].
    + destruct before as [|x [|y before]]; discriminate H.
    + destruct (Bool.eqb f (is_blank line)) eqn:E.
      * destruct before as [|x before].
        -- cbn [app] in H. injection H as <- Hr.
           apply (IH [] (f, run) b after). now rewrite Hr.
        -- cbn [app] in H. injection H as _ Hr.
           apply (IH ((f, run) :: before) a b after). now rewrite Hr.
      * destruct before as [|x before].
        -- cbn [app] in H. injection H as <- <- _. cbn [fst].
           intros Hf. rewrite <- Hf, Bool.eqb_reflx in E. discriminate E.
        -- cbn [app] in H. injection H as _ Hr.
           now apply (IH before a b after).
Qed.

Lemma kept_from_runs (lines : list jsstring) : forall cnt,
  (0 <= cnt)%Z ->
  kept_lines allow cnt lines
  = match line_runs lines with
    | (true, run) :: runs =>
        firstn (Z.to_nat (allow - 1 - cnt)) run
          ++ flat_map (cut_run allow) runs
    | runs => flat_map (cut_run allow) runs
    end.
Proof.
  induction lines as [|line rest IH]; intros cnt Hc; [reflexivity|].
  cbn [kept_lines line_runs].
  destruct (is_blank line) eqn:E.
  - rewrite (IH (cnt + 1)%Z) by lia.
    destruct (Z.ltb_spec (cnt + 1) allow) as [Hlt | Hge].
    + replace (Z.to_nat (allow - 1 - cnt))
        with (S (Z.to_nat (allow - 1 - (cnt + 1)))) by lia.
      destruct (line_runs rest) as [|[[|] run] runs];
        cbn [Bool.eqb firstn app flat_map cut_run fst snd];
        rewrite ?firstn_nil; reflexivity.
    + replace (Z.to_nat (allow - 1 - cnt)) with 0%nat by lia.
      replace (Z.to_nat (allow - 1 - (cnt + 1))) with 0%nat by lia.
      destruct (line_runs rest) as [|[[|] run] runs]; reflexivity.
  - rewrite (IH 0%Z) by lia. rewrite Z.sub_0_r.
    destruct (line_runs rest) as [|[[|] run] runs]; reflexivity.
Qed.

Lemma kept_collapsed (lines : list jsstring) :
  kept_lines allow 0 lines = collapsed allow lines.
Proof.
  rewrite kept_from_runs by lia. unfold collapsed. rewrite Z.sub_0_r.
  destruct (line_runs lines) as [|[[|] run] runs]; reflexivity.
Qed.

Lemma filter_solid_none (lines : list jsstring) :
  filter (fun line => negb (is_blank line)) lines = [] ->
  forallb is_blank lines = true.
Proof.
  induction lines as [|line rest IH]; intros H; [reflexivity|].
  cbn [filter forallb] in *.
  destruct (is_blank line); [now apply IH | discriminate H].
Qed.

Lemma kept_none (text : jsstring) :
  kept_lines allow 0 (split newline text) = [] ->
  collapseMultiline text allow = []
  /\ forallb is_blank (split newline text) = true /\ (allow <= 1)%Z.
Proof.
  intros H. split; [|split].
  - now rewrite collapseMultiline_kept, H.
  - apply filter_solid_none. now rewrite <- (kept_solid allow _ 0%Z), H.
  - assert (Hb : forallb is_blank (split newline text) = true)
      by (apply filter_solid_none;
          now rewrite <- (kept_solid allow _ 0%Z), H).
    assert (Hne : split newline text <> [])
      by (apply split_scan_not_nil; discriminate).
    destruct (split newline text) as [|line rest]; [contradiction|].
    cbn [forallb] in Hb. apply andb_true_iff in Hb as [Hb _].
    cbn [kept_lines] in H. rewrite Hb in H.
    destruct (Z.ltb_spec (0 + 1) allow); [discriminate H | lia].
Qed.

End CollapseRuns.

(** C7 (as amended).  [collapseMultiline(text, allow)] is the lines it
    keeps joined by line feeds.  The lines kept are the lines of the text
    with every maximal run of consecutive blank lines cut to its first
    [allow - 1] lines: they are lines of the text in their order, all the
    lines that are not blank are among them, so that a line that is not
    blank starts the count of blank lines anew, and every run of
    consecutive blank lines among them is at most [allow - 1] lines long.
    Unless no line is kept, they are the lines of the result.  No line is
    kept only when every line is blank and [allow <= 1]; the result is
    then the empty string. *)
Theorem collapseMultiline_blank_runs (text : jsstring) (allow : Z) :
  exists kept,
    kept = collapsed allow (split newline text)
    /\ collapseMultiline text allow = join newline kept
    /\ subseq kept (split newline text)
    /\ filter (fun line => negb (is_blank line)) kept
       = filter (fun line => negb (is_blank line)) (split newline text)
    /\ (forall before run after,
           kept = before ++ run ++ after ->
           run <> [] -> forallb is_blank run = true ->
           (Z.of_nat (length run) <= allow - 1)%Z)
    /\ (kept <> [] -> split newline (collapseMultiline text allow) = kept)
    /\ (kept = [] ->
        collapseMultiline text allow = []
        /\ forallb is_blank (split newline text) = true
        /\ (allow <= 1)%Z).
Proof.
  exists (kept_lines allow 0 (split newline text)).
  split; [apply kept_collapsed|].
  split; [apply collapseMultiline_kept|].
  split; [apply kept_subseq|].
  split; [apply kept_solid|].
  split; [|split].
  - intros before run after. apply kept_run_length.
  - apply collapseMultiline_lines.
  - apply kept_none.
Qed.

Lemma collapseMultiline_blank_runs_witness :
  exists kept,
    kept
    = collapsed 2
        (split newline (str "a" ++ newline ++ newline ++ newline ++ str "b"))
    /\ collapseMultiline
         (str "a" ++ newline ++ newline ++ newline ++ str "b") 2
       = join newline kept
    /\ subseq kept
         (split newline
            (str "a" ++ newline ++ newline ++ newline ++ str "b"))
    /\ filter (fun line => negb (is_blank line)) kept
       = filter (fun line => negb (is_blank line))
           (split newline
              (str "a" ++ newline ++ newline ++ newline ++ str "b"))
    /\ (forall before run after,
           kept = before ++ run ++ after ->
           run <> [] -> forallb is_blank run = true ->
           (Z.of_nat (length run) <= 2 - 1)%Z)
    /\ (kept <> [] ->
        split newline
          (collapseMultiline
             (str "a" ++ newline ++ newline ++ newline ++ str "b") 2)
        = kept)
    /\ (kept = [] ->
        collapseMultiline
          (str "a" ++ newline ++ newline ++ newline ++ str "b") 2 = []
        /\ forallb is_blank
             (split newline
                (str "a" ++ newline ++ newline ++ newline ++ str "b"))
           = true
        /\ (2 <= 1)%Z).
Proof.
  exact (collapseMultiline_blank_runs
           (str "a" ++ newline ++ newline ++ newline ++ str "b") 2).
Defined.

(** C7 (as stated) fails when no line is kept: the three lines of two
    line feeds are blank, with [allow = 1] none of them is kept and the
    result is the empty string, which is one blank line, more than
    [allow - 1 = 0]. *)
Lemma collapseMultiline_empty_result_counterexample :
  collapseMultiline (newline ++ newline) 1 = []
  /\ exists before run after,
       split newline (collapseMultiline (newline ++ newline) 1)
       = before ++ run ++ after
       /\ run <> [] /\ forallb is_blank run = true
       /\ ~ (Z.of_nat (length run) <= 1 - 1)%Z.
Proof.
  split; [reflexivity|].
  exists [], [[]], []. split; [reflexivity|].
  split; [discriminate|]. split; [reflexivity|]. simpl. lia.
Qed.

Example collapseMultiline_reset_example :
  collapseMultiline
    (newline ++ newline ++ str "a" ++ newline ++ newline ++ newline
       ++ str "b") 2
  = newline ++ str "a" ++ newline ++ newline ++ str "b".
Proof. reflexivity. Qed.

Example collapseMultiline_example :
  collapseMultiline (str "a" ++ newline ++ newline ++ newline ++ newline
                       ++ str "b") 2
  = str "a" ++ newline ++ newline ++ str "b".
Proof. reflexivity. Qed.

(* ================================================================== *)
(** * toCurrencyFormat *)
(* ================================================================== *)

Section Thousands.

Variable r : jsstring.
Hypothesis r_plain : ~ In 36%N r.

Lemma GetSubstitution_plain (matched whole : jsstring) (position : nat)
  (captures : list jsstring) (template : jsstring) :
  ~ In 36%N template ->
  GetSubstitution matched whole position captures template = template.
Proof.
  induction template as [|c t IH]; intros H; [reflexivity|].
  cbn [GetSubstitution].
  replace (c =? 36)%N with false
    by (symmetry; apply N.eqb_neq; intros ->; apply H; now left).
  cbn [negb]. f_equal. apply IH. intros Hin. apply H. now right.
Qed.

Lemma GetSubstitution_matched (matched whole : jsstring) (position : nat)
  (captures : list jsstring) :
  GetSubstitution matched whole position captures (str "$&" ++ r)
  = matched ++ r.
Proof.
  change (str "$&" ++ r) with (36%N :: 38%N :: r).
  cbn [GetSubstitution N.eqb Pos.eqb negb]. f_equal.
  now apply GetSubstitution_plain.
Qed.

End Thousands.

Lemma replace_scan_ext (m : matcher)
  (f g : nat -> jsstring -> list jsstring -> jsstring) :
  (forall p matched captures, f p matched captures = g p matched captures) ->
  forall s skip p, replace_scan m f skip p s = replace_scan m g skip p s.
Proof.
  intros H. induction s as [|c s IH]; intros skip p; simpl.
  - destruct skip; [|reflexivity].
    destruct (m []) as [[n captures]|]; [apply H | reflexivity].
  - destruct skip as [|k]; [|apply IH].
    destruct (m (c :: s)) as [[[|n] captures]|]; now rewrite ?H, IH.
Qed.

Section Digits.

Lemma grouped_three (n : nat) :
  grouped (S (S (S n))) = (n mod 3 =? 0)%nat.
Proof.
  unfold grouped. cbn [Nat.ltb Nat.leb andb].
  replace (S (S (S n))) with (n + 1 * 3)%nat by lia.
  now rewrite Nat.Div0.mod_add.
Qed.

Lemma digit_not_point (c : char) : is_digit c = true -> (46 =? c)%N = false.
Proof.
  unfold is_digit. intros H. apply andb_true_iff in H as [H _].
  apply N.leb_le in H. apply N.eqb_neq. lia.
Qed.

(** The lookahead of the pattern succeeds on the digits before the point
    exactly when they come in groups of three. *)
Lemma digit_groups_grouped (n : nat) : forall digits t,
  (length digits <= n)%nat ->
  Forall (fun c => is_digit c = true) digits ->
  if grouped (length digits)
  then exists g, digit_groups (digits ++ 46%N :: t) = Some g
  else digit_groups (digits ++ 46%N :: t) = None.
Proof.
  induction n as [|n IH]; intros digits t Hn Hd.
  - destruct digits; [|simpl in Hn; lia].
    destruct t as [|b [|c t]]; reflexivity.
  - destruct digits as [|a [|b [|c rest]]].
    + destruct t as [|b [|c t]]; reflexivity.
    + destruct t as [|c t]; [reflexivity|]. cbn [length grouped app].
      simpl. now rewrite andb_false_r.
    + simpl. now rewrite andb_false_r.
    + inversion Hd as [|? ? Ha Hd1]; subst.
      inversion Hd1 as [|? ? Hb Hd2]; subst.
      inversion Hd2 as [|? ? Hc Hd3]; subst.
      cbn [length]. rewrite grouped_three.
      cbn [app digit_groups]. rewrite Ha, Hb, Hc. cbn [andb].
      simpl in Hn.
      specialize (IH rest t ltac:(lia) Hd3).
      destruct (grouped (length rest)) eqn:E.
      * destruct IH as [g ->].
        unfold grouped in E. apply andb_true_iff in E as [_ E].
        rewrite E. now exists g.
      * rewrite IH. destruct rest as [|x rest].
        -- simpl. eauto.
        -- inversion Hd3; subst. cbn [app starts_with str].
           change (starts_with (str ".") (x :: rest ++ 46%N :: t))
             with (char_eqb 46 x && true).
           unfold char_eqb. rewrite digit_not_point by assumption.
           cbn [andb]. unfold grouped in E. cbn [length Nat.ltb Nat.leb andb] in E.
           cbn [length]. now rewrite E.
Qed.

Variable r : jsstring.

Lemma thousands_scan (digits : jsstring) :
  Forall (fun c => is_digit c = true) digits ->
  forall p,
    replace_scan thousands_pattern (fun _ matched _ => matched ++ r) 0 p
      (digits ++ str ".0")
    = group3 r digits ++ str ".0".
Proof.
  induction 1 as [|d digits Hd Hds IH]; intros p; [reflexivity|].
  cbn [app]. rewrite replace_scan_cons. unfold thousands_pattern at 1.
  rewrite Hd. cbn [group3].
  pose proof (digit_groups_grouped (length digits) digits [48%N]
                (Nat.le_refl _) Hds) as Hg.
  change (digits ++ 46%N :: [48%N]) with (digits ++ str ".0") in Hg.
  destruct (grouped (length digits)).
  - destruct Hg as [g ->]. cbn [firstn app].
    rewrite (IH (S p)). now rewrite <- app_assoc.
  - rewrite Hg. now rewrite (IH (S p)).
Qed.

Lemma thousands_scan_signed (neg : bool) (digits : jsstring) :
  Forall (fun c => is_digit c = true) digits ->
  replace_scan thousands_pattern (fun _ matched _ => matched ++ r) 0 0
    (sign_text neg ++ digits ++ str ".0")
  = sign_text neg ++ group3 r digits ++ str ".0".
Proof.
  intros H. destruct neg; [|now apply thousands_scan].
  cbn [sign_text str app]. simpl app.
  rewrite replace_scan_cons. unfold thousands_pattern at 1.
  change (is_digit 45) with false. cbv iota.
  now rewrite thousands_scan.
Qed.

End Digits.

Section NumberConversions.

Lemma parse_uint_chars (d : uint) : parse_uint (uint_chars d) = Some d.
Proof. induction d; simpl; [reflexivity | now rewrite IHd ..]. Qed.

Lemma uint_chars_digits (d : uint) :
  Forall (fun c => is_digit c = true) (uint_chars d).
Proof. induction d; simpl; now constructor. Qed.

Lemma N_to_string_digits (v : N) :
  Forall (fun c => is_digit c = true) (N_to_string v).
Proof. apply uint_chars_digits. Qed.

Lemma N_to_string_cons (v : N) :
  exists c rest, N_to_string v = c :: rest /\ is_digit c = true.
Proof.
  pose proof (N_to_string_digits v) as H. unfold N_to_string in *.
  assert (Hn : N.to_uint v <> Nil).
  { destruct v; [discriminate | apply DecimalPos.Unsigned.to_uint_nonnil]. }
  destruct (N.to_uint v); [contradiction | ..];
    simpl; do 2 eexists; split; reflexivity.
Qed.

(** [Number] and [toFixed(1)] on an integer literal without leading
    zeros and up to 2^53. *)
Lemma Number_plain (neg : bool) (v : N) :
  (v <= MAX_EXACT)%N -> (neg = true -> v <> 0%N) ->
  exists x,
    Number_of_string (sign_text neg ++ N_to_string v) = Some x
    /\ Number_toFixed1 x
       = Some (sign_text neg ++ N_to_string v ++ str ".0").
Proof.
  intros Hv Hneg.
  destruct (N_to_string_cons v) as (c & rest & Hs & Hc).
  assert (Hd : Number_of_string (sign_text neg ++ N_to_string v)
               = Number_of_digits neg (N_to_string v)).
  { destruct neg; [reflexivity|]. cbn [sign_text app]. rewrite Hs.
    unfold Number_of_string. unfold is_digit in Hc.
    apply andb_true_iff in Hc as [Hc _]. apply N.leb_le in Hc.
    replace (c =? 45)%N with false by (symmetry; apply N.eqb_neq; lia).
    replace (c =? 43)%N with false by (symmetry; apply N.eqb_neq; lia).
    reflexivity. }
  rewrite Hd. unfold Number_of_digits. rewrite Hs, <- Hs.
  unfold N_to_string at 1. rewrite parse_uint_chars.
  rewrite DecimalN.Unsigned.of_to.
  destruct v as [|m].
  - destruct neg; [now contradiction Hneg|]. eexists. split; reflexivity.
  - apply N.leb_le in Hv. rewrite Hv. eexists. split; [reflexivity|].
    unfold Number_toFixed1. rewrite Z.leb_refl, Z.sub_diag.
    cbn [Z.to_N N.pow]. rewrite N.mul_1_r, Hv. cbn [andb].
    unfold zeros. reflexivity.
Qed.

Lemma point_test (s : jsstring) :
  RegExp_test point_pattern s = existsb (N.eqb 46) s.
Proof.
  induction s as [|c s IH]; [reflexivity|].
  cbn [RegExp_test existsb]. unfold point_pattern at 1.
  change (starts_with (str ".") (c :: s)) with (char_eqb 46 c && true).
  unfold char_eqb. rewrite andb_true_r.
  destruct (46 =? c)%N; [reflexivity | exact IH].
Qed.

Lemma plain_no_point (neg : bool) (v : N) :
  ~ In 46%N (sign_text neg ++ N_to_string v).
Proof.
  intros H. apply in_app_or in H as [H|H].
  - destruct neg; simpl in H; [destruct H as [H|[]]; discriminate | exact H].
  - pose proof (N_to_string_digits v) as Hd.
    rewrite Forall_forall in Hd. apply Hd in H. discriminate H.
Qed.

Lemma existsb_none (c : char) (s : jsstring) :
  ~ In c s -> existsb (N.eqb c) s = false.
Proof.
  intros H. destruct (existsb (N.eqb c) s) eqn:E; [|reflexivity].
  apply existsb_exists in E as (x & Hx & Ex). apply N.eqb_eq in Ex.
  subst x. contradiction.
Qed.

Lemma fraction_digits_length (fraction : jsstring) (fixed : Z) :
  (0 < fixed)%Z ->
  Z.of_nat (length (fraction_digits fraction fixed)) = fixed.
Proof.
  intros H. unfold fraction_digits.
  destruct (Z.of_nat (length fraction) <? fixed)%Z eqn:E.
  - apply Z.ltb_lt in E. unfold zeros.
    rewrite length_app, repeat_length. lia.
  - apply Z.ltb_ge in E. rewrite length_firstn. lia.
Qed.

End NumberConversions.

Section Currency.

Variable isNumber : value -> bool.
Variables (price : value) (options : CurrencyPriceOption).

Let fixed_ : Z := match fixed options with Some f => f | None => 0%Z end.
Let r : jsstring :=
  match replaceChar options with Some x => x | None => str "," end.

Lemma toCurrencyFormat_not_number :
  isNumber price = false ->
  toCurrencyFormat isNumber price options = Some (Returns (ToString price)).
Proof. intros H. unfold toCurrencyFormat. now rewrite H. Qed.

Variables (neg : bool) (v : N) (fraction : option jsstring).

Hypothesis price_number : isNumber price = true.
Hypothesis price_text :
  ToString price = sign_text neg ++ N_to_string v ++ fraction_text fraction.
Hypothesis whole_exact : (v <= 2 ^ 53)%N.
Hypothesis sign_kept : neg = true -> v <> 0%N.
Hypothesis one_point : forall f, fraction = Some f -> ~ In 46%N f.
Hypothesis r_plain : ~ In 36%N r.
Hypothesis fixed_small : (fixed_ < 2 ^ 32)%Z.

Let decimal : jsstring := match fraction with Some f => f | None => [] end.

Lemma price_splits :
  split (str ".") (ToString price)
  = (sign_text neg ++ N_to_string v)
      :: match fraction with Some f => [f] | None => [] end.
Proof.
  rewrite price_text, app_assoc. unfold fraction_text.
  change (str ".") with [46%N]. unfold split.
  destruct fraction as [f|].
  - change ([46%N] ++ f) with (46%N :: f).
    rewrite split_char_app by apply plain_no_point.
    rewrite split_char_free by now apply one_point. reflexivity.
  - rewrite app_nil_r. apply split_char_free, plain_no_point.
Qed.

Lemma price_has_point :
  RegExp_test point_pattern (ToString price)
  = match fraction with Some _ => true | None => false end.
Proof.
  rewrite point_test, price_text, app_assoc, existsb_app.
  rewrite existsb_none by apply plain_no_point.
  destruct fraction; reflexivity.
Qed.

Lemma strip_point_zero (x : jsstring) :
  substring (x ++ str ".0") 0 (Z.of_nat (length (x ++ str ".0")) - 2) = x.
Proof.
  rewrite substring_from_0, length_app.
  replace (Z.to_nat (Z.of_nat (length x + length (str ".0")) - 2))
    with (length x) by (simpl; lia).
  now rewrite firstn_app, firstn_all, Nat.sub_diag, firstn_O, app_nil_r.
Qed.

Lemma price_normal :
  substring
    (RegExp_replace thousands_pattern (str "$&" ++ r)
       (sign_text neg ++ N_to_string v ++ str ".0"))
    0
    (Z.of_nat
       (length
          (RegExp_replace thousands_pattern (str "$&" ++ r)
             (sign_text neg ++ N_to_string v ++ str ".0"))) - 2)
  = sign_text neg ++ group3 r (N_to_string v).
Proof.
  unfold RegExp_replace.
  rewrite (replace_scan_ext thousands_pattern _
             (fun _ matched _ => matched ++ r))
    by (intros; now apply GetSubstitution_matched).
  rewrite thousands_scan_signed by apply N_to_string_digits.
  rewrite !app_assoc. rewrite strip_point_zero. reflexivity.
Qed.

Lemma toCurrencyFormat_number :
  toCurrencyFormat isNumber price options
  = Some (Returns
            (sign_text neg ++ group3 r (N_to_string v)
               ++ (if (0 <? fixed_)%Z
                   then str "." ++ fraction_digits decimal fixed_
                   else fraction_text fraction))).
Proof.
  unfold toCurrencyFormat. rewrite price_number. cbn [negb]. cbv zeta.
  fold fixed_. fold r.
  rewrite price_has_point, price_splits. cbn [nth].
  destruct (Number_plain neg v whole_exact sign_kept) as (x & -> & ->).
  rewrite price_normal.
  replace (if match fraction with Some _ => true | None => false end
           then nth 0 match fraction with Some f => [f] | None => [] end []
           else [])
    with decimal by (unfold decimal; now destruct fraction).
  destruct (0 <? fixed_)%Z eqn:Ef.
  - unfold fraction_digits.
    destruct (Z.of_nat (length decimal) <? fixed_)%Z eqn:El.
    + apply Z.ltb_lt in El. unfold Array_.
      replace (0 <=? fixed_ - Z.of_nat (length decimal))%Z with true by lia.
      replace (fixed_ - Z.of_nat (length decimal) <? 2 ^ 32)%Z
        with true by lia.
      cbn [andb]. unfold Array_from_map. rewrite join_empty_repeat.
      do 2 f_equal. rewrite <- !app_assoc. do 4 f_equal.
      unfold zeros. generalize (Z.to_nat (fixed_ - Z.of_nat (length decimal))).
      intros n. induction n as [|n IH]; [reflexivity|]. simpl. now rewrite IH.
    + rewrite substring_from_0. now rewrite <- !app_assoc.
  - rewrite <- !app_assoc.
    destruct fraction as [f|]; cbn [fraction_text]; [reflexivity|].
    now rewrite !app_nil_r.
Qed.

End Currency.

(** C6 (as amended).  A price that is not numeric comes back as its
    string form.  For a numeric price whose string form is plain decimal
    notation (an optional minus sign, integer digits without leading zeros
    of a value up to 2^53 and not zero under a minus sign, and optionally a
    point and a fractional part that holds no further point), a
    [replaceChar] without ["$"] and a [fixed] below 2^32, the result is
    the sign, the integer digits with [replaceChar] between the groups of
    three digits counted from the right, and then: for [fixed > 0], a point
    and the fractional part padded with zeros or cut to exactly [fixed]
    code units; otherwise the point and the fractional part as they are,
    exactly when the string form holds a point. *)
Theorem toCurrencyFormat_plain_decimal (isNumber : value -> bool)
  (price : value) (options : CurrencyPriceOption)
  (neg : bool) (v : N) (fraction : option jsstring) :
  let fixed_ := match fixed options with Some f => f | None => 0%Z end in
  let r := match replaceChar options with Some x => x | None => str "," end in
  let decimal := match fraction with Some f => f | None => [] end in
  (isNumber price = false ->
   toCurrencyFormat isNumber price options = Some (Returns (ToString price)))
  /\ (isNumber price = true ->
      ToString price
      = sign_text neg ++ N_to_string v ++ fraction_text fraction ->
      (v <= 2 ^ 53)%N -> (neg = true -> v <> 0%N) ->
      (forall f, fraction = Some f -> ~ In 46%N f) ->
      ~ In 36%N r -> (fixed_ < 2 ^ 32)%Z ->
      toCurrencyFormat isNumber price options
      = Some (Returns
                (sign_text neg ++ group3 r (N_to_string v)
                   ++ (if (0 <? fixed_)%Z
                       then str "." ++ fraction_digits decimal fixed_
                       else fraction_text fraction)))
      /\ ((0 < fixed_)%Z ->
          Z.of_nat (length (fraction_digits decimal fixed_)) = fixed_)).
Proof.
  intros fixed_ r decimal. split.
  - apply toCurrencyFormat_not_number.
  - intros H1 H2 H3 H4 H5 H6 H7. split.
    + now apply toCurrencyFormat_number.
    + apply fraction_digits_length.
Qed.

Lemma toCurrencyFormat_plain_decimal_witness :
  toCurrencyFormat isNumber_spec (VNum (Finite false 12345 4))
    {| fixed := Some 2%Z; replaceChar := None |}
  = Some (Returns (str "1,234.50"))
  /\ Z.of_nat (length (fraction_digits (str "5") 2)) = 2%Z.
Proof.
  assert (H : (1234 <= 2 ^ 53)%N) by (apply N.leb_le; reflexivity).
  destruct (proj2 (toCurrencyFormat_plain_decimal isNumber_spec
                     (VNum (Finite false 12345 4))
                     {| fixed := Some 2%Z; replaceChar := None |}
                     false 1234 (Some (str "5")))
              eq_refl eq_refl H
              ltac:(discriminate)
              ltac:(intros f Hf; injection Hf as <-; simpl;
                    intros [Hp|[]]; discriminate Hp)
              ltac:(simpl; intros [Hp|[]]; discriminate Hp)
              ltac:(simpl; lia))
    as [Hv Hl].
  split.
  - exact Hv.
  - apply Hl. simpl. lia.
Defined.

(** C6 (as stated) fails.  The number 1.5e-7 has the string form
    ["1.5e-7"]: with [fixed = 3] the result is ["1.5e-"], whose part after
    the point is not three digits.  And [replaceChar] is read as a
    replacement template: with ["$&"] the price 1000 gives ["11000"], the
    digit again in place of the separator. *)
Lemma toCurrencyFormat_exponent_counterexample :
  isNumber_spec (VNum (Finite false 15 (-6))) = true
  /\ toCurrencyFormat isNumber_spec (VNum (Finite false 15 (-6)))
       {| fixed := Some 3%Z; replaceChar := None |}
     = Some (Returns (str "1.5e-"))
  /\ forallb is_digit (str "5e-") = false
  /\ toCurrencyFormat isNumber_spec (VNum (Finite false 1 4))
       {| fixed := None; replaceChar := Some (str "$&") |}
     = Some (Returns (str "11000")).
Proof. repeat split. Qed.

Example toCurrencyFormat_example_fixed :
  toCurrencyFormat isNumber_spec (VNum (Finite false 12345 4))
    {| fixed := Some 2%Z; replaceChar := None |}
  = Some (Returns (str "1,234.50")).
Proof. reflexivity. Qed.

Example toCurrencyFormat_example_thousand :
  toCurrencyFormat isNumber_spec (VNum (Finite false 1 4)) no_options
  = Some (Returns (str "1,000")).
Proof. reflexivity. Qed.

Example toCurrencyFormat_example_text :
  toCurrencyFormat isNumber_spec (VStr (str "abc")) no_options
  = Some (Returns (str "abc")).
Proof. reflexivity. Qed.

Example toCurrencyFormat_example_string_price :
  toCurrencyFormat isNumber_spec (VStr (str "-1234567.891"))
    {| fixed := Some 2%Z; replaceChar := Some (str " ") |}
  = Some (Returns (str "-1 234 567.89")).
Proof. reflexivity. Qed.

(* ================================================================== *)
(** * Further properties: padStart, padEnd and insert *)
(* ================================================================== *)

Lemma pad_wide (text : value) (addText : jsstring) (expectCount : Z) :
  typeof text = TString \/ typeof text = TNumber ->
  (Z.of_nat (length (ToString text)) + 2 ^ 32 <= expectCount)%Z ->
  padStart text addText expectCount = Throws RangeError
  /\ padEnd text addText expectCount = Throws RangeError.
Proof.
  intros Hty H. unfold padStart, padEnd.
  rewrite !(pad_typeof_cases text Hty). unfold Array_.
  replace (expectCount - Z.of_nat (length (ToString text)) <? 2 ^ 32)%Z
    with false by lia.
  now rewrite andb_false_r.
Qed.

(** X1.  On a string or number [text], [padStart] and [padEnd] throw a
    [RangeError] whenever [expectCount] is below the length of the text or
    2^32 or more above it, whatever [addText] is. *)
Theorem pad_throws_out_of_range (text : value) (addText : jsstring)
  (expectCount : Z) :
  typeof text = TString \/ typeof text = TNumber ->
  (expectCount < Z.of_nat (length (ToString text))
   \/ Z.of_nat (length (ToString text)) + 2 ^ 32 <= expectCount)%Z ->
  padStart text addText expectCount = Throws RangeError
  /\ padEnd text addText expectCount = Throws RangeError.
Proof.
  intros Hty [H|H].
  - split; [now apply padStart_short | now apply padEnd_short].
  - now apply pad_wide.
Qed.

Lemma pad_throws_out_of_range_witness :
  padStart (VNum (Finite false 1234567 7)) (str " ") 4 = Throws RangeError
  /\ padEnd (VNum (Finite false 1234567 7)) (str " ") 4 = Throws RangeError.
Proof.
  apply (pad_throws_out_of_range (VNum (Finite false 1234567 7)) (str " ") 4).
  - right. reflexivity.
  - left. simpl. lia.
Defined.

Section Insert.

Variable isNumber : value -> bool.
Variables (text : jsstring) (index : Z) (addText : jsstring).
Hypothesis index_number : isNumber (VNum (Number_of_Z index)) = true.

Let k : nat := Z.to_nat (Z.min index (Z.of_nat (length text))).

Lemma insert_at :
  insert isNumber text index addText
  = firstn k text ++ addText ++ skipn k text.
Proof.
  unfold insert. rewrite index_number. cbv zeta.
  rewrite substring_from_0, substring_to_end. unfold k.
  destruct (index <? 0)%Z eqn:E.
  - apply Z.ltb_lt in E.
    replace (Z.to_nat (Z.min index (Z.of_nat (length text)))) with 0%nat
      by lia.
    reflexivity.
  - reflexivity.
Qed.

Lemma insert_length :
  length (insert isNumber text index addText)
  = (length text + length addText)%nat.
Proof.
  rewrite insert_at, !length_app, length_firstn, length_skipn.
  unfold k. lia.
Qed.

Lemma insert_low : (index <= 0)%Z ->
  insert isNumber text index addText = addText ++ text.
Proof.
  intros H. rewrite insert_at.
  replace k with 0%nat by (unfold k; lia). reflexivity.
Qed.

Lemma insert_high : (Z.of_nat (length text) <= index)%Z ->
  insert isNumber text index addText = text ++ addText.
Proof.
  intros H. rewrite insert_at.
  replace k with (length text) by (unfold k; lia).
  now rewrite firstn_all, skipn_all, app_nil_r.
Qed.

(** Taking the inserted code units out again gives the text back. *)
Lemma insert_taken_out :
  firstn k (insert isNumber text index addText)
    ++ skipn (k + length addText) (insert isNumber text index addText)
  = text.
Proof.
  rewrite insert_at.
  assert (Hk : (k <= length text)%nat) by (unfold k; lia).
  assert (Hl : length (firstn k text) = k) by (rewrite length_firstn; lia).
  rewrite firstn_app, Hl, Nat.sub_diag, firstn_O, app_nil_r.
  rewrite (firstn_all2 (n := k)) by lia.
  rewrite skipn_app, Hl.
  replace (k + length addText - k)%nat with (length addText) by lia.
  rewrite (skipn_all2 (n := k + length addText)) by lia.
  rewrite skipn_app, skipn_all, Nat.sub_diag. simpl.
  apply firstn_skipn.
Qed.

End Insert.

(** X2.  With a numeric integer [index], [insert] puts [addText] after
    the first [index] code units of [text], with [index] clamped to
    [0 .. length]: the result is [addText] longer than [text], it is
    [addText ++ text] for [index <= 0] and [text ++ addText] for [index]
    from the length on, and taking the inserted code units out again
    gives [text] back. *)
Theorem insert_clamped (isNumber : value -> bool) (text : jsstring)
  (index : Z) (addText : jsstring) :
  isNumber (VNum (Number_of_Z index)) = true ->
  let k := Z.to_nat (Z.min index (Z.of_nat (length text))) in
  let out := insert isNumber text index addText in
  out = firstn k text ++ addText ++ skipn k text
  /\ length out = (length text + length addText)%nat
  /\ ((index <= 0)%Z -> out = addText ++ text)
  /\ ((Z.of_nat (length text) <= index)%Z -> out = text ++ addText)
  /\ firstn k out ++ skipn (k + length addText) out = text.
Proof.
  intros H k out. unfold out, k.
  split; [now apply insert_at|].
  split; [now apply insert_length|].
  split; [now apply insert_low|].
  split; [now apply insert_high | now apply insert_taken_out].
Qed.

Lemma insert_clamped_witness :
  insert isNumber_spec (str "abcdef") 3 (str "-") = str "abc-def"
  /\ insert isNumber_spec (str "abc") (-5) (str "X") = str "Xabc"
  /\ insert isNumber_spec (str "abc") 99 (str "X") = str "abcX".
Proof.
  split; [|split].
  - apply (proj1 (insert_clamped isNumber_spec (str "abcdef") 3 (str "-")
                    eq_refl)).
  - apply (proj1 (proj2 (proj2 (insert_clamped isNumber_spec (str "abc") (-5)
                                  (str "X") eq_refl)))).
    lia.
  - apply (proj1 (proj2 (proj2 (proj2
             (insert_clamped isNumber_spec (str "abc") 99 (str "X")
                eq_refl))))).
    simpl. lia.
Defined.

(* ================================================================== *)
(** * Further properties: toEllipsisEnd and toEllipsisMiddle *)
(* ================================================================== *)

(** X3.  For a non-empty string and [max >= 0], the results of
    [toEllipsisEnd] and [toEllipsisMiddle] are strings of at most
    [max + alternative.length] code units, and the result of
    [toEllipsisEnd] starts with the first [max] code units of the text. *)
Theorem toEllipsis_length_bound (s : jsstring) (max : Z)
  (alternative : jsstring) :
  s <> [] -> (0 <= max)%Z ->
  exists e m rest,
    toEllipsisEnd (VStr s) max alternative = VStr e
    /\ toEllipsisMiddle (VStr s) max alternative = VStr m
    /\ (Z.of_nat (length e) <= max + Z.of_nat (length alternative))%Z
    /\ (Z.of_nat (length m) <= max + Z.of_nat (length alternative))%Z
    /\ e = firstn (Z.to_nat max) s ++ rest.
Proof.
  intros Hs Hmax.
  destruct (Z_lt_ge_dec max (Z.of_nat (length s))) as [H|H].
  - destruct (toEllipsis_long max alternative s Hs H) as [He Hm].
    do 3 eexists. split; [exact He|]. split; [exact Hm|].
    split; [|split; [|reflexivity]].
    + rewrite length_app, length_firstn. lia.
    + rewrite !length_app, length_firstn. unfold lastn.
      rewrite length_skipn.
      assert (2 * (max / 2) <= max)%Z by (apply Z.mul_div_le; lia).
      assert (0 <= max / 2)%Z by (apply Z.div_pos; lia).
      lia.
  - destruct (toEllipsis_short max alternative s Hs ltac:(lia)) as [He Hm].
    exists s, s, []. split; [exact He|]. split; [exact Hm|].
    split; [lia|]. split; [lia|].
    rewrite firstn_all2 by lia. now rewrite app_nil_r.
Qed.

Lemma toEllipsis_length_bound_witness :
  exists e m rest,
    toEllipsisEnd (VStr (str "abcdefghij")) 4 (str "...") = VStr e
    /\ toEllipsisMiddle (VStr (str "abcdefghij")) 4 (str "...") = VStr m
    /\ (Z.of_nat (length e) <= 4 + Z.of_nat (length (str "...")))%Z
    /\ (Z.of_nat (length m) <= 4 + Z.of_nat (length (str "...")))%Z
    /\ e = firstn (Z.to_nat 4) (str "abcdefghij") ++ rest.
Proof.
  apply (toEllipsis_length_bound (str "abcdefghij") 4 (str "...")).
  - discriminate.
  - lia.
Defined.

(* ================================================================== *)
(** * Further properties: escape *)
(* ================================================================== *)

Section EscapeMore.

Lemma escape_char_no_bracket (c : char) :
  ~ In 60%N (escape_char c) /\ ~ In 62%N (escape_char c).
Proof.
  unfold escape_char.
  destruct (c =? 60)%N eqn:E1;
    [split; simpl; intuition discriminate|].
  destruct (c =? 62)%N eqn:E2;
    [split; simpl; intuition discriminate|].
  destruct (c =? 38)%N eqn:E3;
    [split; simpl; intuition discriminate|].
  apply N.eqb_neq in E1, E2.
  split; simpl; intros [H|[]]; congruence.
Qed.

Lemma escape_char_length (c : char) :
  (1 <= length (escape_char c) <= 5)%nat.
Proof.
  unfold escape_char.
  destruct (c =? 60)%N; [simpl; lia|].
  destruct (c =? 62)%N; [simpl; lia|].
  destruct (c =? 38)%N; simpl; lia.
Qed.

Lemma escape_no_bracket (text : jsstring) :
  ~ In 60%N (escape text) /\ ~ In 62%N (escape text).
Proof.
  rewrite escape_flat_map.
  induction text as [|c text [IH1 IH2]]; [split; intros []|].
  destruct (escape_char_no_bracket c) as [H1 H2].
  simpl. split; intros H; apply in_app_or in H as [H|H]; auto.
Qed.

Lemma escape_length_bounds (text : jsstring) :
  (length text <= length (escape text) <= 5 * length text)%nat.
Proof.
  rewrite escape_flat_map.
  induction text as [|c text IH]; [simpl; lia|].
  pose proof (escape_char_length c). simpl. rewrite length_app. lia.
Qed.

Lemma escape_app (a b : jsstring) : escape (a ++ b) = escape a ++ escape b.
Proof. rewrite !escape_flat_map. apply flat_map_app. Qed.

Lemma unescape_escape_char (c : char) (rest : jsstring) :
  unescape 0 (escape_char c ++ rest) = c :: unescape 0 rest.
Proof.
  unfold escape_char.
  destruct (c =? 60)%N eqn:E1; [apply N.eqb_eq in E1; now subst|].
  destruct (c =? 62)%N eqn:E2; [apply N.eqb_eq in E2; now subst|].
  destruct (c =? 38)%N eqn:E3; [apply N.eqb_eq in E3; now subst|].
  cbn [app unescape].
  change (starts_with (str "&lt;") (c :: rest))
    with (char_eqb 38 c && starts_with (str "lt;") rest).
  change (starts_with (str "&gt;") (c :: rest))
    with (char_eqb 38 c && starts_with (str "gt;") rest).
  change (starts_with (str "&amp;") (c :: rest))
    with (char_eqb 38 c && starts_with (str "amp;") rest).
  unfold char_eqb. rewrite (N.eqb_sym 38 c), E3. reflexivity.
Qed.

Lemma unescape_escape (text : jsstring) : unescape 0 (escape text) = text.
Proof.
  rewrite escape_flat_map.
  induction text as [|c text IH]; [reflexivity|].
  simpl flat_map. now rewrite unescape_escape_char, IH.
Qed.

End EscapeMore.

(** X4.  The result of [escape] holds neither ["<"] nor [">"]; it is at
    least as long as the text and at most five times as long; and [escape]
    of a concatenation is the concatenation of the escaped parts. *)
Theorem escape_no_brackets (a b : jsstring) :
  ~ In 60%N (escape a) /\ ~ In 62%N (escape a)
  /\ (length a <= length (escape a) <= 5 * length a)%nat
  /\ escape (a ++ b) = escape a ++ escape b.
Proof.
  destruct (escape_no_bracket a) as [H1 H2].
  split; [exact H1|]. split; [exact H2|].
  split; [apply escape_length_bounds | apply escape_app].
Qed.

(** X5.  [escape] loses nothing: two texts with the same escaped form are
    the same text. *)
Theorem escape_injective (a b : jsstring) :
  escape a = escape b -> a = b.
Proof.
  intros H. rewrite <- (unescape_escape a), <- (unescape_escape b).
  now rewrite H.
Qed.

Lemma escape_injective_witness : str "a<b" = str "a<b".
Proof. apply (escape_injective (str "a<b") (str "a<b")). reflexivity. Defined.

(* ================================================================== *)
(** * Further properties: replaceAll *)
(* ================================================================== *)

Lemma split_scan_absent (find text : jsstring) :
  includes find text = false -> split_scan find 0 text = [text].
Proof.
  induction text as [|c text IH]; intros H; [reflexivity|].
  cbn [includes] in H. apply orb_false_iff in H as [H1 H2].
  cbn [split_scan]. rewrite H1, (IH H2). reflexivity.
Qed.

(** X6.  When [find] does not occur in [text], [replaceAll] returns
    [text]; and replacing [find] by itself returns [text] as well. *)
Theorem replaceAll_absent_or_same (text find r : jsstring) :
  (includes find text = false -> replaceAll text find r = text)
  /\ replaceAll text find find = text.
Proof.
  split.
  - intros H. unfold replaceAll.
    destruct text as [|c text]; [reflexivity|].
    destruct find as [|x find]; [reflexivity|].
    cbn [ToBoolean negb]. unfold split. now rewrite split_scan_absent.
  - unfold replaceAll.
    destruct text as [|c text]; [reflexivity|].
    destruct find as [|x find]; [reflexivity|].
    cbn [ToBoolean negb]. unfold split. apply split_join. discriminate.
Qed.

Lemma replaceAll_absent_or_same_witness :
  replaceAll (str "hello") (str "xy") (str "!") = str "hello".
Proof.
  apply (proj1 (replaceAll_absent_or_same (str "hello") (str "xy") (str "!"))).
  reflexivity.
Defined.

(* ================================================================== *)
(** * Further properties: toWordArray *)
(* ================================================================== *)

Lemma fields_concat (p : char -> bool) (s : jsstring) :
  concat (fields p s) = filter (fun c => negb (p c)) s.
Proof.
  induction s as [|c s IH]; [reflexivity|].
  cbn [fields filter]. destruct (p c); cbn [negb concat app].
  - exact IH.
  - rewrite <- IH. destruct (fields p s); reflexivity.
Qed.

Lemma concat_nonempty (l : list jsstring) :
  concat (filter (fun w => negb (is_empty w)) l) = concat l.
Proof.
  induction l as [|w l IH]; [reflexivity|].
  destruct w; simpl; now rewrite IH.
Qed.

Lemma words_concat (s : jsstring) :
  concat (words s) = filter (fun c => negb (isWhiteSpace c)) s.
Proof. unfold words. now rewrite concat_nonempty, fields_concat. Qed.

Lemma words_join (ws : list jsstring) :
  Forall (fun w => w <> [] /\ Forall (fun c => isWhiteSpace c = false) w) ws ->
  words (join (str " ") ws) = ws.
Proof.
  induction 1 as [|w ws [Hn Hw] Hws IH]; [reflexivity|].
  destruct ws as [|w' ws].
  - cbn [join]. rewrite <- (app_nil_r w) at 1.
    now rewrite words_solid.
  - rewrite join_cons by discriminate.
    change (str " " ++ join (str " ") (w' :: ws))
      with (32%N :: join (str " ") (w' :: ws)).
    rewrite words_solid; [|assumption|assumption|reflexivity].
    f_equal.
    change (32%N :: join (str " ") (w' :: ws))
      with ([32%N] ++ join (str " ") (w' :: ws)).
    rewrite fields_space; [exact IH|]. now repeat constructor.
Qed.

(** X7.  [toWordArray] drops white space and nothing else: the words it
    returns, put together, are the text without its white space. *)
Theorem toWordArray_keeps_solid (text : jsstring) (fuel : nat) :
  (length text < fuel)%nat ->
  exists ws,
    toWordArray fuel text = Some (Returns ws)
    /\ concat ws = filter (fun c => negb (isWhiteSpace c)) text.
Proof.
  intros H. exists (words text). split.
  - now apply toWordArray_words.
  - apply words_concat.
Qed.

Lemma toWordArray_keeps_solid_witness :
  exists ws,
    toWordArray 9 (str " ab  c ") = Some (Returns ws)
    /\ concat ws = filter (fun c => negb (isWhiteSpace c)) (str " ab  c ").
Proof.
  apply (toWordArray_keeps_solid (str " ab  c ") 9). simpl. lia.
Defined.

(** X8.  Words that are joined by single spaces are found again: for
    non-empty words without white space, [toWordArray] of the joined
    text returns the words. *)
Theorem toWordArray_of_join (ws : list jsstring) (fuel : nat) :
  Forall (fun w => w <> [] /\ Forall (fun c => isWhiteSpace c = false) w) ws ->
  (length (join (str " ") ws) < fuel)%nat ->
  toWordArray fuel (join (str " ") ws) = Some (Returns ws).
Proof.
  intros Hws H. rewrite toWordArray_words by assumption.
  now rewrite words_join.
Qed.

Lemma toWordArray_of_join_witness :
  toWordArray 10 (join (str " ") [str "ab"; str "c"; str "def"])
  = Some (Returns [str "ab"; str "c"; str "def"]).
Proof.
  apply (toWordArray_of_join [str "ab"; str "c"; str "def"] 10).
  - repeat constructor; discriminate.
  - simpl. lia.
Defined.

(* ================================================================== *)
(** * Further properties: collapseMultiline *)
(* ================================================================== *)

Section CollapseMore.

Variable allow : Z.

Lemma kept_all (lines : list jsstring) : forall cnt,
  runs_within (allow - 1) cnt lines -> kept_lines allow cnt lines = lines.
Proof.
  induction lines as [|line lines IH]; intros cnt H; [reflexivity|].
  cbn [kept_lines runs_within] in *. destruct (is_blank line).
  - destruct H as [H1 H2].
    replace (cnt + 1 <? allow)%Z with true by lia.
    f_equal. now apply IH.
  - f_equal. now apply IH.
Qed.

Lemma runs_within_solid (lines : list jsstring) (b : Z) : forall cur,
  Forall (fun line => is_blank line = false) lines ->
  runs_within b cur lines.
Proof.
  induction lines as [|line lines IH]; intros cur H; [exact I|].
  inversion H as [|? ? Hl Hr]; subst. cbn [runs_within]. rewrite Hl.
  now apply IH.
Qed.

Lemma split_newline_join (text : jsstring) :
  join newline (split newline text) = text.
Proof. unfold split, newline. apply split_join. discriminate. Qed.

Lemma collapseMultiline_fixed (text : jsstring) :
  runs_within (allow - 1) 0 (split newline text) ->
  collapseMultiline text allow = text.
Proof.
  intros H. rewrite collapseMultiline_kept, kept_all by assumption.
  apply split_newline_join.
Qed.

Lemma collapseMultiline_twice (text : jsstring) :
  collapseMultiline (collapseMultiline text allow) allow
  = collapseMultiline text allow.
Proof.
  destruct (kept_lines allow 0 (split newline text)) as [|l ls] eqn:E.
  - rewrite (collapseMultiline_kept allow text), E. cbn [join].
    rewrite collapseMultiline_kept.
    change (split newline []) with [@nil N]. cbn [kept_lines is_blank forallb].
    destruct (0 + 1 <? allow)%Z; reflexivity.
  - apply collapseMultiline_fixed.
    rewrite collapseMultiline_lines by (rewrite E; discriminate).
    apply kept_runs; lia.
Qed.

End CollapseMore.

(** X9.  [collapseMultiline] is idempotent: collapsing a collapsed text
    with the same [allow] changes nothing. *)
Theorem collapseMultiline_idempotent (text : jsstring) (allow : Z) :
  collapseMultiline (collapseMultiline text allow) allow
  = collapseMultiline text allow.
Proof. apply collapseMultiline_twice. Qed.

(** X10.  A text without blank line comes back unchanged from
    [collapseMultiline], whatever [allow] is. *)
Theorem collapseMultiline_no_blank (text : jsstring) (allow : Z) :
  Forall (fun line => is_blank line = false) (split newline text) ->
  collapseMultiline text allow = text.
Proof.
  intros H. apply collapseMultiline_fixed. now apply runs_within_solid.
Qed.

Lemma collapseMultiline_no_blank_witness :
  collapseMultiline (str "a" ++ newline ++ str "b c" ++ newline ++ str "d") 0
  = str "a" ++ newline ++ str "b c" ++ newline ++ str "d".
Proof.
  apply (collapseMultiline_no_blank
           (str "a" ++ newline ++ str "b c" ++ newline ++ str "d") 0).
  repeat constructor.
Defined.

(* ================================================================== *)
(** * Further properties: removeTag *)
(* ================================================================== *)

Section Subsequences.

Variable A : Type.

Lemma subseq_refl (l : list A) : subseq l l.
Proof. induction l; now constructor. Qed.

Lemma subseq_app_drop (pre l k : list A) :
  subseq l k -> subseq l (pre ++ k).
Proof. intros H. induction pre; simpl; [assumption | now constructor]. Qed.

Lemma subseq_filter (p : A -> bool) (l k : list A) :
  subseq l k -> subseq (filter p l) k.
Proof.
  induction 1 as [|x l k H IH|x l k H IH]; simpl.
  - constructor.
  - destruct (p x); now constructor.
  - now constructor.
Qed.

Lemma subseq_length (l k : list A) :
  subseq l k -> (length l <= length k)%nat.
Proof. induction 1; simpl; lia. Qed.

Lemma subseq_In (l k : list A) (x : A) : subseq l k -> In x l -> In x k.
Proof.
  induction 1 as [|y l k H IH|y l k H IH]; simpl; intros Hin.
  - exact Hin.
  - destruct Hin; [now left | right; auto].
  - right. auto.
Qed.

End Subsequences.

Section TagsMore.

Let strip (s : jsstring) : jsstring :=
  replace_scan tag_pattern (fun _ _ _ => []) 0 0 s.

Let no_tab (c : char) : bool := negb (9 =? c)%N.

Lemma tag_stripped_subseq (s o : jsstring) : tag_stripped s o -> subseq o s.
Proof.
  induction 1 as [|c s o H IH|body s o Hb Hf H IH].
  - constructor.
  - now constructor.
  - apply subseq_drop.
    change (body ++ 62%N :: s) with (body ++ [62%N] ++ s).
    rewrite app_assoc. now apply subseq_app_drop.
Qed.

Lemma removeTag_subseq (tagText : jsstring) (removeTabSpace : bool) :
  subseq (removeTag tagText removeTabSpace) tagText.
Proof.
  rewrite removeTag_strip. pose proof (strip_stripped tagText) as H.
  apply tag_stripped_subseq in H.
  destruct removeTabSpace; [now apply subseq_filter | exact H].
Qed.

Lemma removeTag_no_tab (tagText : jsstring) :
  ~ In 9%N (removeTag tagText true).
Proof.
  rewrite removeTag_strip. intros H. apply filter_In in H as [_ H].
  discriminate H.
Qed.

Lemma strip_cons_none (c : char) (s : jsstring) :
  tag_pattern (c :: s) = None -> strip (c :: s) = c :: strip s.
Proof.
  intros H. unfold strip. rewrite replace_scan_cons, H.
  now rewrite strip_position.
Qed.

Lemma take_while_all (p : char -> bool) (s : jsstring) :
  Forall (fun c => p c = true) s -> take_while p s = s.
Proof.
  induction 1 as [|c s Hc Hs IH]; simpl; [reflexivity|].
  now rewrite Hc, IH.
Qed.

(** Where an opening bracket starts no tag. *)
Lemma tag_none_cases (x : jsstring) :
  tag_pattern (60%N :: x) = None ->
  x = [] \/ (exists y, x = 62%N :: y) \/ ~ In 62%N x.
Proof.
  unfold tag_pattern. cbn [N.eqb Pos.eqb].
  set (p := fun c => negb (c =? 62)%N).
  pose proof (take_while_skipn p x) as Hsplit.
  pose proof (take_while_stop p x) as Hstop.
  pose proof (take_while_Forall p x) as Hall.
  destruct (take_while p x) as [|b body] eqn:Eb.
  - intros _. destruct x as [|c x]; [now left|]. right. left.
    simpl in Hstop. unfold p in Hstop.
    apply negb_false_iff, N.eqb_eq in Hstop. subst c. now exists x.
  - destruct (skipn (length (b :: body)) x) as [|g rest] eqn:Er.
    + intros _. right. right. rewrite app_nil_r in Hsplit. rewrite Hsplit.
      intros Hin. rewrite Forall_forall in Hall. apply Hall in Hin.
      discriminate Hin.
    + unfold p in Hstop. apply negb_false_iff in Hstop. rewrite Hstop.
      discriminate.
Qed.

Lemma tag_none_intro (x : jsstring) :
  x = [] \/ (exists y, x = 62%N :: y) \/ ~ In 62%N x ->
  tag_pattern (60%N :: x) = None.
Proof.
  intros [->|[[y ->]|H]]; [reflexivity | reflexivity |].
  unfold tag_pattern. cbn [N.eqb Pos.eqb]. cbv zeta.
  rewrite take_while_all.
  - destruct x as [|c x]; [reflexivity|]. now rewrite skipn_all.
  - apply Forall_forall. intros c Hc. apply negb_true_iff, N.eqb_neq.
    intros ->. contradiction.
Qed.

Lemma no_tag_fixed (s : jsstring) : no_tag s -> strip s = s.
Proof.
  induction s as [|c s IH]; intros H; [reflexivity|].
  destruct H as [H1 H2]. rewrite strip_cons_none by assumption.
  f_equal. now apply IH.
Qed.

Lemma strip_no_tag_bounded (n : nat) : forall s, (length s <= n)%nat ->
  no_tag (strip s).
Proof.
  induction n as [|n IH]; intros s H.
  - destruct s; [exact I | simpl in H; lia].
  - destruct s as [|c s]; [exact I|]. simpl in H.
    destruct (tag_pattern (c :: s)) as [[k captures]|] eqn:E.
    + destruct (tag_pattern_match _ _ _ E) as (body & rest & Hs & Hb & Hf & ->).
      injection Hs as -> ->. unfold strip. rewrite replace_scan_cons, E.
      cbn [app]. rewrite strip_matched.
      apply IH. rewrite length_app in H. simpl in H. lia.
    + rewrite strip_cons_none by assumption.
      assert (Hrest : no_tag (strip s)) by (apply IH; lia).
      split; [|exact Hrest].
      destruct (N.eq_dec c 60) as [->|Hc]; [|now apply tag_pattern_other].
      apply tag_none_intro.
      destruct (tag_none_cases s E) as [->|[[y ->]|Hno]].
      * now left.
      * right. left. exists (strip y). apply strip_cons_none.
        now apply tag_pattern_other.
      * right. right. intros Hin. apply Hno.
        eapply subseq_In; [|exact Hin].
        apply tag_stripped_subseq, strip_stripped.
Qed.

Lemma strip_no_tag (s : jsstring) : no_tag (strip s).
Proof. apply strip_no_tag_bounded with (n := length s). lia. Qed.

Lemma no_tag_without_tabs (s : jsstring) :
  no_tag s -> no_tag (filter no_tab s).
Proof.
  induction s as [|c s IH]; intros H; [exact I|].
  destruct H as [H1 H2]. specialize (IH H2). cbn [filter].
  destruct (no_tab c) eqn:Ec; [|exact IH].
  split; [|exact IH].
  destruct (N.eq_dec c 60) as [->|Hc]; [|now apply tag_pattern_other].
  apply tag_none_intro.
  destruct (tag_none_cases s H1) as [->|[[y ->]|Hno]].
  - now left.
  - right. left. now exists (filter no_tab y).
  - right. right. intros Hin. apply filter_In in Hin as [Hin _]. auto.
Qed.

Lemma filter_twice (p : char -> bool) (s : jsstring) :
  filter p (filter p s) = filter p s.
Proof.
  induction s as [|c s IH]; [reflexivity|].
  simpl. destruct (p c) eqn:E; simpl; [now rewrite E, IH | exact IH].
Qed.

Lemma removeTag_twice (tagText : jsstring) (removeTabSpace : bool) :
  removeTag (removeTag tagText removeTabSpace) removeTabSpace
  = removeTag tagText removeTabSpace.
Proof.
  pose proof (strip_no_tag tagText) as H.
  destruct removeTabSpace; rewrite !removeTag_strip.
  - change (filter no_tab (strip (filter no_tab (strip tagText)))
            = filter no_tab (strip tagText)).
    rewrite (no_tag_fixed _ (no_tag_without_tabs _ H)).
    apply filter_twice.
  - now apply no_tag_fixed.
Qed.

End TagsMore.

(** X11.  [removeTag] only takes code units away: its result is the text
    without some of its code units, in the same order, so it is never
    longer than the text; and with [removeTabSpace] the result holds no
    tab. *)
Theorem removeTag_only_removes (tagText : jsstring) (removeTabSpace : bool) :
  subseq (removeTag tagText removeTabSpace) tagText
  /\ (length (removeTag tagText removeTabSpace) <= length tagText)%nat
  /\ ~ In 9%N (removeTag tagText true).
Proof.
  split; [apply removeTag_subseq|].
  split; [apply subseq_length, removeTag_subseq | apply removeTag_no_tab].
Qed.

(** X12.  [removeTag] is idempotent: in its result no tag is left, and
    removing tags (and tabs) again changes nothing. *)
Theorem removeTag_idempotent (tagText : jsstring) (removeTabSpace : bool) :
  removeTag (removeTag tagText removeTabSpace) removeTabSpace
  = removeTag tagText removeTabSpace.
Proof. apply removeTag_twice. Qed.

(* ================================================================== *)
(** * Further properties: trimStart, trimEnd and refineWhitespace *)
(* ================================================================== *)

Section Blank.

Let after_blank (s : jsstring) : jsstring :=
  skipn (length (concat (blank_tokens 0 s))) s.

Lemma blank_tokens_skip (s : jsstring) : forall skip,
  blank_tokens skip s = blank_tokens 0 (skipn skip s).
Proof.
  induction s as [|c s IH]; intros skip.
  - now rewrite skipn_nil.
  - destruct skip; [reflexivity|]. simpl. apply IH.
Qed.

Lemma blank_tokens_cons (c : char) (s : jsstring) :
  blank_tokens 0 (c :: s)
  = if (c =? 10240)%N then [c] :: blank_tokens 0 s
    else if starts_with blank_entity (c :: s) then
      blank_entity :: blank_tokens 0 (skipn 7 s)
    else if isWhiteSpace c then [c] :: blank_tokens 0 s
    else [].
Proof. cbn [blank_tokens]. now rewrite (blank_tokens_skip s 7). Qed.

Lemma entity_head (c : char) (s : jsstring) :
  starts_with blank_entity (c :: s) = true -> c = 38%N.
Proof.
  change (starts_with blank_entity (c :: s))
    with (char_eqb 38 c && starts_with (str "#10240;") s).
  intros H. apply andb_true_iff in H as [H _].
  apply char_eqb_eq in H. now subst.
Qed.

Lemma space_not_entity (c : char) (s : jsstring) :
  isWhiteSpace c = true -> starts_with blank_entity (c :: s) = false.
Proof.
  intros H. destruct (starts_with blank_entity (c :: s)) eqn:E;
    [|reflexivity].
  apply entity_head in E. subst c. discriminate H.
Qed.

Lemma blank_tokens_tokens (s : jsstring) : forall skip,
  Forall is_blank_token (blank_tokens skip s).
Proof.
  induction s as [|c s IH]; intros skip; [constructor|].
  cbn [blank_tokens]. destruct skip; [|apply IH].
  destruct (c =? 10240)%N eqn:E1.
  - apply N.eqb_eq in E1. subst c. constructor; [now left | apply IH].
  - destruct (starts_with blank_entity (c :: s)).
    + constructor; [right; now left | apply IH].
    + destruct (isWhiteSpace c) eqn:E3; constructor; [|apply IH].
      right. right. now exists c.
Qed.

Lemma blank_tokens_none (c : char) (s : jsstring) :
  blank_tokens 0 (c :: s) = [] ->
  c <> 10240%N /\ starts_with blank_entity (c :: s) = false
  /\ isWhiteSpace c = false.
Proof.
  rewrite blank_tokens_cons.
  destruct (c =? 10240)%N eqn:E1; [discriminate|].
  destruct (starts_with blank_entity (c :: s)); [discriminate|].
  destruct (isWhiteSpace c); [discriminate|].
  intros _. apply N.eqb_neq in E1. now repeat split.
Qed.

Lemma blank_token_head (t rest : jsstring) :
  is_blank_token t -> blank_tokens 0 (t ++ rest) <> [].
Proof.
  intros [->|[->|(c & -> & Hc)]].
  - discriminate.
  - discriminate.
  - cbn [app]. rewrite blank_tokens_cons.
    destruct (c =? 10240)%N; [discriminate|].
    rewrite space_not_entity, Hc by assumption. discriminate.
Qed.

(** The tokens found at the head of a text are its head, and after them
    no token follows. *)
Lemma blank_head_bounded (n : nat) : forall s, (length s <= n)%nat ->
  s = concat (blank_tokens 0 s) ++ after_blank s
  /\ blank_tokens 0 (after_blank s) = [].
Proof.
  unfold after_blank.
  induction n as [|n IH]; intros s H.
  - destruct s; [now split | simpl in H; lia].
  - destruct s as [|c s]; [now split|]. simpl in H.
    rewrite blank_tokens_cons.
    destruct (c =? 10240)%N eqn:E1;
      [|destruct (starts_with blank_entity (c :: s)) eqn:E2;
        [|destruct (isWhiteSpace c) eqn:E3]].
    + destruct (IH s ltac:(lia)) as [H1 H2]. cbn [concat app length skipn].
      split; [now rewrite <- H1 | exact H2].
    + pose proof (starts_with_app _ _ E2) as Hs.
      change (length blank_entity) with 8%nat in Hs.
      change (skipn 8 (c :: s)) with (skipn 7 s) in Hs.
      assert (Hl : (length (skipn 7 s) <= n)%nat)
        by (rewrite length_skipn; lia).
      destruct (IH (skipn 7 s) Hl) as [H1 H2].
      cbn [concat]. rewrite length_app.
      change (length blank_entity) with 8%nat.
      replace (8 + length (concat (blank_tokens 0 (skipn 7 s))))%nat
        with (length (concat (blank_tokens 0 (skipn 7 s))) + 8)%nat by lia.
      rewrite <- skipn_skipn.
      change (skipn 8 (c :: s)) with (skipn 7 s).
      split; [|exact H2].
      rewrite <- app_assoc, <- H1. exact Hs.
    + destruct (IH s ltac:(lia)) as [H1 H2]. cbn [concat app length skipn].
      split; [now rewrite <- H1 | exact H2].
    + cbn [concat app length skipn]. split; [reflexivity|].
      rewrite blank_tokens_cons, E1, E2, E3. reflexivity.
Qed.

Lemma blank_head (s : jsstring) :
  s = concat (blank_tokens 0 s) ++ after_blank s
  /\ blank_tokens 0 (after_blank s) = [].
Proof. apply blank_head_bounded with (n := length s). lia. Qed.

Lemma trimStart_after (text : jsstring) : trimStart text = after_blank text.
Proof.
  unfold trimStart, RegExp_replace_start, blank_start_pattern, after_blank.
  destruct (blank_tokens 0 text); reflexivity.
Qed.

Lemma trimStart_split (text : jsstring) :
  text = concat (blank_tokens 0 text) ++ trimStart text.
Proof. rewrite trimStart_after. apply blank_head. Qed.

Lemma trimStart_settled (text : jsstring) :
  blank_tokens 0 (trimStart text) = [].
Proof. rewrite trimStart_after. apply blank_head. Qed.

Lemma trimStart_twice (text : jsstring) :
  trimStart (trimStart text) = trimStart text.
Proof.
  rewrite (trimStart_after (trimStart text)). unfold after_blank.
  now rewrite trimStart_settled.
Qed.

(** Texts of blank tokens. *)
Lemma blank_text_cover (s : jsstring) :
  blank_text s = true -> concat (blank_tokens 0 s) = s.
Proof.
  unfold blank_text. intros H. apply Nat.eqb_eq in H.
  destruct (blank_head s) as [H1 _]. unfold after_blank in H1.
  rewrite H, skipn_all, app_nil_r in H1. now symmetry.
Qed.

Lemma blank_text_cons (c : char) (s : jsstring) :
  blank_text (c :: s) = true ->
  (((c =? 10240)%N || isWhiteSpace c = true)
   /\ starts_with blank_entity (c :: s) = false \/ (c =? 10240)%N = true)
  /\ blank_text s = true
  \/ (c <> 10240%N /\ starts_with blank_entity (c :: s) = true
      /\ blank_text (skipn 7 s) = true).
Proof.
  unfold blank_text. rewrite blank_tokens_cons.
  destruct (c =? 10240)%N eqn:E1.
  - cbn [concat app length]. intros H. left. split; [now right|].
    apply Nat.eqb_eq in H. apply Nat.eqb_eq. lia.
  - destruct (starts_with blank_entity (c :: s)) eqn:E2.
    + intros H. right. apply N.eqb_neq in E1. repeat split; auto.
      apply Nat.eqb_eq in H. apply Nat.eqb_eq.
      cbn [concat] in H. rewrite length_app in H.
      change (length blank_entity) with 8%nat in H.
      pose proof (starts_with_app _ _ E2) as Hs.
      apply (f_equal (@length _)) in Hs. rewrite length_app in Hs.
      change (length blank_entity) with 8%nat in Hs.
      change (skipn 8 (c :: s)) with (skipn 7 s) in Hs.
      simpl length in *. lia.
    + destruct (isWhiteSpace c) eqn:E3; [|discriminate].
      cbn [concat app length]. intros H. left. split; [left; now split|].
      apply Nat.eqb_eq in H. apply Nat.eqb_eq. lia.
Qed.

Lemma blank_text_app_bounded (n : nat) : forall a b, (length a <= n)%nat ->
  blank_text a = true ->
  blank_tokens 0 (a ++ b) = blank_tokens 0 a ++ blank_tokens 0 b.
Proof.
  induction n as [|n IH]; intros a b Hn Ha.
  - destruct a; [reflexivity | simpl in Hn; lia].
  - destruct a as [|c a]; [reflexivity|]. simpl in Hn.
    cbn [app]. rewrite !blank_tokens_cons.
    destruct (blank_text_cons c a Ha) as [[Hc Hr]|(Hc & He & Hr)].
    + destruct (c =? 10240)%N eqn:E1.
      * cbn [app]. f_equal. apply IH; [lia | exact Hr].
      * destruct Hc as [[Hw He]|Hc]; [|discriminate].
        cbn [orb] in Hw. rewrite He, Hw.
        rewrite (space_not_entity c (a ++ b) Hw).
        cbn [app]. f_equal. apply IH; [lia | exact Hr].
    + apply N.eqb_neq in Hc. rewrite Hc, He.
      assert (He' : starts_with blank_entity ((c :: a) ++ b) = true)
        by now apply starts_with_prefix.
      cbn [app] in He'. rewrite He'. cbn [app]. f_equal.
      assert (Hl : (7 <= length a)%nat).
      { pose proof (starts_with_app _ _ He) as Hs.
        apply (f_equal (@length _)) in Hs. rewrite length_app in Hs.
        change (length blank_entity) with 8%nat in Hs. simpl in Hs. lia. }
      rewrite skipn_app.
      replace (7 - length a)%nat with 0%nat by lia.
      change (skipn 0 b) with b.
      apply IH; [rewrite length_skipn; lia | exact Hr].
Qed.

Lemma blank_text_app (a b : jsstring) :
  blank_text a = true -> blank_text b = true -> blank_text (a ++ b) = true.
Proof.
  intros Ha Hb. unfold blank_text.
  rewrite (blank_text_app_bounded (length a)) by (lia || assumption).
  rewrite concat_app, blank_text_cover, blank_text_cover by assumption.
  apply Nat.eqb_refl.
Qed.

Lemma blank_token_text (t : jsstring) :
  is_blank_token t -> blank_text t = true.
Proof.
  intros [->|[->|(c & -> & Hc)]]; [reflexivity | reflexivity |].
  unfold blank_text. rewrite blank_tokens_cons.
  destruct (c =? 10240)%N; [reflexivity|].
  now rewrite space_not_entity, Hc.
Qed.

(** [trimEnd] stops at the first place from which the text is blank. *)
Lemma trimEnd_scan (s : jsstring) : forall p,
  replace_scan blank_end_pattern (fun _ _ _ => []) 0 p s
  = without_blank_end s.
Proof.
  induction s as [|c s IH]; intros p; [reflexivity|].
  rewrite replace_scan_cons. cbn [without_blank_end].
  unfold blank_end_pattern, blank_text.
  destruct (blank_tokens 0 (c :: s)) as [|t ts] eqn:E.
  - cbn [concat length Nat.eqb]. now rewrite IH.
  - destruct (length (concat (t :: ts)) =? length (c :: s))%nat.
    + cbn [length app]. rewrite replace_scan_skip by lia.
      now rewrite skipn_all.
    + now rewrite IH.
Qed.

Lemma trimEnd_without (text : jsstring) :
  trimEnd text = without_blank_end text.
Proof. apply trimEnd_scan. Qed.

Lemma without_blank_end_split (s : jsstring) :
  exists removed,
    s = without_blank_end s ++ removed /\ blank_text removed = true.
Proof.
  induction s as [|c s (removed & H1 & H2)]; [now exists []|].
  cbn [without_blank_end]. destruct (blank_text (c :: s)) eqn:E.
  - now exists (c :: s).
  - exists removed. split; [|exact H2]. cbn [app]. now rewrite <- H1.
Qed.

Lemma without_blank_end_settled (s : jsstring) : forall a b,
  without_blank_end s = a ++ b -> b <> [] -> blank_text b = false.
Proof.
  induction s as [|c s IH]; intros a b H Hb.
  - destruct a, b; try discriminate H. contradiction.
  - cbn [without_blank_end] in H. destruct (blank_text (c :: s)) eqn:E.
    + destruct a, b; try discriminate H. contradiction.
    + destruct a as [|x a].
      * cbn [app] in H. subst b.
        destruct (blank_text (c :: without_blank_end s)) eqn:Eb;
          [|reflexivity].
        destruct (without_blank_end_split s) as (removed & H1 & H2).
        pose proof (blank_text_app _ _ Eb H2) as Hc.
        cbn [app] in Hc. rewrite <- H1 in Hc. congruence.
      * injection H as -> H. now apply (IH a b).
Qed.

Lemma without_blank_end_fixed (s : jsstring) :
  (forall a b, s = a ++ b -> b <> [] -> blank_text b = false) ->
  without_blank_end s = s.
Proof.
  induction s as [|c s IH]; intros H; [reflexivity|].
  cbn [without_blank_end].
  rewrite (H [] (c :: s) eq_refl ltac:(discriminate)).
  f_equal. apply IH. intros a b -> Hb. now apply (H (c :: a) b).
Qed.

Lemma trimEnd_twice (text : jsstring) :
  trimEnd (trimEnd text) = trimEnd text.
Proof.
  rewrite !trimEnd_without. apply without_blank_end_fixed.
  apply without_blank_end_settled.
Qed.

End Blank.

(** X13.  [trimStart] removes blank tokens from the start of the text and
    nothing else: the text is some blank tokens followed by the result,
    the result starts with no blank token, and trimming again changes
    nothing. *)
Theorem trimStart_removes_blank_head (text : jsstring) :
  (exists tokens,
      text = concat tokens ++ trimStart text /\ Forall is_blank_token tokens)
  /\ (forall t rest, trimStart text = t ++ rest -> ~ is_blank_token t)
  /\ trimStart (trimStart text) = trimStart text.
Proof.
  split; [|split].
  - exists (blank_tokens 0 text). split.
    + apply trimStart_split.
    + apply blank_tokens_tokens.
  - intros t rest H Ht. apply (blank_token_head t rest Ht).
    rewrite <- H. apply trimStart_settled.
  - apply trimStart_twice.
Qed.

(** X14.  [trimEnd] removes blank tokens from the end of the text and
    nothing else: the text is the result followed by some blank tokens,
    the result ends with no blank token, and trimming again changes
    nothing. *)
Theorem trimEnd_removes_blank_tail (text : jsstring) :
  (exists tokens,
      text = trimEnd text ++ concat tokens /\ Forall is_blank_token tokens)
  /\ (forall rest t, trimEnd text = rest ++ t -> ~ is_blank_token t)
  /\ trimEnd (trimEnd text) = trimEnd text.
Proof.
  split; [|split].
  - rewrite trimEnd_without.
    destruct (without_blank_end_split text) as (removed & H1 & H2).
    exists (blank_tokens 0 removed). split.
    + now rewrite blank_text_cover.
    + apply blank_tokens_tokens.
  - intros rest t H Ht. rewrite trimEnd_without in H.
    assert (Hne : t <> []).
    { destruct Ht as [->|[->|(c & -> & _)]]; discriminate. }
    pose proof (without_blank_end_settled text rest t H Hne) as Hb.
    rewrite (blank_token_text t Ht) in Hb. discriminate.
  - apply trimEnd_twice.
Qed.

Example trimStart_example :
  trimStart (str "  " ++ [10240%N] ++ str "&#10240; a b ") = str "a b ".
Proof. reflexivity. Qed.

Example trimEnd_example :
  trimEnd (str " a b  &#10240;" ++ [10240%N] ++ str " ") = str " a b".
Proof. reflexivity. Qed.

Section BlankMarks.

Let mark (s : jsstring) : jsstring :=
  replace_scan blank_mark_pattern (fun _ _ _ => [32%N]) 0 0 s.

Lemma refineWhitespace_mark (text : jsstring) :
  refineWhitespace text = mark text.
Proof.
  unfold refineWhitespace, RegExp_replace, mark.
  apply replace_scan_ext. intros p matched captures.
  apply GetSubstitution_plain. simpl. intros [H|[]]. discriminate H.
Qed.

Lemma mark_position (skip p : nat) (s : jsstring) :
  replace_scan blank_mark_pattern (fun _ _ _ => [32%N]) skip p s
  = replace_scan blank_mark_pattern (fun _ _ _ => [32%N]) skip 0 s.
Proof. now apply replace_scan_position. Qed.

Lemma mark_cons (c : char) (s : jsstring) :
  mark (c :: s)
  = if (c =? 10240)%N then 32%N :: mark s
    else if starts_with blank_entity (c :: s) then 32%N :: mark (skipn 7 s)
    else c :: mark s.
Proof.
  unfold mark. rewrite replace_scan_cons. unfold blank_mark_pattern at 1.
  destruct (c =? 10240)%N.
  - cbn [app]. now rewrite mark_position.
  - destruct (starts_with blank_entity (c :: s)) eqn:E.
    + change (length blank_entity) with 8%nat. cbn [app].
      assert (Hl : (7 <= length s)%nat).
      { pose proof (starts_with_app _ _ E) as Hs.
        apply (f_equal (@length _)) in Hs. rewrite length_app in Hs.
        change (length blank_entity) with 8%nat in Hs. simpl in Hs. lia. }
      rewrite replace_scan_skip by exact Hl. now rewrite mark_position.
    + now rewrite mark_position.
Qed.

Lemma mark_facts_bounded (n : nat) : forall s, (length s <= n)%nat ->
  ~ In 10240%N (mark s) /\ (length (mark s) <= length s)%nat.
Proof.
  induction n as [|n IH]; intros s H.
  - destruct s; [split; [intros [] | reflexivity] | simpl in H; lia].
  - destruct s as [|c s]; [split; [intros [] | reflexivity]|].
    simpl in H. rewrite mark_cons.
    destruct (c =? 10240)%N eqn:E1.
    + destruct (IH s ltac:(lia)) as [H1 H2]. split; [|cbn [length]; lia].
      intros [Hc|Hc]; [discriminate Hc | auto].
    + destruct (starts_with blank_entity (c :: s)).
      * assert (Hl : (length (skipn 7 s) <= n)%nat)
          by (rewrite length_skipn; lia).
        destruct (IH _ Hl) as [H1 H2]. rewrite length_skipn in H2.
        split; [|cbn [length]; lia].
        intros [Hc|Hc]; [discriminate Hc | auto].
      * destruct (IH s ltac:(lia)) as [H1 H2]. split; [|cbn [length]; lia].
        apply N.eqb_neq in E1. intros [Hc|Hc]; [congruence | auto].
Qed.

(** What the result starts with, apart from spaces, the text starts
    with. *)
Lemma mark_starts_with (w : jsstring) : forall s,
  ~ In 32%N w -> w <> [] ->
  starts_with w (mark s) = true -> starts_with w s = true.
Proof.
  induction w as [|x w IH]; intros s Hw Hne H; [contradiction|].
  assert (Hx : x <> 32%N) by (intros ->; apply Hw; now left).
  assert (Hw' : ~ In 32%N w) by (intros Hin; apply Hw; now right).
  destruct s as [|c s]; [discriminate H|].
  rewrite mark_cons in H.
  assert (Hsp : forall t, starts_with (x :: w) (32%N :: t) = false).
  { intros t. cbn [starts_with]. unfold char_eqb.
    apply N.eqb_neq in Hx. now rewrite Hx. }
  destruct (c =? 10240)%N; [now rewrite Hsp in H|].
  destruct (starts_with blank_entity (c :: s)); [now rewrite Hsp in H|].
  cbn [starts_with] in *. apply andb_true_iff in H as [H1 H2].
  rewrite H1. cbn [andb].
  destruct w as [|y w]; [reflexivity|].
  apply IH; [assumption | discriminate | assumption].
Qed.

Lemma mark_no_entity_bounded (n : nat) : forall s, (length s <= n)%nat ->
  includes blank_entity (mark s) = false.
Proof.
  induction n as [|n IH]; intros s H.
  - destruct s; [reflexivity | simpl in H; lia].
  - destruct s as [|c s]; [reflexivity|]. simpl in H.
    rewrite mark_cons.
    destruct (c =? 10240)%N eqn:E1.
    + cbn [includes]. rewrite (IH s) by lia. reflexivity.
    + destruct (starts_with blank_entity (c :: s)) eqn:E2.
      * cbn [includes]. rewrite (IH (skipn 7 s))
          by (rewrite length_skipn; lia).
        reflexivity.
      * cbn [includes]. rewrite (IH s) by lia. rewrite orb_false_r.
        destruct (starts_with blank_entity (c :: mark s)) eqn:E3;
          [|reflexivity].
        exfalso.
        change (starts_with blank_entity (c :: mark s))
          with (char_eqb 38 c && starts_with (str "#10240;") (mark s)) in E3.
        change (starts_with blank_entity (c :: s))
          with (char_eqb 38 c && starts_with (str "#10240;") s) in E2.
        apply andb_true_iff in E3 as [Hc Hr]. rewrite Hc in E2.
        apply mark_starts_with in Hr.
        -- rewrite Hr in E2. discriminate E2.
        -- simpl. intuition discriminate.
        -- discriminate.
Qed.

Lemma mark_plain (s : jsstring) :
  ~ In 10240%N s -> includes blank_entity s = false -> mark s = s.
Proof.
  induction s as [|c s IH]; intros H1 H2; [reflexivity|].
  rewrite mark_cons. cbn [includes] in H2.
  apply orb_false_iff in H2 as [H2 H3].
  replace (c =? 10240)%N with false
    by (symmetry; apply N.eqb_neq; intros ->; apply H1; now left).
  rewrite H2. f_equal. apply IH; [|exact H3].
  intros Hin. apply H1. now right.
Qed.

End BlankMarks.

(** X15.  The result of [refineWhitespace] holds neither the code unit
    U+2800 nor the text ["&#10240;"], and is never longer than the text;
    a text that holds neither comes back unchanged, so [refineWhitespace]
    is idempotent. *)
Theorem refineWhitespace_leaves_no_mark (text : jsstring) :
  ~ In 10240%N (refineWhitespace text)
  /\ includes blank_entity (refineWhitespace text) = false
  /\ (length (refineWhitespace text) <= length text)%nat
  /\ (~ In 10240%N text -> includes blank_entity text = false ->
      refineWhitespace text = text)
  /\ refineWhitespace (refineWhitespace text) = refineWhitespace text.
Proof.
  assert (H1 : ~ In 10240%N (refineWhitespace text)
               /\ (length (refineWhitespace text) <= length text)%nat).
  { rewrite refineWhitespace_mark.
    apply mark_facts_bounded with (n := length text). lia. }
  assert (H2 : includes blank_entity (refineWhitespace text) = false).
  { rewrite refineWhitespace_mark.
    apply mark_no_entity_bounded with (n := length text). lia. }
  destruct H1 as [H1 H3].
  split; [exact H1|]. split; [exact H2|]. split; [exact H3|]. split.
  - intros Ha Hb. rewrite refineWhitespace_mark. now apply mark_plain.
  - rewrite (refineWhitespace_mark (refineWhitespace text)).
    now apply mark_plain.
Qed.

Lemma refineWhitespace_leaves_no_mark_witness :
  refineWhitespace (str "a b") = str "a b".
Proof.
  apply (proj1 (proj2 (proj2 (proj2
           (refineWhitespace_leaves_no_mark (str "a b")))))).
  - simpl. intuition discriminate.
  - reflexivity.
Defined.

Example refineWhitespace_example :
  refineWhitespace (str "a&#10240;b" ++ [10240%N] ++ str "c")
  = str "a b c".
Proof. reflexivity. Qed.

(* ================================================================== *)
(** * Further properties: toUpperCaseHead *)
(* ================================================================== *)

Lemma toUpperCase_char_twice (c : char) :
  toUpperCase_char (toUpperCase_char c) = toUpperCase_char c.
Proof.
  unfold toUpperCase_char. destruct (is_ascii_lower c) eqn:E; [|now rewrite E].
  unfold is_ascii_lower in *. apply andb_true_iff in E as [E1 E2].
  apply N.leb_le in E1, E2.
  replace (97 <=? c - 32)%N with false
    by (symmetry; apply N.leb_gt; lia).
  reflexivity.
Qed.

Lemma toUpperCase_char_ascii (c : char) :
  (c < 128)%N -> (toUpperCase_char c < 128)%N.
Proof. unfold toUpperCase_char. destruct (is_ascii_lower c); lia. Qed.

Lemma toUpperCaseHead_cons (c : char) (rest : jsstring) :
  (c < 128)%N ->
  toUpperCaseHead (c :: rest) = Some (toUpperCase_char c :: rest).
Proof.
  intros H. unfold toUpperCaseHead.
  rewrite substring_from_0, substring_to_end.
  change (firstn (Z.to_nat 1) (c :: rest)) with [c].
  change (skipn (Z.to_nat 1) (c :: rest)) with rest.
  unfold toUpperCase_ascii. cbn [forallb].
  apply N.ltb_lt in H. now rewrite H.
Qed.

(** X16.  On a text whose first code unit is ASCII, [toUpperCaseHead]
    changes that code unit only: a lowercase letter becomes the uppercase
    letter, any other code unit stays, the rest of the text is the same,
    and a second application changes nothing.  The empty text stays
    empty. *)
Theorem toUpperCaseHead_head_only (c : char) (rest : jsstring) :
  (c < 128)%N ->
  exists u,
    toUpperCaseHead (c :: rest) = Some (u :: rest)
    /\ (is_ascii_lower c = true -> u = (c - 32)%N)
    /\ (is_ascii_lower c = false -> u = c)
    /\ toUpperCaseHead (u :: rest) = Some (u :: rest)
    /\ toUpperCaseHead [] = Some [].
Proof.
  intros H. exists (toUpperCase_char c).
  split; [now apply toUpperCaseHead_cons|].
  split; [unfold toUpperCase_char; now intros ->|].
  split; [unfold toUpperCase_char; now intros ->|].
  split; [|reflexivity].
  rewrite toUpperCaseHead_cons by now apply toUpperCase_char_ascii.
  now rewrite toUpperCase_char_twice.
Qed.

Lemma toUpperCaseHead_head_only_witness :
  exists u,
    toUpperCaseHead (str "hello") = Some (u :: str "ello")
    /\ (is_ascii_lower 104 = true -> u = (104 - 32)%N)
    /\ (is_ascii_lower 104 = false -> u = 104%N)
    /\ toUpperCaseHead (u :: str "ello") = Some (u :: str "ello")
    /\ toUpperCaseHead [] = Some [].
Proof.
  apply (toUpperCaseHead_head_only 104 (str "ello")). reflexivity.
Defined.

(* ================================================================== *)
(** * Further properties: leadingTime *)
(* ================================================================== *)

Section DigitCount.

Lemma of_uint_acc_lower (l : uint) : forall acc,
  (Npos acc * 10 ^ N.of_nat (length (uint_chars l))
   <= Npos (Pos.of_uint_acc l acc))%N.
Proof.
  induction l; intros acc; cbn [uint_chars length Pos.of_uint_acc];
    [rewrite N.pow_0_r; lia | ..];
    rewrite Nat2N.inj_succ, N.pow_succ_r';
    match goal with
    | |- (_ <= Npos (Pos.of_uint_acc _ ?a))%N => specialize (IHl a)
    end;
    nia.
Qed.

Lemma to_uint_no_leading_zero (p : positive) (l : uint) :
  Pos.to_uint p <> D0 l.
Proof.
  intros H.
  pose proof (DecimalPos.Unsigned.to_of (Pos.to_uint p)) as Hn.
  rewrite DecimalPos.Unsigned.of_to in Hn. cbn [N.to_uint] in Hn.
  rewrite H in Hn. unfold unorm in Hn. cbn [nzhead] in Hn.
  destruct (nzhead l) eqn:E;
    try (pose proof (DecimalFacts.nb_digits_nzhead l) as Hd; rewrite E, <- Hn in Hd;
         cbn [nb_digits] in Hd; lia).
  injection Hn as ->.
  now apply (DecimalPos.Unsigned.to_uint_nonzero p).
Qed.

(** A number of [k] digits is at least [10^(k-1)]. *)
Lemma digits_lower (p : positive) :
  (10 ^ N.of_nat (length (N_to_string (Npos p)) - 1) <= Npos p)%N.
Proof.
  unfold N_to_string. cbn [N.to_uint].
  pose proof (DecimalPos.Unsigned.of_to p) as Hp.
  pose proof (DecimalPos.Unsigned.to_uint_nonnil p) as Hnil.
  pose proof (to_uint_no_leading_zero p) as Hz.
  destruct (Pos.to_uint p) as [|l|l|l|l|l|l|l|l|l|l];
    [contradiction | now contradiction (Hz l) | ..];
    cbn [Pos.of_uint] in Hp; injection Hp as Hp;
    cbn [uint_chars length]; rewrite Nat.sub_succ, Nat.sub_0_r;
    match goal with
    | H : Pos.of_uint_acc l ?a = p |- _ =>
        pose proof (of_uint_acc_lower l a) as Hl; rewrite H in Hl
    end;
    lia.
Qed.

Lemma digits_count_exact (v : N) :
  (v <= 2 ^ 53)%N -> (length (N_to_string v) <= 21)%nat.
Proof.
  intros H. destruct v as [|p]; [simpl; lia|].
  pose proof (digits_lower p) as Hl.
  destruct (Nat.le_gt_cases (length (N_to_string (Npos p))) 21) as [Hk|Hk];
    [exact Hk|].
  exfalso.
  assert (Hm : (10 ^ 21 <= 10 ^ N.of_nat (length (N_to_string (Npos p)) - 1))%N)
    by (apply N.pow_le_mono_r; lia).
  assert (H21 : (2 ^ 53 < 10 ^ 21)%N) by reflexivity.
  lia.
Qed.

Lemma digits_count_one (v : N) :
  (length (N_to_string v) <=? 1)%nat = (v <? 10)%N.
Proof.
  destruct (v <? 10)%N eqn:E.
  - apply N.ltb_lt in E. apply Nat.leb_le.
    destruct v as [|p]; [simpl; lia|].
    pose proof (digits_lower p) as Hl.
    destruct (Nat.le_gt_cases (length (N_to_string (Npos p))) 1) as [Hk|Hk];
      [exact Hk|].
    exfalso.
    assert (Hm : (10 ^ 1 <= 10 ^ N.of_nat (length (N_to_string (Npos p)) - 1))%N)
      by (apply N.pow_le_mono_r; lia).
    change (10 ^ 1)%N with 10%N in Hm. lia.
  - apply N.ltb_ge in E. apply Nat.leb_gt.
    destruct (Nat.le_gt_cases (length (N_to_string v)) 1) as [Hk|Hk];
      [|exact Hk].
    exfalso. unfold N_to_string in Hk.
    pose proof (DecimalN.Unsigned.of_to v) as Hv.
    destruct (N.to_uint v) as [|l|l|l|l|l|l|l|l|l|l];
      [rewrite <- Hv in E; simpl in E; lia | ..];
      (destruct l; [|simpl in Hk; lia ..]);
      rewrite <- Hv in E; simpl in E; lia.
Qed.

Lemma all_zero_repeat (l : jsstring) :
  Forall (fun c => (48 =? c)%N = true) l -> l = repeat 48%N (length l).
Proof.
  induction 1 as [|c l Hc Hl IH]; [reflexivity|].
  apply N.eqb_eq in Hc. subst c. simpl. now f_equal.
Qed.

(** The significand and the zeros that were taken off its end are the
    digits. *)
Lemma significand_zeros (m : positive) :
  significand m
    ++ repeat 48%N (length (N_to_string (Npos m)) - length (significand m))
  = N_to_string (Npos m)
  /\ (length (significand m) <= length (N_to_string (Npos m)))%nat.
Proof.
  unfold significand. set (ds := N_to_string (Npos m)).
  pose proof (take_drop_while (N.eqb 48) (rev ds)) as H.
  pose proof (take_while_Forall (N.eqb 48) (rev ds)) as Hz.
  set (tw := take_while (N.eqb 48) (rev ds)) in *.
  set (dw := drop_while (N.eqb 48) (rev ds)) in *.
  assert (Hds : ds = rev dw ++ rev tw).
  { rewrite <- rev_app_distr, H. symmetry. apply rev_involutive. }
  assert (Hlen : length ds = (length dw + length tw)%nat).
  { rewrite Hds, length_app, !length_rev. reflexivity. }
  split; [|rewrite length_rev; lia].
  rewrite length_rev.
  replace (length ds - length dw)%nat with (length (rev tw))
    by (rewrite length_rev; lia).
  rewrite <- all_zero_repeat; [now symmetry|].
  now apply Forall_rev.
Qed.

Lemma Number_toString_integer (neg : bool) (m : positive) :
  (length (N_to_string (Npos m)) <= 21)%nat ->
  Number_toString
    (Finite neg m (Z.of_nat (length (N_to_string (Npos m)))))
  = (if neg then str "-" else []) ++ N_to_string (Npos m).
Proof.
  intros H. unfold Number_toString. f_equal.
  destruct (significand_zeros m) as [Hs Hl].
  replace (Z.of_nat (length (significand m))
           <=? Z.of_nat (length (N_to_string (Npos m))))%Z
    with true by lia.
  replace (Z.of_nat (length (N_to_string (Npos m))) <=? 21)%Z
    with true by lia.
  cbn [andb]. unfold zeros.
  replace (Z.to_nat (Z.of_nat (length (N_to_string (Npos m)))
                     - Z.of_nat (length (significand m))))
    with (length (N_to_string (Npos m)) - length (significand m))%nat by lia.
  exact Hs.
Qed.

Lemma Number_of_digits_plain (v : N) :
  (v <= 2 ^ 53)%N ->
  Number_of_string (N_to_string v) = Some (Number_of_Z (Z.of_N v))
  /\ Number_of_string (48%N :: N_to_string v)
     = Some (Number_of_Z (Z.of_N v)).
Proof.
  intros Hv.
  destruct (N_to_string_cons v) as (c & rest & Hs & Hc).
  assert (Hd : Number_of_digits false (N_to_string v)
               = Some (Number_of_Z (Z.of_N v))).
  { unfold Number_of_digits. rewrite Hs, <- Hs.
    unfold N_to_string at 1. rewrite parse_uint_chars.
    rewrite DecimalN.Unsigned.of_to.
    destruct v as [|m]; [reflexivity|].
    apply N.leb_le in Hv. unfold MAX_EXACT. now rewrite Hv. }
  split.
  - rewrite <- Hd. rewrite Hs. unfold Number_of_string.
    unfold is_digit in Hc. apply andb_true_iff in Hc as [Hc _].
    apply N.leb_le in Hc.
    replace (c =? 45)%N with false by (symmetry; apply N.eqb_neq; lia).
    replace (c =? 43)%N with false by (symmetry; apply N.eqb_neq; lia).
    reflexivity.
  - rewrite <- Hd. unfold Number_of_string. cbn [N.eqb Pos.eqb].
    unfold Number_of_digits. rewrite Hs at 2.
    cbn [parse_uint digit_cons N.eqb Pos.eqb].
    destruct (parse_uint (N_to_string v)) as [d|] eqn:E; [|reflexivity].
    reflexivity.
Qed.

End DigitCount.

Section LeadingTime.

Variable isNumber : value -> bool.

Section NonNegative.

Variable v : N.
Hypothesis v_exact : (v <= 2 ^ 53)%N.

Let digits : jsstring := N_to_string v.
Let x : number := Number_of_Z (Z.of_N v).

Lemma small_range : zero_le x && lt_ten x = (v <? 10)%N.
Proof.
  unfold x. destruct v as [|m]; [reflexivity|].
  cbn [Z.of_N Number_of_Z zero_le lt_ten negb orb andb].
  rewrite <- digits_count_one.
  destruct (Nat.leb_spec (length (N_to_string (Npos m))) 1);
    [apply Z.leb_le | apply Z.leb_gt]; lia.
Qed.

Lemma integer_text : Number_toString x = digits.
Proof.
  unfold x, digits. destruct v as [|m]; [reflexivity|].
  cbn [Z.of_N Number_of_Z].
  now rewrite Number_toString_integer by now apply digits_count_exact.
Qed.

Lemma leadingTime_nonneg (time : value) :
  time = VNum x \/ time = VStr digits
  \/ ((v < 10)%N /\ time = VStr (48%N :: digits)) ->
  isNumber time = true ->
  leadingTime isNumber time
  = Some (VStr (if (v <? 10)%N then 48%N :: digits else digits)).
Proof.
  intros Ht Hn. unfold leadingTime. rewrite Hn.
  destruct (Number_of_digits_plain v v_exact) as [H1 H2].
  fold x in H1, H2. fold digits in H1, H2.
  assert (Hx : ToNumber time = Some x).
  { destruct Ht as [->|[->|[_ ->]]]; [reflexivity | exact H1 | exact H2]. }
  rewrite Hx, small_range, integer_text.
  destruct (v <? 10)%N eqn:E; [reflexivity|].
  destruct Ht as [->|[->|[Hlt _]]].
  - cbn [ToString]. now rewrite integer_text.
  - reflexivity.
  - apply N.ltb_ge in E. lia.
Qed.

End NonNegative.

Section Negative.

Variable p : positive.
Hypothesis p_exact : (Npos p <= 2 ^ 53)%N.

Let digits : jsstring := N_to_string (Npos p).

Lemma leadingTime_negative (time : value) :
  time = VNum (Number_of_Z (Zneg p)) \/ time = VStr (45%N :: digits) ->
  isNumber time = true ->
  leadingTime isNumber time = Some (VStr (45%N :: digits)).
Proof.
  intros Ht Hn. unfold leadingTime. rewrite Hn.
  assert (Hx : ToNumber time = Some (Number_of_Z (Zneg p))).
  { destruct Ht as [->| ->]; [reflexivity|].
    cbn [ToNumber Number_of_string N.eqb Pos.eqb].
    destruct (N_to_string_cons (Npos p)) as (c & rest & Hs & Hc).
    unfold Number_of_digits, digits. rewrite Hs, <- Hs.
    unfold N_to_string at 1. rewrite parse_uint_chars.
    rewrite DecimalN.Unsigned.of_to.
    apply N.leb_le in p_exact. unfold MAX_EXACT. now rewrite p_exact. }
  rewrite Hx. cbn [Number_of_Z zero_le negb andb].
  destruct Ht as [->| ->]; [|reflexivity].
  cbn [ToString Number_of_Z].
  now rewrite Number_toString_integer by now apply digits_count_exact.
Qed.

End Negative.

End LeadingTime.

(** X17.  For an integer [z] of magnitude up to 2^53, given as a number or
    (when it is not negative) as the string of its digits, and numeric for
    [isNumber], [leadingTime] returns the digits of [z] with one ["0"]
    before them when [0 <= z < 10], the digits alone when [z >= 10], and
    the minus sign and the digits when [z < 0]; the result, when it is
    numeric for [isNumber], is returned by [leadingTime] as it is. *)
Theorem leadingTime_integers (isNumber : value -> bool) (z : Z)
  (time : value) :
  (Z.abs z <= 2 ^ 53)%Z ->
  time = VNum (Number_of_Z z)
  \/ ((0 <= z)%Z /\ time = VStr (N_to_string (Z.to_N z))) ->
  isNumber time = true ->
  let digits := N_to_string (Z.abs_N z) in
  let out :=
    if (z <? 0)%Z then str "-" ++ digits
    else if (z <? 10)%Z then str "0" ++ digits
    else digits in
  leadingTime isNumber time = Some (VStr out)
  /\ (isNumber (VStr out) = true ->
      leadingTime isNumber (VStr out) = Some (VStr out)).
Proof.
  intros Hz Ht Hn digits out. unfold out, digits.
  assert (H53 : (2 ^ 53 = Z.of_N (2 ^ 53))%Z) by reflexivity.
  destruct z as [|p|p].
  - assert (Hv : (0 <= 2 ^ 53)%N) by lia.
    assert (Ht' : time = VNum (Number_of_Z (Z.of_N 0))
                  \/ time = VStr (N_to_string 0)
                  \/ ((0 < 10)%N /\ time = VStr (48%N :: N_to_string 0))).
    { destruct Ht as [->|[_ ->]]; [now left | right; now left]. }
    split.
    + apply (leadingTime_nonneg isNumber 0 Hv time Ht' Hn).
    + intros Ho.
      apply (leadingTime_nonneg isNumber 0 Hv (VStr (str "00")));
        [|exact Ho].
      right. right. split; [lia | reflexivity].
  - assert (Hv : (Npos p <= 2 ^ 53)%N) by lia.
    assert (Ht' : time = VNum (Number_of_Z (Z.of_N (Npos p)))
                  \/ time = VStr (N_to_string (Npos p))
                  \/ ((Npos p < 10)%N
                      /\ time = VStr (48%N :: N_to_string (Npos p)))).
    { destruct Ht as [->|[_ ->]]; [now left | right; now left]. }
    pose proof (leadingTime_nonneg isNumber (Npos p) Hv time Ht' Hn) as H1.
    cbn [Z.ltb Z.compare Z.abs_N].
    change (Z.pos p <? 10)%Z with (Z.of_N (Npos p) <? Z.of_N 10)%Z.
    replace (Z.of_N (Npos p) <? Z.of_N 10)%Z with (Npos p <? 10)%N
      by (destruct (N.ltb_spec (Npos p) 10);
          symmetry; [apply Z.ltb_lt | apply Z.ltb_ge]; lia).
    split; [exact H1|]. intros Ho.
    apply (leadingTime_nonneg isNumber (Npos p) Hv); [|exact Ho].
    destruct (Npos p <? 10)%N eqn:E.
    + right. right. split; [now apply N.ltb_lt | reflexivity].
    + right. now left.
  - assert (Hv : (Npos p <= 2 ^ 53)%N) by lia.
    cbn [Z.ltb Z.compare Z.abs_N].
    split.
    + apply (leadingTime_negative isNumber p Hv); [|exact Hn].
      destruct Ht as [->|[Hneg _]]; [now left | lia].
    + intros Ho. apply (leadingTime_negative isNumber p Hv); [|exact Ho].
      now right.
Qed.

Lemma leadingTime_integers_witness :
  leadingTime isNumber_spec (VNum (Number_of_Z 5)) = Some (VStr (str "05"))
  /\ leadingTime isNumber_spec (VStr (str "15")) = Some (VStr (str "15"))
  /\ leadingTime isNumber_spec (VNum (Number_of_Z (-5)))
     = Some (VStr (str "-5")).
Proof.
  split; [|split].
  - apply (proj1 (leadingTime_integers isNumber_spec 5
                    (VNum (Number_of_Z 5))
                    ltac:(simpl; lia) ltac:(now left) eq_refl)).
  - apply (proj1 (leadingTime_integers isNumber_spec 15 (VStr (str "15"))
                    ltac:(simpl; lia)
                    ltac:(right; split; [lia | reflexivity]) eq_refl)).
  - apply (proj1 (leadingTime_integers isNumber_spec (-5)
                    (VNum (Number_of_Z (-5)))
                    ltac:(simpl; lia) ltac:(now left) eq_refl)).
Defined.

(* ================================================================== *)
(** * Further properties: toCurrencyFormat *)
(* ================================================================== *)





Example toCurrencyFormat_negative_zero_example :
  toCurrencyFormat isNumber_spec (VStr (str "-0.5")) no_options
  = Some (Returns (str "0.5")).
Proof. reflexivity. Qed.

(* ================================================================== *)
(** * Further properties: replaceAll of one code unit, camel casing *)
(* ================================================================== *)

Lemma split_char_nonempty (t : char) (s : jsstring) :
  split_scan [t] 0 s <> [].
Proof.
  destruct s as [|c s]; [discriminate|].
  rewrite split_char_cons.
  destruct (t =? c)%N; [discriminate|].
  destruct (split_scan [t] 0 s); discriminate.
Qed.

Lemma join_split_char (t : char) (r s : jsstring) :
  join r (split_scan [t] 0 s)
  = flat_map (fun x => if (x =? t)%N then r else [x]) s.
Proof.
  induction s as [|c s IH]; [reflexivity|].
  rewrite split_char_cons. cbn [flat_map]. rewrite <- IH.
  pose proof (split_char_nonempty t s) as Hne.
  rewrite (N.eqb_sym c t).
  destruct (t =? c)%N.
  - destruct (split_scan [t] 0 s) as [|piece pieces]; [contradiction|].
    reflexivity.
  - destruct (split_scan [t] 0 s) as [|piece pieces]; [contradiction|].
    destruct pieces; reflexivity.
Qed.

Lemma replaceAll_char_flat (text r : jsstring) (c : char) :
  replaceAll text [c] r
  = flat_map (fun x => if (x =? c)%N then r else [x]) text.
Proof.
  destruct text as [|x text]; [reflexivity|].
  unfold replaceAll. cbn [ToBoolean negb]. unfold split.
  apply join_split_char.
Qed.

Lemma replaceAll_char_map (text : jsstring) (c d : char) :
  replaceAll text [c] [d] = map (fun x => if (x =? c)%N then d else x) text.
Proof.
  rewrite replaceAll_char_flat.
  induction text as [|x text IH]; [reflexivity|].
  cbn [flat_map map]. rewrite IH. now destruct (x =? c)%N.
Qed.

(** X19.  Replacing one code unit works unit by unit: the result of
    [replaceAll text c r] is [text] with [r] in the place of every [c] and
    every other code unit as it was; when [r] is one code unit as well,
    the result is as long as the text. *)
Theorem replaceAll_code_unit (text r : jsstring) (c d : char) :
  replaceAll text [c] r
  = flat_map (fun x => if (x =? c)%N then r else [x]) text
  /\ replaceAll text [c] [d] = map (fun x => if (x =? c)%N then d else x) text
  /\ length (replaceAll text [c] [d]) = length text.
Proof.
  split; [apply replaceAll_char_flat | split; [apply replaceAll_char_map|]].
  rewrite replaceAll_char_map. apply length_map.
Qed.

Lemma camel_plain (sep : char) (s : jsstring) :
  ~ In sep s -> camel sep s = s.
Proof.
  induction s as [|c s IH]; intros H; [reflexivity|].
  destruct s as [|l rest]; [reflexivity|].
  rewrite camel_cons.
  replace (c =? sep)%N with false
    by (symmetry; apply N.eqb_neq; intros ->; apply H; now left).
  cbn [andb]. f_equal. apply IH. intros Hin. apply H. now right.
Qed.

Lemma camel_length_bounded (sep : char) (n : nat) : forall s,
  (length s <= n)%nat -> (length (camel sep s) <= length s)%nat.
Proof.
  induction n as [|n IH]; intros s Hn.
  - destruct s; [simpl; lia | simpl in Hn; lia].
  - destruct s as [|c [|l rest]]; [simpl; lia | simpl; lia |].
    rewrite camel_cons. cbn [length] in Hn.
    destruct ((c =? sep)%N && is_ascii_letter l).
    + cbn [length]. specialize (IH rest ltac:(lia)). lia.
    + cbn [length]. specialize (IH (l :: rest) ltac:(cbn [length]; lia)).
      cbn [length] in IH. lia.
Qed.

(** X20.  [toCamelFromSnake] and [toCamelFromKebab] never make a text
    longer, and a text without the separator comes back unchanged. *)
Theorem toCamel_without_separator (text : jsstring) :
  (length (toCamelFromSnake text) <= length text)%nat
  /\ (length (toCamelFromKebab text) <= length text)%nat
  /\ (~ In 95%N text -> toCamelFromSnake text = text)
  /\ (~ In 45%N text -> toCamelFromKebab text = text).
Proof.
  rewrite toCamelFromSnake_camel, toCamelFromKebab_camel.
  repeat split.
  - now apply camel_length_bounded with (n := length text).
  - now apply camel_length_bounded with (n := length text).
  - apply camel_plain.
  - apply camel_plain.
Qed.

Lemma camel_kebab_as_snake (n : nat) : forall s,
  (length s <= n)%nat -> ~ In 95%N s ->
  camel 95 (map (fun x => if (x =? 45)%N then 95%N else x) s)
  = map (fun x => if (x =? 45)%N then 95%N else x) (camel 45 s).
Proof.
  induction n as [|n IH]; intros s Hn Hs.
  - destruct s; [reflexivity | simpl in Hn; lia].
  - destruct s as [|c [|l rest]]; [reflexivity | reflexivity |].
    cbn [map]. rewrite !camel_cons. cbn [length] in Hn.
    assert (Hc : c <> 95%N) by (intros ->; apply Hs; now left).
    assert (Hl : ~ In 95%N (l :: rest))
      by (intros Hin; apply Hs; now right).
    assert (Hr : ~ In 95%N rest)
      by (intros Hin; apply Hl; now right).
    assert (E1 : ((if (c =? 45)%N then 95%N else c) =? 95)%N = (c =? 45)%N).
    { destruct (N.eqb_spec c 45); [reflexivity|]. now apply N.eqb_neq. }
    assert (E2 : is_ascii_letter (if (l =? 45)%N then 95%N else l)
                 = is_ascii_letter l).
    { destruct (N.eqb_spec l 45) as [->|]; reflexivity. }
    rewrite E1, E2.
    destruct ((c =? 45)%N && is_ascii_letter l) eqn:E.
    + apply andb_true_iff in E as [_ E].
      assert (E3 : (l =? 45)%N = false).
      { destruct (N.eqb_spec l 45) as [->|]; [discriminate E | reflexivity]. }
      rewrite E3. cbn [map].
      assert (E4 : (toUpperCase_char l =? 45)%N = false).
      { unfold toUpperCase_char, is_ascii_letter, is_ascii_lower,
          is_ascii_upper in *.
        apply N.eqb_neq.
        destruct ((97 <=? l)%N && (l <=? 122)%N) eqn:El.
        - apply andb_true_iff in El as [L1 L2].
          apply N.leb_le in L1. lia.
        - cbn [orb] in E. apply andb_true_iff in E as [L1 L2].
          apply N.leb_le in L1. lia. }
      rewrite E4. f_equal. apply IH; [lia | exact Hr].
    + cbn [map]. f_equal.
      apply (IH (l :: rest)); [cbn [length]; lia | exact Hl].
Qed.

(** X21.  Kebab case is snake case with another separator: on a text
    without ["_"], turning every ["-"] into ["_"] and then applying
    [toCamelFromSnake] gives what [toCamelFromKebab] gives, once the
    ["-"] it left are turned into ["_"] as well. *)
Theorem toCamel_kebab_as_snake (text : jsstring) :
  ~ In 95%N text ->
  toCamelFromSnake (replaceAll text (str "-") (str "_"))
  = replaceAll (toCamelFromKebab text) (str "-") (str "_").
Proof.
  intros H.
  change (str "-") with [45%N]. change (str "_") with [95%N].
  rewrite !replaceAll_char_map.
  rewrite toCamelFromSnake_camel, toCamelFromKebab_camel.
  now apply camel_kebab_as_snake with (n := length text).
Qed.

Lemma toCamel_kebab_as_snake_witness :
  toCamelFromSnake (replaceAll (str "get-user-name") (str "-") (str "_"))
  = replaceAll (toCamelFromKebab (str "get-user-name")) (str "-") (str "_").
Proof.
  apply (toCamel_kebab_as_snake (str "get-user-name")).
  simpl. intuition discriminate.
Defined.
